(** * baskets: snapshot store and holdings pipeline

    A shallow embedding of [baskets/database.py] and [baskets/portfolio.py]
    and the properties of their functions.

    Python values are modelled as the code has them: [str] as [string],
    [float] as the kernel's binary64 numbers (read as real numbers where a
    rounding error is bounded), exceptions as a result type,
    [logging] calls as a list of emitted records threaded through a small
    writer-and-error monad, and the file system seen through [os.path.exists]
    and [os.listdir] as a map from path strings to nodes whose directory
    listings keep the order in which [os.listdir] reports them. *)

From Stdlib Require Import List String Ascii Bool Arith Lia ZArith QArith.
From Stdlib Require Import Floats Permutation Sorted.
From Stdlib Require Import Reals Lra.
Import ListNotations.

Set Warnings "-inexact-float".
Local Close Scope Q_scope.
Local Open Scope string_scope.
Local Open Scope list_scope.

(* ================================================================== *)
(** ** Exceptions, results and logging *)

(** The exceptions the two modules can raise or let through. *)
Inductive exn : Type :=
| FileNotFoundError (path : string)
| NotADirectoryError (path : string)
| AssertionError (message : string)
| ValueError (message : string)
| ZeroDivisionError
| TypeError
| AttributeError (name : string)
| KeyError (name : string)
| IndexError
| UnboundLocalError (name : string)
| ParseError
| SystemExit (message : string).

Inductive res (A : Type) : Type :=
| Ok (a : A)
| Raise (e : exn).
Arguments Ok {A} a.
Arguments Raise {A} e.

Definition res_bind {A B} (r : res A) (k : A -> res B) : res B :=
  match r with
  | Ok a => k a
  | Raise e => Raise e
  end.

Declare Scope res_scope.
Delimit Scope res_scope with res.
Notation "x <- r ;; k" := (res_bind r (fun x => k))
  (at level 61, r at next level, right associativity) : res_scope.

Definition is_ok {A} (r : res A) : bool :=
  match r with Ok _ => true | Raise _ => false end.

(** [for x in xs: ...] over a fallible body. *)
Fixpoint res_map {A B} (f : A -> res B) (xs : list A) : res (list B) :=
  match xs with
  | [] => Ok []
  | x :: xs' =>
      match f x with
      | Raise e => Raise e
      | Ok y =>
          match res_map f xs' with
          | Raise e => Raise e
          | Ok ys => Ok (y :: ys)
          end
      end
  end.

(* ================================================================== *)
(** ** Strings: order, sorting, paths *)

Definition nonempty {A} (l : list A) : bool :=
  match l with [] => false | _ :: _ => true end.

(** [sorted(xs)] on a list of [str]: the order is the lexicographic one on
    characters, and a stable sort of strings is determined by it. *)
Fixpoint insert_sorted (x : string) (l : list string) : list string :=
  match l with
  | [] => [x]
  | y :: l' => if String.leb x y then x :: l else y :: insert_sorted x l'
  end.

Fixpoint sorted (l : list string) : list string :=
  match l with
  | [] => []
  | x :: l' => insert_sorted x (sorted l')
  end.

(** [xs[-1]] on a list known to be non-empty. *)
Definition last_item (xs : list string) : string := last xs "".

Definition startswith_sep (b : string) : bool :=
  match b with
  | String c _ => Ascii.eqb c "/"
  | EmptyString => false
  end.

Fixpoint endswith_sep (p : string) : bool :=
  match p with
  | EmptyString => false
  | String c EmptyString => Ascii.eqb c "/"
  | String _ rest => endswith_sep rest
  end.

Definition str_empty (s : string) : bool :=
  match s with EmptyString => true | _ => false end.

(** One step of [posixpath.join]: an absolute component replaces what was
    joined so far, otherwise it is appended after exactly one separator. *)
Definition join_step (path b : string) : string :=
  if startswith_sep b then b
  else if str_empty path || endswith_sep path then path ++ b
  else path ++ "/" ++ b.

Definition path_join (a : string) (p : list string) : string :=
  fold_left join_step p a.

(* ================================================================== *)
(** ** The file system as [os.path.exists] and [os.listdir] see it *)

Inductive node : Type :=
| File
| Dir (entries : list string).   (* in the order [os.listdir] returns them *)

Definition filesystem := string -> option node.

Definition path_exists (fs : filesystem) (p : string) : bool :=
  match fs p with Some _ => true | None => false end.

Definition listdir (fs : filesystem) (p : string) : res (list string) :=
  match fs p with
  | Some (Dir entries) => Ok entries
  | Some File => Raise (NotADirectoryError p)
  | None => Raise (FileNotFoundError p)
  end.

Fixpoint assoc_lookup {A} (l : list (string * A)) (k : string) : option A :=
  match l with
  | [] => None
  | (k', v) :: l' => if String.eqb k k' then Some v else assoc_lookup l' k
  end.

(** A finite file system given by its list of paths. *)
Definition mkfs (l : list (string * node)) : filesystem := assoc_lookup l.

(* ================================================================== *)
(** ** database.py *)

Module Database.

Local Open Scope res_scope.

Record Database : Type := { directory : string }.

(** [datetime.date]. *)
Record date : Type := { year : nat; month : nat; day : nat }.

Definition digit (n : nat) : ascii := ascii_of_nat (48 + n mod 10).

Definition pad2 (n : nat) : string :=
  String (digit (n / 10)) (String (digit n) EmptyString).

Definition pad4 (n : nat) : string :=
  String (digit (n / 1000)) (String (digit (n / 100)) (pad2 n)).

(** ['{:%Y/%m/%d}'.format(date)], the year written with four digits. *)
Definition strftime_Ymd (d : date) : string :=
  pad4 (year d) ++ "/" ++ pad2 (month d) ++ "/" ++ pad2 (day d).

Definition getdir (db : Database) (key : string) (d : date) : string :=
  path_join (directory db) [key; strftime_Ymd d].

Definition get (fs : filesystem) (db : Database) (key : string) (d : date)
  : res (option string) :=
  let dirname := getdir db key d in
  if path_exists fs dirname then
    filenames <- listdir fs dirname ;;
    Ok (if nonempty filenames
        then Some (path_join dirname [last_item (sorted filenames)])
        else None)
  else Ok None.

(** The [for _ in range(3)] loop of [getlatest]: [Ok None] is the [return
    None] inside the loop, [Ok (Some curdir)] the directory reached when the
    loop runs to its end. *)
Fixpoint descend (fs : filesystem) (n : nat) (curdir : string)
  : res (option string) :=
  match n with
  | O => Ok (Some curdir)
  | S n' =>
      filenames <- listdir fs curdir ;;
      if nonempty filenames
      then descend fs n' (path_join curdir [last_item filenames])
      else Ok None
  end.

Definition getlatest_body (fs : filesystem) (db : Database) (key : string)
  : res (option string) :=
  let curdir := path_join (directory db) [key] in
  r <- descend fs 3 curdir ;;
  match r with
  | None => Ok None
  | Some curdir =>
      filenames <- listdir fs curdir ;;
      Ok (if nonempty filenames
          then Some (path_join curdir [last_item (sorted filenames)])
          else None)
  end.

(** [try: ... except FileNotFoundError: pass] followed by [return None]. *)
Definition getlatest (fs : filesystem) (db : Database) (key : string)
  : res (option string) :=
  match getlatest_body fs db key with
  | Raise (FileNotFoundError _) => Ok None
  | r => r
  end.

(** What the specification describes for the latest snapshot: the same walk
    with the lexicographically last child chosen at each of the three
    levels.  It is compared with [getlatest] below. *)
Fixpoint descend_sorted (fs : filesystem) (n : nat) (curdir : string)
  : res (option string) :=
  match n with
  | O => Ok (Some curdir)
  | S n' =>
      filenames <- listdir fs curdir ;;
      if nonempty filenames
      then descend_sorted fs n' (path_join curdir [last_item (sorted filenames)])
      else Ok None
  end.

Definition resolve_latest_spec_body (fs : filesystem) (db : Database)
  (key : string) : res (option string) :=
  let curdir := path_join (directory db) [key] in
  r <- descend_sorted fs 3 curdir ;;
  match r with
  | None => Ok None
  | Some curdir =>
      filenames <- listdir fs curdir ;;
      Ok (if nonempty filenames
          then Some (path_join curdir [last_item (sorted filenames)])
          else None)
  end.

Definition resolve_latest_spec (fs : filesystem) (db : Database) (key : string)
  : res (option string) :=
  match resolve_latest_spec_body fs db key with
  | Raise (FileNotFoundError _) => Ok None
  | r => r
  end.

End Database.

Definition demo_db : Database.Database := {| Database.directory := "/db" |}.

Definition demo_fs : filesystem :=
  mkfs [ ("/db/VTI", Dir ["2020"; "2019"]);
         ("/db/VTI/2019", Dir ["03"]);
         ("/db/VTI/2019/03", Dir ["07"]);
         ("/db/VTI/2019/03/07", Dir ["b.csv"; "a.csv"]);
         ("/db/VTI/2019/03/07/a.csv", File);
         ("/db/VTI/2019/03/07/b.csv", File);
         ("/db/VTI/2020", Dir ["01"]);
         ("/db/VTI/2020/01", Dir ["15"]);
         ("/db/VTI/2020/01/15", Dir ["h.csv"]);
         ("/db/VTI/2020/01/15/h.csv", File) ].


(* ================================================================== *)
(** ** Numbers

    [portfolio.py] computes with Python [float]s.  Its functions are written
    once over the operations they use, and read at two instances: binary64,
    which is what the program runs on, and exact rationals, which is what
    the specification's "real number" columns describe. *)

Class Number (num : Type) : Type := {
  n_zero : num;                      (* the start value of [sum] *)
  n_one : num;                       (* the literals [1.] and [1.0] *)
  n_lo : num;                        (* the literal [0.98] *)
  n_hi : num;                        (* the literal [1.02] *)
  n_tail : num;                      (* the literal [0.90] *)
  n_add : num -> num -> num;
  n_mul : num -> num -> num;
  n_div : num -> num -> res num;     (* [/] raises on a zero divisor *)
  n_lt : num -> num -> bool;
  n_truthy : num -> bool             (* [if x:] on a number *)
}.

#[export] Instance float_Number : Number float := {
  n_zero := 0%float;
  n_one := 1%float;
  n_lo := 0.98%float;
  n_hi := 1.02%float;
  n_tail := 0.90%float;
  n_add := PrimFloat.add;
  n_mul := PrimFloat.mul;
  n_div := fun x y =>
    if PrimFloat.eqb y 0%float then Raise ZeroDivisionError
    else Ok (PrimFloat.div x y);
  n_lt := PrimFloat.ltb;
  n_truthy := fun x => negb (PrimFloat.eqb x 0%float)
}.

#[export] Instance Q_Number : Number Q := {
  n_zero := 0%Q;
  n_one := 1%Q;
  n_lo := (98 # 100)%Q;
  n_hi := (102 # 100)%Q;
  n_tail := (90 # 100)%Q;
  n_add := Qplus;
  n_mul := Qmult;
  n_div := fun x y =>
    if Qeq_bool y 0%Q then Raise ZeroDivisionError else Ok (Qdiv x y);
  n_lt := fun x y => negb (Qle_bool y x);
  n_truthy := fun x => negb (Qeq_bool x 0%Q)
}.

(** [sum(xs)] as CPython before 3.12 computes it: the additions from left
    to right, starting at zero.  From 3.12 on [sum] carries a compensation
    term over floats, and its total can differ from this one in the last
    places, which decides the tolerance test and the scale of
    [normalize_holdings_table] at boundary totals.  Over exact numbers the
    two agree.  What is proved of [normalize_holdings_table] for every
    version is stated over [normalize_holdings_table_with], which takes
    the summation as an argument. *)
Definition n_sum {num} `{Number num} (xs : list num) : num :=
  fold_left n_add xs n_zero.

(* ================================================================== *)
(** ** Tables *)

Module Table.

Local Open Scope res_scope.

Section WithNumber.
Context {num : Type}.

(** A cell of a table.  Numeric columns hold numbers; integers occur only
    as the row index that the grouping step writes into its [group]
    column. *)
Inductive value : Type :=
| VStr (s : string)
| VNum (x : num)
| VInt (n : nat).

(** Modelled from the spec: the [Table] class of [baskets/table.py], which is
    not among the sources: an ordered-rows, named-columns container.  A row
    is the tuple of its cells in column order.  The list of column types
    given to the constructor plays no part in the operations used here and
    is left out. *)
Record Table : Type := {
  columns : list string;
  rows : list (list value)
}.

(** Every row has one cell per column, as the rows of a [Table] do. *)
Definition wf_table (t : Table) : Prop :=
  Forall (fun row => List.length row = List.length (columns t)) (rows t).

Definition mem (c : string) (cols : list string) : bool :=
  existsb (String.eqb c) cols.

Fixpoint index_of (c : string) (cols : list string) : option nat :=
  match cols with
  | [] => None
  | c' :: cols' =>
      if String.eqb c c' then Some O else option_map S (index_of c cols')
  end.

Definition cell (row : list value) (i : nat) : res value :=
  match nth_error row i with
  | Some v => Ok v
  | None => Raise IndexError
  end.

(** [row.name] on a row of a table with columns [cols]. *)
Definition getattr (cols : list string) (row : list value) (name : string)
  : res value :=
  match index_of name cols with
  | Some i => cell row i
  | None => Raise (AttributeError name)
  end.

(** Modelled from the spec: [Table.values(column)], the cells of one column
    from the first row to the last. *)
Definition values (t : Table) (column : string) : res (list value) :=
  match index_of column (columns t) with
  | Some i => res_map (fun row => cell row i) (rows t)
  | None => Raise (KeyError column)
  end.

Fixpoint set_nth (row : list value) (i : nat) (v : value) : list value :=
  match row, i with
  | [], _ => []
  | _ :: row', O => v :: row'
  | w :: row', S i' => w :: set_nth row' i' v
  end.

(** Modelled from the spec: [Table.map(column, mapper)], the per-column
    transform: the mapper applied to that column's cell of every row. *)
Definition map (t : Table) (column : string) (mapper : value -> res value)
  : res Table :=
  match index_of column (columns t) with
  | Some i =>
      rows' <- res_map (fun row => v <- cell row i ;;
                                   w <- mapper v ;;
                                   Ok (set_nth row i w)) (rows t) ;;
      Ok {| columns := columns t; rows := rows' |}
  | None => Raise (KeyError column)
  end.

(** Modelled from the spec: [Table.create(column, creator)], column addition
    with a derivation rule: the new column comes last and each row gets the
    creator's value for that row. *)
Definition create (t : Table) (column : string)
  (creator : list string -> list value -> res value) : res Table :=
  rows' <- res_map (fun row => v <- creator (columns t) row ;;
                               Ok (row ++ [v])) (rows t) ;;
  Ok {| columns := columns t ++ [column]; rows := rows' |}.

(** Modelled from the spec: [Table.select(columns)], the projection on the
    given columns in the given order. *)
Definition select (t : Table) (cols : list string) : res Table :=
  idx <- res_map (fun c => match index_of c (columns t) with
                           | Some i => Ok i
                           | None => Raise (KeyError c)
                           end) cols ;;
  rows' <- res_map (fun row => res_map (cell row) idx) (rows t) ;;
  Ok {| columns := cols; rows := rows' |}.

Fixpoint drop_cells {A} (gone : list string) (cols : list string) (xs : list A)
  : list A :=
  match cols, xs with
  | c :: cols', x :: xs' =>
      if mem c gone then drop_cells gone cols' xs'
      else x :: drop_cells gone cols' xs'
  | _, _ => []
  end.

(** Modelled from the spec: [Table.delete(columns)], column removal. *)
Definition delete (t : Table) (gone : list string) : Table :=
  {| columns := List.filter (fun c => negb (mem c gone)) (columns t);
     rows := List.map (drop_cells gone (columns t)) (rows t) |}.

Fixpoint res_filter {A} (p : A -> res bool) (xs : list A) : res (list A) :=
  match xs with
  | [] => Ok []
  | x :: xs' =>
      b <- p x ;;
      ys <- res_filter p xs' ;;
      Ok (if b then x :: ys else ys)
  end.

(** Modelled from the spec: [Table.filter(predicate)], row filtering. *)
Definition filter (t : Table) (p : list string -> list value -> res bool)
  : res Table :=
  rows' <- res_filter (p (columns t)) (rows t) ;;
  Ok {| columns := columns t; rows := rows' |}.

(** Modelled from the spec: [table.concat], the concatenation of
    same-shaped tables: the columns of the first, the rows of all, in
    order. *)
Definition concat (ts : list Table) : Table :=
  {| columns := match ts with [] => [] | t :: _ => columns t end;
     rows := List.concat (List.map rows ts) |}.

(** Modelled from the spec: [Table.array(column)], a numeric column as an
    array of numbers. *)
Definition array (t : Table) (column : string) : res (list num) :=
  vs <- values t column ;;
  res_map (fun v => match v with VNum x => Ok x | _ => Raise TypeError end) vs.

(** Modelled from the spec: [Table.head(n)], the first [n] rows. *)
Definition head (t : Table) (n : nat) : Table :=
  {| columns := columns t; rows := firstn n (rows t) |}.

End WithNumber.
Arguments value : clear implicits.
Arguments Table : clear implicits.

End Table.

(* ================================================================== *)
(** ** Logging and output *)

Section Events.
Context {num : Type}.

Inductive logtext : Type :=
| Text (s : string)
| TextNum (format : string) (x : num).   (* a format with one number *)

Inductive event : Type :=
| LogError (text : logtext)
| LogInfo (text : logtext)
| WriteCsv (path : string) (t : Table.Table num)
| Print (t : Table.Table num).

(** A computation that logs, writes and prints, and may raise: what was
    emitted up to the result or the exception, and that outcome. *)
Definition M (A : Type) : Type := (list event * res A)%type.

Definition ret {A} (a : A) : M A := ([], Ok a).

Definition bind {A B} (m : M A) (k : A -> M B) : M B :=
  match m with
  | (out, Ok a) => let (out', r) := k a in (out ++ out', r)
  | (out, Raise e) => (out, Raise e)
  end.

Definition emit (e : event) : M unit := ([e], Ok tt).

Definition lift {A} (r : res A) : M A := ([], r).

Definition raise {A} (e : exn) : M A := ([], Raise e).

Definition output {A} (m : M A) : list event := fst m.

Definition outcome {A} (m : M A) : res A := snd m.

End Events.
Arguments logtext : clear implicits.
Arguments event : clear implicits.
Arguments M : clear implicits.

Declare Scope M_scope.
Delimit Scope M_scope with M.
Notation "x <- m ;; k" := (bind m (fun x => k))
  (at level 61, m at next level, right associativity) : M_scope.

(* ================================================================== *)
(** ** portfolio.py *)

Module Portfolio.

Import Table.

Section WithNumber.
Context {num : Type} `{Number num}.

Local Abbreviation Table := (Table.Table num) (only parsing).
Local Abbreviation value := (Table.value num) (only parsing).

Definition assert (b : bool) (message : string) : res unit :=
  if b then Ok tt else Raise (AssertionError message).

(** [x * y] on two cells. *)
Definition py_mul (x y : value) : res value :=
  match x, y with
  | VNum a, VNum b => Ok (VNum (n_mul a b))
  | _, _ => Raise TypeError
  end.

(** [row.fraction for row in tbl], as the numbers [sum] adds up. *)
Definition fractions (tbl : Table) : res (list num) :=
  res_map (fun row =>
             res_bind (getattr (columns tbl) row "fraction")
                      (fun v => match v with
                                | VNum x => Ok x
                                | _ => Raise TypeError
                                end)) (rows tbl).

(** [not 0.98 < total < 1.02]. *)
Definition weight_invalid (total : num) : bool :=
  negb (n_lt n_lo total && n_lt total n_hi).

(** The body of [normalize_holdings_table] over the builtin [sum] of the
    interpreter that runs it. *)
Definition normalize_holdings_table_with (sum : list num -> num) (tbl : Table)
  : M num Table :=
  (fs <- lift (fractions tbl) ;;
   let total := sum fs in
   _ <- (if weight_invalid total
         then emit (LogError (TextNum "Total weight seems invalid: %s" total))
         else ret tt) ;;
   scale <- lift (n_div n_one total) ;;
   lift (Table.map tbl "fraction" (fun f => py_mul f (VNum scale))))%M.

Definition normalize_holdings_table (tbl : Table) : M num Table :=
  normalize_holdings_table_with n_sum tbl.

Definition ASSTYPES : list string := ["Equity"; "FixedIncome"; "ShortTerm"].
Definition IDCOLUMNS : list string := ["name"; "ticker"; "sedol"; "isin"; "cusip"].
Definition COLUMNS : list string :=
  ["etf"; "account"; "fraction"; "asstype"] ++ IDCOLUMNS.

(** [cls in ASSTYPES]. *)
Definition in_ASSTYPES (cls : value) : bool :=
  match cls with
  | VStr s => mem s ASSTYPES
  | _ => false
  end.

(** ['-' in values]. *)
Definition has_dash (vs : list value) : bool :=
  existsb (fun v => match v with
                    | VStr s => String.eqb "-" s
                    | _ => false
                    end) vs.

(** The [for column in IDCOLUMNS] loop of [check_holdings]. *)
Fixpoint check_dashes (holdings : Table) (cols : list string) : res unit :=
  match cols with
  | [] => Ok tt
  | column :: cols' =>
      if negb (mem column (columns holdings)) then check_dashes holdings cols'
      else
        (vs <- values holdings column ;;
         if has_dash vs
         then Raise (ValueError ("Invalid value '-' in column '" ++ column ++ "'"))
         else check_dashes holdings cols')%res
  end.

Definition check_holdings (holdings : Table) : res unit :=
  (let actual := columns holdings in
   let allowed := ["asstype"; "fraction"] ++ IDCOLUMNS in
   let other := List.filter (fun c => negb (mem c allowed)) actual in
   _ <- assert (negb (nonempty other)) "Extra columns found" ;;
   let required := ["asstype"; "fraction"] in
   _ <- assert (forallb (fun c => mem c actual) required)
               "Required columns missing" ;;
   _ <- assert (existsb (fun c => mem c actual) IDCOLUMNS)
               "No ids columns found" ;;
   classes <- values holdings "asstype" ;;
   _ <- assert (forallb in_ASSTYPES classes) "" ;;
   check_dashes holdings IDCOLUMNS)%res.

(** The [for column in IDCOLUMNS] loop of [add_missing_columns]. *)
Fixpoint add_columns (tbl : Table) (cols : list string) : res Table :=
  match cols with
  | [] => Ok tbl
  | column :: cols' =>
      if negb (mem column (columns tbl))
      then (tbl' <- create tbl column (fun _ _ => Ok (VStr "")) ;;
            add_columns tbl' cols')%res
      else add_columns tbl cols'
  end.

Definition add_missing_columns (tbl : Table) : res Table :=
  add_columns tbl IDCOLUMNS.

(** The parsed command line. *)
Record Args : Type := {
  portfolio : string;
  dbdir : string;
  ignore_missing_issuer : bool;
  ignore_options : bool;
  ignore_shorts : bool;
  threshold : num;
  full_table : option string;
  agg_table : option string;
  debug_output : option string
}.

(** A row of the assets table read from the portfolio file. *)
Record Position : Type := {
  issuer : string;
  ticker : string;
  account : string;
  quantity : num;
  price : num
}.

(** An entry of the issuer registry; [parse] is absent when the issuer's
    module has no parser ([hasattr(downloader, 'parse')]). *)
Record Downloader : Type := {
  parse : option (string -> res Table)
}.

(** [(row.issuer, row.ticker) <= (row'.issuer, row'.ticker)] on tuples. *)
Definition order_key_leb (a b : Position) : bool :=
  match String.compare (issuer a) (issuer b) with
  | Lt => true
  | Eq => String.leb (ticker a) (ticker b)
  | Gt => false
  end.

Fixpoint insert_position (x : Position) (l : list Position) : list Position :=
  match l with
  | [] => [x]
  | y :: l' => if order_key_leb x y then x :: l else y :: insert_position x l'
  end.

(** [assets.order(lambda row: (row.issuer, row.ticker))], a stable sort. *)
Fixpoint order (assets : list Position) : list Position :=
  match assets with
  | [] => []
  | x :: l' => insert_position x (order l')
  end.

Section Run.
Variable registry : string -> option Downloader.        (* [issuers.get] *)
Variable group : Table -> option string -> res (Table * Table).  (* [graph.group] *)
(* [numpy.sum] on the array of a column.  numpy adds a float64 array of
   eight or more elements pairwise, in blocks, and a shorter one from left
   to right, so its total is not in general the last running total of
   [numpy.cumsum]; the report is written over whatever total it returns. *)
Variable numpy_sum : list num -> num.
(* [open(path, 'w')] and the writing of the file: the exception raised, if
   any. *)
Variable open_w : string -> res unit.
Variable fs : filesystem.
Variable args : Args.

Local Open Scope M_scope.

Definition direct_holdings (row : Position) : Table :=
  {| columns := ["fraction"; "asstype"; "ticker"];
     rows := [[VNum n_one; VStr "Equity"; VStr (ticker row)]] |}.

(** Lines 110 to 136 of [main]: the holdings of one position, or [None]
    where the loop body ends in [continue]. *)
Definition holdings_of (row : Position) : M num (option Table) :=
  if str_empty (issuer row) then ret (Some (direct_holdings row))
  else
    match registry (issuer row) with
    | None =>
        let message := ("Missing issuer: " ++ issuer row)%string in
        if ignore_missing_issuer args
        then _ <- emit (LogError (Text message)) ;; ret None
        else raise (SystemExit message)
    | Some downloader =>
        filename <- lift (Database.getlatest fs
                            {| Database.directory := dbdir args |} (ticker row)) ;;
        match filename with
        | None =>
            _ <- emit (LogError (Text ("Missing file for " ++ ticker row))) ;;
            ret None
        | Some filename =>
            _ <- emit (LogInfo (Text ("Parsing file '" ++ filename ++ "' with '"
                                        ++ issuer row ++ "'"))) ;;
            match parse downloader with
            | None =>
                _ <- emit (LogError (Text ("Parser for " ++ ticker row
                                             ++ " is not implemented"))) ;;
                ret None
            | Some parse =>
                holdings <- lift (parse filename) ;;
                _ <- lift (check_holdings holdings) ;;
                ret (Some holdings)
            end
        end
    end.

(** Lines 138 to 148: parent columns, canonical column order, amounts. *)
Definition to_amounts (row : Position) (holdings : Table) : res Table :=
  (holdings <- add_missing_columns holdings ;;
   holdings <- create holdings "etf" (fun _ _ => Ok (VStr (ticker row))) ;;
   holdings <- create holdings "account" (fun _ _ => Ok (VStr (account row))) ;;
   holdings <- select holdings COLUMNS ;;
   let dollar_amount := n_mul (quantity row) (price row) in
   holdings <- create holdings "amount"
                 (fun cols r => f <- getattr cols r "fraction" ;;
                                py_mul f (VNum dollar_amount)) ;;
   Ok (delete holdings ["fraction"]))%res.

(** One iteration of [for row in assets]: the table appended to
    [alltables], if any. *)
Definition position_table (row : Position) : M num (option Table) :=
  if n_lt (quantity row) n_zero && ignore_shorts args then ret None
  else
    h <- holdings_of row ;;
    match h with
    | None => ret None
    | Some holdings =>
        t <- lift (to_amounts row holdings) ;;
        ret (Some t)
    end.

Fixpoint collect (assets : list Position) (alltables : list Table)
  : M num (list Table) :=
  match assets with
  | [] => ret alltables
  | row :: rest =>
      t <- position_table row ;;
      collect rest (match t with
                    | Some holdings => alltables ++ [holdings]
                    | None => alltables
                    end)
  end.

(** Lines 104 to 151: the combined table of all positions. *)
Definition fulltable_of (assets : list Position) : M num Table :=
  alltables <- collect (order assets) [] ;;
  ret (concat alltables).

(** [lambda row: aggtable.rows[row.group].amount > args.threshold]. *)
Definition above_threshold (aggtable : Table)
  (cols : list string) (r : list value) : res bool :=
  (g <- getattr cols r "group" ;;
   match g with
   | VInt n =>
       match nth_error (rows aggtable) n with
       | Some arow =>
           a <- getattr (columns aggtable) arow "amount" ;;
           match a with
           | VNum x => Ok (n_lt (threshold args) x)
           | _ => Raise TypeError
           end
       | None => Raise IndexError
       end
   | _ => Raise TypeError
   end)%res.

(** A local variable read: unbound when no assignment to it was executed. *)
Definition read_local {A} (name : string) (v : option A) : res A :=
  match v with
  | Some a => Ok a
  | None => Raise (UnboundLocalError name)
  end.

(** [numpy.cumsum]: the running totals, from left to right. *)
Fixpoint cumsum (acc : num) (xs : list num) : list num :=
  match xs with
  | [] => []
  | x :: xs' => n_add acc x :: cumsum (n_add acc x) xs'
  end.

(** [if path: with open(path, 'w') as outfile: table.write_csv(tbl, outfile)]
    on an option of the command line: nothing is opened for an option that
    was not given, nor for one given as the empty string. *)
Definition write_table (path : option string) (tbl : Table) : M num unit :=
  match path with
  | Some p =>
      if str_empty p then ret tt
      else _ <- lift (open_w p) ;; emit (WriteCsv p tbl)
  | None => ret tt
  end.

(** Lines 153 to 180: aggregation, threshold and report. *)
Definition report (fulltable : Table) : M num unit :=
  p <- lift (group fulltable (debug_output args)) ;;
  let (aggtable, annotable) := (p : Table * Table) in
  _ <- write_table (agg_table args) aggtable ;;
  filt_annotable <-
    (if n_truthy (threshold args)
     then t <- lift (Table.filter annotable (above_threshold aggtable)) ;;
          ret (Some t)
     else ret None) ;;
  full_amounts <- lift (array fulltable "amount") ;;
  _ <- emit (LogInfo (TextNum "Total amount from full holdings table: {:.2f}"
                              (numpy_sum full_amounts))) ;;
  filt <- lift (read_local "filt_annotable" filt_annotable) ;;
  filt_amounts <- lift (array filt "amount") ;;
  _ <- emit (LogInfo (TextNum "Total amount from annotated holdings table: {:.2f}"
                              (numpy_sum filt_amounts))) ;;
  _ <- write_table (full_table args) filt ;;
  let tail := n_tail in
  amount <- lift (array aggtable "amount") ;;
  let total_amount := numpy_sum amount in
  _ <- emit (LogInfo (TextNum "Total: {:.2f}" total_amount)) ;;
  let cum_amount := cumsum n_zero amount in
  let headsize :=
    List.length (List.filter (fun c => n_lt c (n_mul total_amount tail))
                             cum_amount) in
  emit (Print (head aggtable headsize)).

(** [main], from the assets read from the portfolio file on. *)
Definition main (assets : list Position) : M num unit :=
  fulltable <- fulltable_of assets ;;
  report fulltable.

End Run.
End WithNumber.

End Portfolio.

(* ================================================================== *)
(** ** Vocabulary of the properties *)

(** [m] is a lexicographically greatest element of [l]. *)
Definition greatest (m : string) (l : list string) : Prop :=
  In m l /\ forall x, In x l -> String.leb x m = true.

(** A list of names in lexicographic order. *)
Definition ascending : list string -> Prop :=
  StronglySorted (fun a b => String.leb a b = true).

(** A store root and a key that [posixpath.join] puts together with one
    separator: neither is empty, the root does not end with a separator and
    the key is a single relative component. *)
Definition plain_component (s : string) : Prop :=
  str_empty s = false /\ startswith_sep s = false /\ endswith_sep s = false.

(** Every directory listing comes back in lexicographic order. *)
Definition listings_ascending (fs : filesystem) : Prop :=
  forall p entries, fs p = Some (Dir entries) -> ascending entries.

Section TableVocabulary.
Context {num : Type} `{Number num}.

Import Table Portfolio.

(** The columns of [cs] that a table with columns [cols] does not have. *)
Definition absent (cols cs : list string) : list string :=
  List.filter (fun c => negb (mem c cols)) cs.

Definition blanks (n : nat) : list (value num) := repeat (VStr "") n.

(** The cells of one column, top to bottom. *)
Definition column_cells (t : Table num) (c : string) : list (value num) :=
  match index_of c (columns t) with
  | Some i =>
      flat_map (fun row => match nth_error row i with
                           | Some v => [v]
                           | None => []
                           end) (rows t)
  | None => []
  end.

(** The conditions under which a holdings table is rejected. *)
Definition extra_column (t : Table num) : Prop :=
  exists c, In c (columns t) /\ ~ In c (["asstype"; "fraction"] ++ IDCOLUMNS).

Definition required_missing (t : Table num) : Prop :=
  ~ In "asstype" (columns t) \/ ~ In "fraction" (columns t).

Definition no_id_column (t : Table num) : Prop :=
  forall c, In c IDCOLUMNS -> ~ In c (columns t).

Definition bad_asstype (t : Table num) : Prop :=
  exists v, In v (column_cells t "asstype")
            /\ forall s, In s ASSTYPES -> v <> VStr s.

Definition dash_in_id (t : Table num) : Prop :=
  exists c, In c IDCOLUMNS /\ In c (columns t)
            /\ In (VStr "-") (column_cells t c).

(** The number in the cell of column [i], as [sum] reads it. *)
Definition number_at (i : nat) (row : list (value num)) : res num :=
  res_bind (cell row i)
           (fun v => match v with VNum x => Ok x | _ => Raise TypeError end).

(** The cell of column [c] in a row, or the empty string the pipeline
    fills in where the table has no such column. *)
Definition field (cols : list string) (r : list (value num)) (c : string)
  : value num :=
  match getattr cols r c with
  | Ok v => v
  | Raise _ => VStr ""
  end.

(** The fraction of a row, as a number. *)
Definition fraction_of (cols : list string) (r : list (value num)) : num :=
  match getattr cols r "fraction" with
  | Ok (VNum x) => x
  | _ => n_zero
  end.

(** The columns of the table of one position. *)
Definition canonical_columns : list string :=
  ["etf"; "account"; "asstype"; "name"; "ticker"; "sedol"; "isin"; "cusip";
   "amount"].

(** The row of the combined table made from one row of a holdings table
    with columns [cols], for a position worth [dollar_amount]. *)
Definition canonical_row (etf account : string) (dollar_amount : num)
  (cols : list string) (r : list (value num)) : list (value num) :=
  [VStr etf; VStr account; field cols r "asstype";
   field cols r "name"; field cols r "ticker"; field cols r "sedol";
   field cols r "isin"; field cols r "cusip";
   VNum (n_mul (fraction_of cols r) dollar_amount)].

End TableVocabulary.

(* ================================================================== *)
(** ** Example inputs *)

Definition demo_date : Database.date :=
  {| Database.year := 2019; Database.month := 3; Database.day := 7 |}.

(** A disclosure whose fractions are 0.3, 0.3 and 0.3. *)
Definition disclosed_holdings : Table.Table float :=
  {| Table.columns := ["fraction"; "asstype"; "ticker"];
     Table.rows := [ [Table.VNum 0.3%float; Table.VStr "Equity"; Table.VStr "AAA"];
                     [Table.VNum 0.3%float; Table.VStr "Equity"; Table.VStr "BBB"];
                     [Table.VNum 0.3%float; Table.VStr "FixedIncome"; Table.VStr "CCC"] ] |}.

(** A disclosure whose fractions are 1/2, 1/4 and 1/4, over exact
    rationals. *)
Definition exact_holdings_Q : Table.Table Q :=
  {| Table.columns := ["fraction"; "asstype"; "ticker"];
     Table.rows := [ [Table.VNum (1 # 2)%Q; Table.VStr "Equity"; Table.VStr "AAA"];
                     [Table.VNum (1 # 4)%Q; Table.VStr "Equity"; Table.VStr "BBB"];
                     [Table.VNum (1 # 4)%Q; Table.VStr "ShortTerm"; Table.VStr "CCC"] ] |}.

(** One holding whose fraction is the smallest positive binary64 number,
    which Python writes [5e-324]. *)
Definition tiny_holdings : Table.Table float :=
  {| Table.columns := ["fraction"; "asstype"; "ticker"];
     Table.rows := [ [Table.VNum 0x1p-1074%float; Table.VStr "Equity";
                      Table.VStr "AAA"] ] |}.

(** A table with no rows. *)
Definition empty_holdings : Table.Table float :=
  {| Table.columns := ["fraction"; "asstype"; "ticker"]; Table.rows := [] |}.

(** A table with a column that is neither required nor an identifier. *)
Definition extra_holdings : Table.Table float :=
  {| Table.columns := ["fraction"; "asstype"; "ticker"; "weight"];
     Table.rows := [ [Table.VNum 1%float; Table.VStr "Equity"; Table.VStr "AAA";
                      Table.VNum 0.5%float] ] |}.

(** A table with the value "-" in its cusip column. *)
Definition dash_holdings : Table.Table float :=
  {| Table.columns := ["fraction"; "asstype"; "ticker"; "cusip"];
     Table.rows := [ [Table.VNum 1%float; Table.VStr "Equity"; Table.VStr "AAA";
                      Table.VStr "-"] ] |}.

(** A registry with one issuer, whose parser returns the disclosure above. *)
Definition demo_registry (issuer : string)
  : option (Portfolio.Downloader (num := float)) :=
  if String.eqb issuer "Vanguard"
  then Some {| Portfolio.parse := Some (fun _ => Ok disclosed_holdings) |}
  else None.

(** A grouping step that puts every row in the group of the first
    aggregate row. *)
Definition demo_group (t : Table.Table float) (_ : option string)
  : res (Table.Table float * Table.Table float) :=
  match Table.create t "group" (fun _ _ => Ok (Table.VInt 0)) with
  | Ok annotated => Ok (t, annotated)
  | Raise e => Raise e
  end.

(** Every path can be opened and written. *)
Definition writable (_ : string) : res unit := Ok tt.

(** The command line with no option given. *)
Definition default_args : Portfolio.Args (num := float) :=
  {| Portfolio.portfolio := "portfolio.csv";
     Portfolio.dbdir := "/db";
     Portfolio.ignore_missing_issuer := false;
     Portfolio.ignore_options := false;
     Portfolio.ignore_shorts := false;
     Portfolio.threshold := 0%float;
     Portfolio.full_table := None;
     Portfolio.agg_table := None;
     Portfolio.debug_output := None |}.

(** The command line [--ignore-missing-issuer]. *)
Definition lenient_args : Portfolio.Args (num := float) :=
  {| Portfolio.portfolio := "portfolio.csv";
     Portfolio.dbdir := "/db";
     Portfolio.ignore_missing_issuer := true;
     Portfolio.ignore_options := false;
     Portfolio.ignore_shorts := false;
     Portfolio.threshold := 0%float;
     Portfolio.full_table := None;
     Portfolio.agg_table := None;
     Portfolio.debug_output := None |}.

(** A directly held security: no issuer, 100 units at 10.0. *)
Definition direct_position (account : string) : Portfolio.Position (num := float) :=
  {| Portfolio.issuer := "";
     Portfolio.ticker := "XYZ";
     Portfolio.account := account;
     Portfolio.quantity := 100%float;
     Portfolio.price := 10.0%float |}.

(** A fund of the registered issuer, one unit at 1.0. *)
Definition fund_position : Portfolio.Position (num := float) :=
  {| Portfolio.issuer := "Vanguard";
     Portfolio.ticker := "VTI";
     Portfolio.account := "Assets:Broker";
     Portfolio.quantity := 1%float;
     Portfolio.price := 1%float |}.

(** A fund of the registered issuer for which nothing was downloaded. *)
Definition absent_position : Portfolio.Position (num := float) :=
  {| Portfolio.issuer := "Vanguard";
     Portfolio.ticker := "VXUS";
     Portfolio.account := "Assets:Broker";
     Portfolio.quantity := 2%float;
     Portfolio.price := 50%float |}.

(** A registry whose parser returns the table with "-" in its cusip
    column. *)
Definition dash_registry (issuer : string)
  : option (Portfolio.Downloader (num := float)) :=
  if String.eqb issuer "Vanguard"
  then Some {| Portfolio.parse := Some (fun _ => Ok dash_holdings) |}
  else None.

(** A fund of an issuer the registry does not know. *)
Definition unknown_position : Portfolio.Position (num := float) :=
  {| Portfolio.issuer := "Acme";
     Portfolio.ticker := "ACM";
     Portfolio.account := "Assets:Broker";
     Portfolio.quantity := 5%float;
     Portfolio.price := 20%float |}.


(* ================================================================== *)
(** ** Further vocabulary and example inputs *)


(** A date whose fields fit the four, two and two digits they are printed
    with, as those of a [datetime.date] do. *)
Definition printable_date (d : Database.date) : Prop :=
  Database.year d < 100 * 100 /\ Database.month d < 100 /\ Database.day d < 100.

(** A store whose listings come back in lexicographic order. *)
Definition sorted_fs : filesystem :=
  mkfs [ ("/db/VTI", Dir ["2019"; "2020"]);
         ("/db/VTI/2019", Dir ["03"]);
         ("/db/VTI/2019/03", Dir ["07"]);
         ("/db/VTI/2019/03/07", Dir ["a.csv"; "b.csv"]);
         ("/db/VTI/2019/03/07/a.csv", File);
         ("/db/VTI/2019/03/07/b.csv", File);
         ("/db/VTI/2020", Dir ["01"]);
         ("/db/VTI/2020/01", Dir ["15"]);
         ("/db/VTI/2020/01/15", Dir ["h.csv"]);
         ("/db/VTI/2020/01/15/h.csv", File) ].

(** A store in which a regular file stands where the day directory of
    2019-03-07 is expected. *)
Definition blocked_fs : filesystem :=
  mkfs [ ("/db/VTI", Dir ["2019"]);
         ("/db/VTI/2019", Dir ["03"]);
         ("/db/VTI/2019/03", Dir ["07"]);
         ("/db/VTI/2019/03/07", File) ].

Definition later_date : Database.date :=
  {| Database.year := 2020; Database.month := 1; Database.day := 15 |}.

Section PositionVocabulary.
Context {num : Type} `{Number num}.

(** [row.quantity < 0]. *)
Definition is_short (row : Portfolio.Position (num := num)) : bool :=
  n_lt (Portfolio.quantity row) n_zero.

(** No two positions of the list have the same issuer and ticker. *)
Definition distinct_keys (assets : list (Portfolio.Position (num := num)))
  : Prop :=
  forall a b, In a assets -> In b assets ->
              Portfolio.issuer a = Portfolio.issuer b ->
              Portfolio.ticker a = Portfolio.ticker b -> a = b.

(** A table with the nine columns of the combined table, in their order,
    and nine cells in every row. *)
Definition canonical_shape (t : Table.Table num) : Prop :=
  Table.columns t = canonical_columns
  /\ Forall (fun r => List.length r = 9) (Table.rows t).

(** The record of a table written to the path of an option: none for an
    option that was not given or was given as the empty string. *)
Definition written (path : option string) (t : Table.Table num)
  : list (event num) :=
  match path with
  | Some p => if str_empty p then [] else [WriteCsv p t]
  | None => []
  end.

(** The file of an option, where one is asked for, can be opened and
    written. *)
Definition opens (open_w : string -> res unit) (path : option string) : Prop :=
  forall p, path = Some p -> str_empty p = false -> open_w p = Ok tt.

(** The [group] cell of every row of an annotated table, as the index it
    holds. *)
Definition group_indices (t : Table.Table num) : res (list nat) :=
  res_map (fun r => res_bind (Table.getattr (Table.columns t) r "group")
                      (fun v => match v with
                                | Table.VInt g => Ok g
                                | _ => Raise TypeError
                                end)) (Table.rows t).

(** Of a list that runs along the annotated rows, the elements at the rows
    whose group has an aggregate amount above the threshold. *)
Definition kept {A} (threshold : num) (amount : list num) (groups : list nat)
  (xs : list A) : list A :=
  List.map snd
    (List.filter (fun gx => n_lt threshold (nth (fst gx) amount n_zero))
                 (combine groups xs)).

(** The number of rows that the report prints: that of the running totals
    below the tail share of the total. *)
Definition headsize_of (total : num) (amount : list num) : nat :=
  List.length (List.filter (fun c => n_lt c (n_mul total n_tail))
                           (Portfolio.cumsum n_zero amount)).

Fixpoint number_rows (i : nat) (rows : list (list (Table.value num)))
  : list (list (Table.value num)) :=
  match rows with
  | [] => []
  | r :: rows' => (r ++ [Table.VInt i]) :: number_rows (S i) rows'
  end.

(** A grouping step that aggregates nothing: every row is a group of its
    own. *)
Definition rowwise_group (t : Table.Table num) (_ : option string)
  : res (Table.Table num * Table.Table num) :=
  Ok (t, {| Table.columns := Table.columns t ++ ["group"];
            Table.rows := number_rows 0 (Table.rows t) |}).

(** Positions in the order in which [main] processes them. *)
Definition in_order : list (Portfolio.Position (num := num)) -> Prop :=
  StronglySorted (fun a b => Portfolio.order_key_leb a b = true).

End PositionVocabulary.

(** The command line [--ignore-shorts --threshold 60]. *)
Definition shorts_args : Portfolio.Args (num := float) :=
  {| Portfolio.portfolio := "portfolio.csv";
     Portfolio.dbdir := "/db";
     Portfolio.ignore_missing_issuer := false;
     Portfolio.ignore_options := false;
     Portfolio.ignore_shorts := true;
     Portfolio.threshold := 60%float;
     Portfolio.full_table := Some "full.csv";
     Portfolio.agg_table := None;
     Portfolio.debug_output := None |}.

(** A short position in a fund of an issuer the registry does not know. *)
Definition short_position : Portfolio.Position (num := float) :=
  {| Portfolio.issuer := "Acme";
     Portfolio.ticker := "ACM";
     Portfolio.account := "Assets:Broker";
     Portfolio.quantity := (-5)%float;
     Portfolio.price := 20%float |}.

(** A combined table of three rows worth 500, 50 and 10. *)
Definition threshold_table : Table.Table float :=
  {| Table.columns := ["ticker"; "amount"];
     Table.rows := [ [Table.VStr "AAA"; Table.VNum 500%float];
                     [Table.VStr "BBB"; Table.VNum 50%float];
                     [Table.VStr "CCC"; Table.VNum 10%float] ] |}.

(** The disclosure with fractions 0.3, 0.3 and 0.3 over exact rationals. *)
Definition disclosed_holdings_Q : Table.Table Q :=
  {| Table.columns := ["fraction"; "asstype"; "ticker"];
     Table.rows := [ [Table.VNum (3 # 10)%Q; Table.VStr "Equity"; Table.VStr "AAA"];
                     [Table.VNum (3 # 10)%Q; Table.VStr "Equity"; Table.VStr "BBB"];
                     [Table.VNum (3 # 10)%Q; Table.VStr "FixedIncome";
                      Table.VStr "CCC"] ] |}.

(** Two holdings of 1e308 each: their binary64 sum is infinite. *)
Definition huge_holdings : Table.Table float :=
  {| Table.columns := ["fraction"; "asstype"; "ticker"];
     Table.rows := [ [Table.VNum 1e308%float; Table.VStr "Equity"; Table.VStr "AAA"];
                     [Table.VNum 1e308%float; Table.VStr "Equity";
                      Table.VStr "BBB"] ] |}.

(** The holdings 2^53, 0.75 and -(2^53 - 3), whose exact sum is 3.75: added
    from left to right in binary64, the first addition rounds 0.75 away and
    the sum comes to 3.0. *)
Definition cancelling_holdings : Table.Table float :=
  {| Table.columns := ["fraction"; "asstype"; "ticker"];
     Table.rows := [ [Table.VNum 9007199254740992%float; Table.VStr "Equity";
                      Table.VStr "AAA"];
                     [Table.VNum 0.75%float; Table.VStr "Equity"; Table.VStr "BBB"];
                     [Table.VNum (-9007199254740989)%float; Table.VStr "Equity";
                      Table.VStr "CCC"] ] |}.

(** A binary64 column adds up, from left to right, to 1.0 within 1e-9. *)
Definition sums_to_one (fs : list float) : bool :=
  PrimFloat.leb (abs (n_sum fs - 1)) 1e-9%float.

(** The registry, the options and a fund position over exact rationals. *)
Definition exact_registry (issuer : string)
  : option (Portfolio.Downloader (num := Q)) :=
  if String.eqb issuer "Vanguard"
  then Some {| Portfolio.parse := Some (fun _ => Ok exact_holdings_Q) |}
  else None.

Definition exact_args : Portfolio.Args (num := Q) :=
  {| Portfolio.portfolio := "portfolio.csv";
     Portfolio.dbdir := "/db";
     Portfolio.ignore_missing_issuer := false;
     Portfolio.ignore_options := false;
     Portfolio.ignore_shorts := false;
     Portfolio.threshold := 0%Q;
     Portfolio.full_table := None;
     Portfolio.agg_table := None;
     Portfolio.debug_output := None |}.

Definition exact_position : Portfolio.Position (num := Q) :=
  {| Portfolio.issuer := "Vanguard";
     Portfolio.ticker := "VTI";
     Portfolio.account := "Assets:Broker";
     Portfolio.quantity := 3%Q;
     Portfolio.price := 100%Q |}.

(* ================================================================== *)
(** ** Binary64 numbers as real numbers *)

(** Two to the power [e]. *)
Definition pow2 (e : Z) : R := powerRZ 2 e.

(** The real number that a binary64 number stands for; zero for the
    infinities and for NaN. *)
Definition SF2R (x : spec_float) : R :=
  match x with
  | S754_finite s m e =>
      ((if s then -1 else 1) * IZR (Zpos m) * pow2 e)%R
  | _ => 0%R
  end.

Definition F2R (x : float) : R := SF2R (Prim2SF x).

(** The unit roundoff of binary64. *)
Local Abbreviation u53 := (pow2 (-53)) (only parsing).

(** A shifted mantissa with its round and sticky bits, read at exponent
    [e], locates the real [v]. *)
Definition rec_at (mrs : shr_record) (e : Z) (v : R) : Prop :=
  let lo := ((IZR (shr_m mrs) + (if shr_r mrs then / 2 else 0)) * pow2 e)%R in
  if shr_s mrs then (lo < v < lo + pow2 e / 2)%R else v = lo.

(** A binary64 number that is zero or positive and finite. *)
Definition nonneg (x : float) : Prop :=
  Prim2SF x = S754_zero false
  \/ exists m e, Prim2SF x = S754_finite false m e.

(** The exact sum of the numbers of a binary64 column. *)
Definition exact_sum (fs : list float) : R :=
  fold_right (fun f a => (F2R f + a)%R) 0%R fs.

(** A positive normal binary64 number between 2^-448 and 2^453: one that
    the format writes with an exponent between -500 and 400, and so with
    a mantissa of 53 bits. *)
Definition well_scaled (f : float) : bool :=
  match Prim2SF f with
  | S754_finite false m e => ((-500 <=? e) && (e <=? 400))%Z
  | _ => false
  end.

(** The total that a summation returns for the column is a positive
    finite number within one part in 2^32 of the exact sum. *)
Definition accurate_total (total : float) (fs : list float) : Prop :=
  (exists m e, Prim2SF total = S754_finite false m e)
  /\ (exact_sum fs * (1 - pow2 (-32)) <= F2R total
      <= exact_sum fs * (1 + pow2 (-32)))%R.
(* ================================================================== *)
(** * Properties *)

(** ** The order on strings and [sorted] *)

Lemma ascii_compare_refl (a : ascii) : Ascii.compare a a = Eq.
Proof. unfold Ascii.compare. apply N.compare_refl. Qed.

Lemma ascii_compare_lt_trans (a b c : ascii) :
  Ascii.compare a b = Lt -> Ascii.compare b c = Lt -> Ascii.compare a c = Lt.
Proof.
  unfold Ascii.compare. rewrite !N.compare_lt_iff. apply N.lt_trans.
Qed.

Lemma string_compare_lt_trans (s1 : string) :
  forall s2 s3, String.compare s1 s2 = Lt -> String.compare s2 s3 = Lt ->
                String.compare s1 s3 = Lt.
Proof.
  induction s1 as [|a s1 IH]; intros [|b s2] [|c s3]; simpl;
    try discriminate; auto.
  destruct (Ascii.compare a b) eqn:Hab; try discriminate;
    destruct (Ascii.compare b c) eqn:Hbc; try discriminate; intros H12 H23.
  - apply Ascii.compare_eq_iff in Hab, Hbc. subst.
    rewrite ascii_compare_refl. eauto.
  - apply Ascii.compare_eq_iff in Hab. subst. now rewrite Hbc.
  - apply Ascii.compare_eq_iff in Hbc. subst. now rewrite Hab.
  - now rewrite (ascii_compare_lt_trans _ _ _ Hab Hbc).
Qed.

Lemma string_leb_refl (s : string) : String.leb s s = true.
Proof.
  destruct (String.leb_total s s); assumption.
Qed.

Lemma string_leb_trans (s1 s2 s3 : string) :
  String.leb s1 s2 = true -> String.leb s2 s3 = true -> String.leb s1 s3 = true.
Proof.
  unfold String.leb.
  destruct (String.compare s1 s2) eqn:H12; try discriminate;
    destruct (String.compare s2 s3) eqn:H23; try discriminate; intros _ _.
  - apply String.compare_eq_iff in H12. subst. now rewrite H23.
  - apply String.compare_eq_iff in H12. subst. now rewrite H23.
  - apply String.compare_eq_iff in H23. subst. now rewrite H12.
  - now rewrite (string_compare_lt_trans _ _ _ H12 H23).
Qed.

Lemma insert_sorted_perm (x : string) (l : list string) :
  Permutation (x :: l) (insert_sorted x l).
Proof.
  induction l as [|y l IH]; simpl; auto.
  destruct (String.leb x y); auto.
  rewrite perm_swap. now constructor.
Qed.

Lemma sorted_perm (l : list string) : Permutation l (sorted l).
Proof.
  induction l as [|x l IH]; simpl; auto.
  rewrite <- insert_sorted_perm. now constructor.
Qed.

Lemma insert_sorted_ascending (x : string) (l : list string) :
  ascending l -> ascending (insert_sorted x l).
Proof.
  unfold ascending. induction 1 as [|y l Hs IH Hy]; simpl.
  - repeat constructor.
  - destruct (String.leb x y) eqn:Hxy.
    + constructor; [now constructor|].
      constructor; auto.
      eapply Forall_impl; [|exact Hy].
      intros z Hz. eapply string_leb_trans; eauto.
    + constructor; auto.
      eapply Permutation_Forall; [apply insert_sorted_perm|].
      constructor; auto.
      destruct (String.leb_total x y); congruence.
Qed.

Lemma sorted_ascending (l : list string) : ascending (sorted l).
Proof.
  induction l; simpl; [constructor | now apply insert_sorted_ascending].
Qed.

Lemma ascending_last_greatest (l : list string) :
  ascending l -> l <> [] -> greatest (last_item l) l.
Proof.
  unfold ascending, last_item.
  induction 1 as [|y l Hs IH Hy]; intros Hne; [congruence|].
  destruct l as [|z l].
  - split; simpl; auto. intros x [<-|[]]. apply string_leb_refl.
  - destruct IH as [Hin Hmax]; [discriminate|].
    change (last (y :: z :: l) "") with (last (z :: l) "").
    split; [now right|].
    intros x [<-|Hx]; auto.
    rewrite Forall_forall in Hy. now apply Hy.
Qed.

(** [sorted(filenames)[-1]] is the lexicographically greatest file name. *)
Lemma last_sorted_greatest (l : list string) :
  l <> [] -> greatest (last_item (sorted l)) l.
Proof.
  intros Hne.
  assert (Hs : sorted l <> []).
  { intros E. apply Hne. apply Permutation_nil.
    rewrite <- E. symmetry. apply sorted_perm. }
  destruct (ascending_last_greatest _ (sorted_ascending l) Hs) as [Hin Hmax].
  split.
  - eapply Permutation_in; [symmetry; apply sorted_perm | exact Hin].
  - intros x Hx. apply Hmax.
    eapply Permutation_in; [apply sorted_perm | exact Hx].
Qed.

Lemma insert_sorted_below (x : string) (l : list string) :
  Forall (fun y => String.leb x y = true) l -> insert_sorted x l = x :: l.
Proof.
  destruct 1 as [|y l Hy _]; simpl; auto. now rewrite Hy.
Qed.

(** Sorting a listing that is already in order changes nothing. *)
Lemma sorted_id (l : list string) : ascending l -> sorted l = l.
Proof.
  induction 1 as [|y l Hs IH Hy]; simpl; auto.
  rewrite IH. now apply insert_sorted_below.
Qed.

(** ** Paths *)

Lemma endswith_sep_append (s1 s2 : string) :
  str_empty s2 = false -> endswith_sep (s1 ++ s2) = endswith_sep s2.
Proof.
  intros H2. induction s1 as [|c s1 IH]; simpl; auto.
  rewrite IH. destruct (s1 ++ s2)%string eqn:E; auto.
  destruct s1; simpl in E; [subst s2; discriminate | discriminate].
Qed.

Lemma string_append_assoc (s1 s2 s3 : string) :
  ((s1 ++ s2) ++ s3 = s1 ++ s2 ++ s3)%string.
Proof. induction s1 as [|c s1 IH]; simpl; congruence. Qed.

Lemma str_empty_append_r (s1 s2 : string) :
  str_empty s2 = false -> str_empty (s1 ++ s2) = false.
Proof. destruct s1, s2; simpl; auto. Qed.

Lemma digit_not_sep (n : nat) : Ascii.eqb (Database.digit n) "/" = false.
Proof.
  unfold Database.digit.
  assert (H : n mod 10 < 10) by (apply Nat.mod_upper_bound; lia).
  destruct (n mod 10) as [|m]; [reflexivity|].
  do 9 (destruct m as [|m]; [reflexivity|]). lia.
Qed.

Lemma strftime_Ymd_relative (d : Database.date) :
  startswith_sep (Database.strftime_Ymd d) = false.
Proof.
  unfold Database.strftime_Ymd, Database.pad4.
  cbn [append startswith_sep]. apply digit_not_sep.
Qed.

Lemma join_step_plain (path b : string) :
  str_empty path = false -> endswith_sep path = false ->
  startswith_sep b = false ->
  join_step path b = (path ++ "/" ++ b)%string.
Proof.
  intros Hp He Hb. unfold join_step. now rewrite Hb, Hp, He.
Qed.

Lemma getdir_dated_path (db : Database.Database) (key : string)
  (d : Database.date) :
  str_empty (Database.directory db) = false ->
  endswith_sep (Database.directory db) = false ->
  plain_component key ->
  Database.getdir db key d
  = (Database.directory db ++ "/" ++ key ++ "/" ++ Database.strftime_Ymd d)%string.
Proof.
  intros Hr He (Hk & Hs & Hke).
  unfold Database.getdir, path_join. simpl fold_left.
  rewrite (join_step_plain _ key Hr He Hs).
  rewrite join_step_plain.
  - now rewrite string_append_assoc.
  - apply str_empty_append_r. reflexivity.
  - change ("/" ++ key)%string with (String "/" key).
    rewrite endswith_sep_append; [|reflexivity].
    simpl. destruct key; [discriminate | exact Hke].
  - apply strftime_Ymd_relative.
Qed.

(** ** database.py: [get] *)

(** C8, as the code has it.  [get] builds the dated path with
    [path.join]: it is root/key/YYYY/MM/DD for a root that is not empty
    and does not end with a separator and a key that is not empty and
    neither starts nor ends with one.  Whatever the root and the key, when
    the dated path is a directory that lists at least one entry, the result
    is the lexicographically greatest name joined to the path; when the
    directory is empty or nothing exists at the path the result is [None],
    and nothing is raised; when the path exists as a regular file,
    [NotADirectoryError] is raised. *)
Theorem get_resolves_by_date (fs : filesystem) (db : Database.Database)
  (key : string) (d : Database.date) :
  let dirname := Database.getdir db key d in
  (str_empty (Database.directory db) = false ->
   endswith_sep (Database.directory db) = false ->
   plain_component key ->
   dirname = (Database.directory db ++ "/" ++ key ++ "/"
              ++ Database.strftime_Ymd d)%string)
  /\ match fs dirname with
     | Some (Dir (f :: rest)) =>
         exists m, greatest m (f :: rest)
                   /\ Database.get fs db key d
                      = Ok (Some (path_join dirname [m]))
     | Some (Dir []) => Database.get fs db key d = Ok None
     | None => Database.get fs db key d = Ok None
     | Some File =>
         Database.get fs db key d = Raise (NotADirectoryError dirname)
     end.
Proof.
  intros dirname. split; [apply getdir_dated_path|].
  unfold Database.get, path_exists, listdir. fold dirname.
  destruct (fs dirname) as [[|[|f rest]]|]; simpl; auto.
  exists (last_item (sorted (f :: rest))). split; auto.
  apply last_sorted_greatest. discriminate.
Qed.

Lemma get_resolves_by_date_witness :
  Database.getdir demo_db "VTI" demo_date = "/db/VTI/2019/03/07"
  /\ exists m, greatest m ["b.csv"; "a.csv"]
               /\ Database.get demo_fs demo_db "VTI" demo_date
                  = Ok (Some (path_join "/db/VTI/2019/03/07" [m])).
Proof.
  pose proof (get_resolves_by_date demo_fs demo_db "VTI" demo_date) as [Hp Hg].
  split.
  - apply Hp; [reflexivity | reflexivity | repeat split].
  - exact Hg.
Defined.

(** For the key "/VTI" the dated path is not below the root "/db", and
    where a regular file stands at the dated path, so that the directory
    does not exist, [get] raises instead of returning [None]. *)
Lemma get_leaves_root_or_raises :
  Database.getdir demo_db "/VTI" demo_date = "/VTI/2019/03/07"
  /\ Database.getdir demo_db "/VTI" demo_date
     <> (Database.directory demo_db ++ "/" ++ "/VTI" ++ "/"
         ++ Database.strftime_Ymd demo_date)%string
  /\ blocked_fs (Database.getdir demo_db "VTI" demo_date) = Some File
  /\ Database.get blocked_fs demo_db "VTI" demo_date
     = Raise (NotADirectoryError "/db/VTI/2019/03/07").
Proof.
  split; [reflexivity|]. split; [discriminate|]. split; reflexivity.
Qed.

(** ** database.py: [getlatest] *)

(** A missing directory never surfaces as an exception of [getlatest]. *)
Lemma getlatest_no_FileNotFoundError (fs : filesystem)
  (db : Database.Database) (key : string) (p : string) :
  Database.getlatest fs db key <> Raise (FileNotFoundError p).
Proof.
  unfold Database.getlatest.
  destruct (Database.getlatest_body fs db key) as [r|[]]; discriminate.
Qed.

Lemma descend_sorted_listing (fs : filesystem) (n : nat) :
  listings_ascending fs ->
  forall curdir, Database.descend fs n curdir = Database.descend_sorted fs n curdir.
Proof.
  intros Hfs. induction n as [|n IH]; intros curdir; simpl; auto.
  unfold listdir.
  destruct (fs curdir) as [[|entries]|] eqn:E; simpl; auto.
  rewrite (sorted_id entries (Hfs _ _ E)).
  destruct (nonempty entries); auto.
Qed.

(** On a file system whose listings are in order, [getlatest] is the walk
    the specification describes. *)
Lemma getlatest_sorted_listing (fs : filesystem) (db : Database.Database)
  (key : string) :
  listings_ascending fs ->
  Database.getlatest fs db key = Database.resolve_latest_spec fs db key.
Proof.
  intros Hfs.
  unfold Database.getlatest, Database.resolve_latest_spec.
  unfold Database.getlatest_body, Database.resolve_latest_spec_body.
  rewrite (descend_sorted_listing fs 3 Hfs). reflexivity.
Qed.

(** C3.  [os.listdir] reports the two year directories of the key as
    2020, 2019.  [getlatest] takes the last entry of that listing as it
    comes and returns the 2019 snapshot, where the walk through the
    lexicographically last child at each level reaches the 2020 one. *)
Theorem getlatest_takes_last_listed :
  Database.getlatest demo_fs demo_db "VTI"
  = Ok (Some "/db/VTI/2019/03/07/b.csv")
  /\ Database.resolve_latest_spec demo_fs demo_db "VTI"
     = Ok (Some "/db/VTI/2020/01/15/h.csv")
  /\ Database.getlatest demo_fs demo_db "VTI"
     <> Database.resolve_latest_spec demo_fs demo_db "VTI".
Proof.
  split; [reflexivity|]. split; [reflexivity|]. discriminate.
Qed.

(** ** Tables *)

Section TableFacts.
Context {num : Type} `{Number num}.

Import Table.

Lemma res_map_pure {A B} (f : A -> B) (xs : list A) :
  res_map (fun x => Ok (f x)) xs = Ok (List.map f xs).
Proof. induction xs as [|x xs IH]; simpl; [|rewrite IH]; reflexivity. Qed.

Lemma res_map_ext {A B} (f g : A -> res B) (xs : list A) :
  (forall x, In x xs -> f x = g x) -> res_map f xs = res_map g xs.
Proof.
  induction xs as [|x xs IH]; intros E; simpl; auto.
  rewrite (E x) by (simpl; auto).
  rewrite IH by (intros; apply E; simpl; auto). reflexivity.
Qed.

Lemma mem_In (c : string) (cols : list string) :
  mem c cols = true <-> In c cols.
Proof.
  unfold mem. rewrite existsb_exists. split.
  - intros (x & Hx & E). apply String.eqb_eq in E. now subst.
  - intros Hc. exists c. split; auto. apply String.eqb_refl.
Qed.

Lemma mem_not_In (c : string) (cols : list string) :
  mem c cols = false <-> ~ In c cols.
Proof.
  rewrite <- mem_In. destruct (mem c cols); split; congruence.
Qed.

Lemma mem_app (c : string) (l1 l2 : list string) :
  mem c (l1 ++ l2) = mem c l1 || mem c l2.
Proof. apply existsb_app. Qed.

Lemma index_of_bound (c : string) (cols : list string) (i : nat) :
  index_of c cols = Some i -> i < List.length cols.
Proof.
  revert i. induction cols as [|c' cols IH]; simpl; intros i; [discriminate|].
  destruct (String.eqb c c').
  - intros E. inversion E. lia.
  - destruct (index_of c cols) as [j|]; simpl; [|discriminate].
    intros E. inversion E. specialize (IH j eq_refl). lia.
Qed.

Lemma index_of_In (c : string) (cols : list string) :
  In c cols -> exists i, index_of c cols = Some i.
Proof.
  induction cols as [|c' cols IH]; simpl; [tauto|].
  destruct (String.eqb c c') eqn:E; [eauto|].
  intros [->|Hc]; [rewrite String.eqb_refl in E; discriminate|].
  destruct (IH Hc) as [i ->]. simpl. eauto.
Qed.

Lemma index_of_None (c : string) (cols : list string) :
  ~ In c cols -> index_of c cols = None.
Proof.
  induction cols as [|c' cols IH]; simpl; auto.
  intros Hn. destruct (String.eqb c c') eqn:E.
  - apply String.eqb_eq in E. subst. tauto.
  - rewrite IH; auto.
Qed.

Lemma index_of_app_l (c : string) (l1 l2 : list string) (i : nat) :
  index_of c l1 = Some i -> index_of c (l1 ++ l2) = Some i.
Proof.
  revert i. induction l1 as [|c' l1 IH]; simpl; intros i; [discriminate|].
  destruct (String.eqb c c'); auto.
  destruct (index_of c l1) as [j|]; simpl; [|discriminate].
  intros E. now rewrite (IH j eq_refl).
Qed.

Lemma index_of_app_r (c : string) (l1 l2 : list string) :
  ~ In c l1 ->
  index_of c (l1 ++ l2)
  = option_map (fun j => List.length l1 + j) (index_of c l2).
Proof.
  induction l1 as [|c' l1 IH]; simpl; intros Hn.
  - destruct (index_of c l2); reflexivity.
  - destruct (String.eqb c c') eqn:E.
    + apply String.eqb_eq in E. subst. tauto.
    + rewrite IH by tauto. destruct (index_of c l2); reflexivity.
Qed.

Lemma cell_app_l (r r' : list (value num)) (i : nat) :
  i < List.length r -> cell (r ++ r') i = cell r i.
Proof.
  intros Hi. unfold cell. now rewrite nth_error_app1.
Qed.

Lemma cell_in_range (r : list (value num)) (i : nat) :
  i < List.length r -> exists v, cell r i = Ok v.
Proof.
  intros Hi. unfold cell.
  destruct (nth_error r i) eqn:E; eauto.
  apply nth_error_None in E. lia.
Qed.

(** A column added with a constant value. *)
Lemma create_const (t : Table num) (column : string) (v : value num) :
  create t column (fun _ _ => Ok v)
  = Ok {| columns := columns t ++ [column];
          rows := List.map (fun r => r ++ [v]) (rows t) |}.
Proof.
  unfold create. simpl.
  rewrite (res_map_pure (fun r => r ++ [v])). reflexivity.
Qed.

End TableFacts.

(** ** portfolio.py: [add_missing_columns] *)

Section AddMissingColumns.
Context {num : Type} `{Number num}.

Import Table Portfolio.

Lemma absent_app_fresh (cols cs : list string) (c : string) :
  ~ In c cs -> absent (cols ++ [c]) cs = absent cols cs.
Proof.
  intros Hc. unfold absent. apply filter_ext_in. intros x Hx.
  rewrite mem_app. simpl. rewrite orb_false_r.
  destruct (String.eqb x c) eqn:E; [|now rewrite orb_false_r].
  apply String.eqb_eq in E. subst. tauto.
Qed.

Lemma add_columns_spec (cs : list string) :
  NoDup cs ->
  forall tbl : Table num,
    add_columns tbl cs
    = Ok {| columns := columns tbl ++ absent (columns tbl) cs;
            rows := List.map
                      (fun r => r ++ blanks (List.length (absent (columns tbl) cs)))
                      (rows tbl) |}.
Proof.
  induction 1 as [|c cs Hc Hnd IH]; intros tbl.
  - simpl. rewrite app_nil_r.
    rewrite (map_ext _ (fun r => r)) by (intros; apply app_nil_r).
    rewrite map_id. now destruct tbl.
  - simpl. destruct (mem c (columns tbl)) eqn:E; simpl.
    + apply IH.
    + rewrite create_const. simpl. rewrite IH. simpl.
      rewrite absent_app_fresh by assumption.
      rewrite <- app_assoc. simpl. rewrite map_map.
      f_equal. f_equal. apply map_ext. intros r.
      now rewrite <- app_assoc.
Qed.

Lemma add_columns_present (cs : list string) (tbl : Table num) :
  (forall c, In c cs -> In c (columns tbl)) -> add_columns tbl cs = Ok tbl.
Proof.
  induction cs as [|c cs IH]; intros Hin; simpl; auto.
  assert (E : mem c (columns tbl) = true) by (apply mem_In, Hin; simpl; auto).
  rewrite E. simpl. apply IH. intros; apply Hin; simpl; auto.
Qed.

Lemma IDCOLUMNS_NoDup : NoDup IDCOLUMNS.
Proof.
  unfold IDCOLUMNS.
  repeat (constructor; [simpl; intuition discriminate|]). constructor.
Qed.

Lemma absent_covers (cols cs : list string) (c : string) :
  In c cs -> In c (cols ++ absent cols cs).
Proof.
  intros Hc. apply in_or_app.
  destruct (mem c cols) eqn:E.
  - left. now apply mem_In.
  - right. apply filter_In. split; auto. now rewrite E.
Qed.

Lemma values_blank_column (tbl : Table num) (cs : list string) (c : string) :
  wf_table tbl -> In c (absent (columns tbl) cs) ->
  values {| columns := columns tbl ++ absent (columns tbl) cs;
            rows := List.map
                      (fun r => r ++ blanks (List.length (absent (columns tbl) cs)))
                      (rows tbl) |} c
  = Ok (List.map (fun _ => VStr "") (rows tbl)).
Proof.
  intros Hwf Hc. unfold values. simpl.
  assert (Hn : ~ In c (columns tbl)).
  { apply filter_In in Hc. destruct Hc as [_ Hc].
    apply mem_not_In. now destruct (mem c (columns tbl)). }
  rewrite index_of_app_r by assumption.
  destruct (index_of_In c _ Hc) as [j Hj]. rewrite Hj. simpl.
  apply index_of_bound in Hj.
  unfold wf_table in Hwf. induction Hwf as [|r rs Hr Hrs IH]; simpl; auto.
  rewrite IH. unfold cell.
  rewrite nth_error_app2 by lia.
  replace (List.length (columns tbl) + j - List.length r) with j by lia.
  unfold blanks. rewrite nth_error_repeat by assumption. reflexivity.
Qed.

(** C9.  [add_missing_columns] always returns a table.  Its columns are
    those of the input followed by the identifier columns the input lacks,
    and each row is the input row followed by one empty string per added
    column: each added column holds the empty string in every row, no
    column is removed, all five identifier columns are present.  Applying
    it to its own result changes nothing. *)
Theorem add_missing_columns_idempotent (tbl : Table num) :
  exists tbl',
    add_missing_columns tbl = Ok tbl'
    /\ columns tbl' = columns tbl ++ absent (columns tbl) IDCOLUMNS
    /\ rows tbl'
       = List.map
           (fun r => r ++ blanks (List.length (absent (columns tbl) IDCOLUMNS)))
           (rows tbl)
    /\ (forall c, In c (columns tbl) -> In c (columns tbl'))
    /\ (forall c, In c IDCOLUMNS -> In c (columns tbl'))
    /\ (wf_table tbl ->
        forall c, In c IDCOLUMNS -> ~ In c (columns tbl) ->
                  values tbl' c = Ok (List.map (fun _ => VStr "") (rows tbl)))
    /\ add_missing_columns tbl' = Ok tbl'.
Proof.
  unfold add_missing_columns.
  rewrite (add_columns_spec IDCOLUMNS IDCOLUMNS_NoDup tbl).
  eexists. split; [reflexivity|]. cbn [columns rows].
  split; [reflexivity|]. split; [reflexivity|].
  split; [intros c Hc; apply in_or_app; now left|].
  split; [intros c Hc; now apply absent_covers|].
  split.
  - intros Hwf c Hc Hn. apply values_blank_column; auto.
    apply filter_In. split; auto.
    apply mem_not_In in Hn. now rewrite Hn.
  - apply add_columns_present. cbn [columns].
    intros c Hc. now apply absent_covers.
Qed.

End AddMissingColumns.

(** ** portfolio.py: [check_holdings] *)

Section CheckHoldings.
Context {num : Type} `{Number num}.

Import Table Portfolio.

Lemma values_column_cells (t : Table num) (c : string) :
  wf_table t -> In c (columns t) -> values t c = Ok (column_cells t c).
Proof.
  intros Hwf Hc. unfold values, column_cells.
  destruct (index_of_In c _ Hc) as [i Hi]. rewrite Hi.
  apply index_of_bound in Hi.
  unfold wf_table in Hwf. induction Hwf as [|r rs Hr Hrs IH]; simpl; auto.
  rewrite IH. unfold cell.
  destruct (nth_error r i) eqn:E; [reflexivity|].
  apply nth_error_None in E. lia.
Qed.

Lemma has_dash_In (vs : list (value num)) :
  has_dash vs = true <-> In (VStr "-") vs.
Proof.
  unfold has_dash. rewrite existsb_exists. split.
  - intros ([s| |] & Hv & E); try discriminate.
    apply String.eqb_eq in E. now subst.
  - intros Hv. exists (VStr "-"). split; auto.
Qed.

Lemma in_ASSTYPES_VStr (v : value num) :
  in_ASSTYPES v = true <-> exists s, In s ASSTYPES /\ v = VStr s.
Proof.
  destruct v as [s| |]; cbn [in_ASSTYPES].
  - rewrite mem_In. split; [eauto|]. intros (s' & Hs & E).
    inversion E. now subst.
  - split; [discriminate|]. intros (? & _ & ?). discriminate.
  - split; [discriminate|]. intros (? & _ & ?). discriminate.
Qed.

Lemma check_dashes_fails (t : Table num) (cs : list string) :
  wf_table t ->
  (is_ok (check_dashes t cs) = false
   <-> exists c, In c cs /\ In c (columns t)
                 /\ In (VStr "-") (column_cells t c)).
Proof.
  intros Hwf. induction cs as [|c cs IH]; simpl.
  - split; [discriminate|]. intros (? & [] & _).
  - destruct (mem c (columns t)) eqn:E; simpl.
    + apply mem_In in E. rewrite (values_column_cells t c Hwf E). simpl.
      destruct (has_dash (column_cells t c)) eqn:D; simpl.
      * apply has_dash_In in D. split; auto. intros _. exists c. auto.
      * rewrite IH. split.
        -- intros (c' & ? & ? & ?). exists c'. auto.
        -- intros (c' & [<-|?] & ? & Hd); [|exists c'; auto].
           apply has_dash_In in Hd. congruence.
    + apply mem_not_In in E. rewrite IH. split.
      * intros (c' & ? & ? & ?). exists c'. auto.
      * intros (c' & [<-|?] & ? & ?); [tauto|exists c'; auto].
Qed.

Lemma extra_column_dec (t : Table num) :
  nonempty (List.filter
              (fun c => negb (mem c (["asstype"; "fraction"] ++ IDCOLUMNS)))
              (columns t)) = true
  <-> extra_column t.
Proof.
  unfold extra_column. split.
  - destruct (List.filter _ _) as [|c l] eqn:E; [discriminate|]. intros _.
    assert (Hc : In c (c :: l)) by (simpl; auto).
    rewrite <- E in Hc. apply filter_In in Hc. destruct Hc as [Hc Hm].
    exists c. split; auto. apply mem_not_In.
    now destruct (mem c (["asstype"; "fraction"] ++ IDCOLUMNS)).
  - intros (c & Hc & Hn). apply mem_not_In in Hn.
    assert (Hf : In c (List.filter
                         (fun c => negb (mem c (["asstype"; "fraction"] ++ IDCOLUMNS)))
                         (columns t))).
    { apply filter_In. split; auto. now rewrite Hn. }
    destruct (List.filter _ _); [destruct Hf | reflexivity].
Qed.

Lemma required_missing_dec (t : Table num) :
  forallb (fun c => mem c (columns t)) ["asstype"; "fraction"] = false
  <-> required_missing t.
Proof.
  unfold required_missing. simpl. rewrite andb_true_r.
  rewrite andb_false_iff, !mem_not_In. reflexivity.
Qed.

Lemma no_id_column_dec (t : Table num) :
  existsb (fun c => mem c (columns t)) IDCOLUMNS = false <-> no_id_column t.
Proof.
  unfold no_id_column. split.
  - intros E c Hc Hin.
    assert (X : existsb (fun c => mem c (columns t)) IDCOLUMNS = true).
    { apply existsb_exists. exists c. split; auto. now apply mem_In. }
    congruence.
  - intros Hn. destruct (existsb _ IDCOLUMNS) eqn:E; auto.
    apply existsb_exists in E. destruct E as (c & Hc & Hm).
    apply mem_In in Hm. exfalso. eapply Hn; eauto.
Qed.

Lemma bad_asstype_dec (t : Table num) :
  forallb in_ASSTYPES (column_cells t "asstype") = false <-> bad_asstype t.
Proof.
  unfold bad_asstype. split.
  - intros E.
    destruct (forallb_forall in_ASSTYPES (column_cells t "asstype")) as [_ F].
    assert (X : exists v, In v (column_cells t "asstype")
                          /\ in_ASSTYPES v = false).
    { clear F. induction (column_cells t "asstype") as [|v vs IH];
        simpl in *; [discriminate|].
      destruct (in_ASSTYPES v) eqn:Ev; simpl in E.
      - destruct (IH E) as (w & ? & ?). exists w. auto.
      - exists v. auto. }
    destruct X as (v & Hv & Ev). exists v. split; auto.
    intros s Hs ->. cbn [in_ASSTYPES] in Ev. apply mem_In in Hs. congruence.
  - intros (v & Hv & Hs).
    destruct (forallb in_ASSTYPES (column_cells t "asstype")) eqn:E; auto.
    rewrite forallb_forall in E. specialize (E v Hv).
    apply in_ASSTYPES_VStr in E. destruct E as (s & Hin & ->).
    exfalso. eapply Hs; eauto.
Qed.

Lemma is_ok_bind_assert {A} (b : bool) (message : string)
  (k : unit -> res A) :
  is_ok (res_bind (assert b message) k) = b && is_ok (k tt).
Proof. destruct b; reflexivity. Qed.

(** C2, as the code has it.  On a table whose rows have one cell per column,
    [check_holdings] fails exactly when the table has a column other than
    asstype, fraction and the five identifier columns, or lacks asstype or
    fraction, or has no identifier column, or has an asstype cell outside
    Equity, FixedIncome, ShortTerm, or has the cell "-" in an identifier
    column.  In every other case it returns, and being a function of the
    table it leaves the table as it was. *)
Theorem check_holdings_fails_iff (t : Table num) :
  wf_table t ->
  (is_ok (check_holdings t) = false
   <-> extra_column t \/ required_missing t \/ no_id_column t
       \/ bad_asstype t \/ dash_in_id t).
Proof.
  intros Hwf. unfold check_holdings. cbv zeta.
  rewrite !is_ok_bind_assert.
  pose proof (extra_column_dec t) as Hx.
  pose proof (required_missing_dec t) as Hr.
  pose proof (no_id_column_dec t) as Hi.
  pose proof (bad_asstype_dec t) as Hb.
  pose proof (check_dashes_fails t IDCOLUMNS Hwf) as Hd.
  fold (dash_in_id t) in Hd.
  destruct (nonempty (List.filter _ (columns t))); cbn [negb andb].
  { split; [intros _; left; now apply Hx | reflexivity]. }
  assert (Nx : ~ extra_column t) by (rewrite <- Hx; discriminate).
  destruct (forallb (fun c => mem c (columns t)) ["asstype"; "fraction"]) eqn:Er;
    cbn [andb].
  2:{ split; [intros _; right; left; now apply Hr | reflexivity]. }
  assert (Nr : ~ required_missing t) by (rewrite <- Hr; discriminate).
  destruct (existsb (fun c => mem c (columns t)) IDCOLUMNS); cbn [andb].
  2:{ split; [intros _; right; right; left; now apply Hi | reflexivity]. }
  assert (Ni : ~ no_id_column t) by (rewrite <- Hi; discriminate).
  assert (Ha : In "asstype" (columns t)).
  { rewrite forallb_forall in Er. apply mem_In, Er. simpl. auto. }
  rewrite (values_column_cells t "asstype" Hwf Ha). cbn [res_bind].
  rewrite is_ok_bind_assert.
  destruct (forallb in_ASSTYPES (column_cells t "asstype")); cbn [andb].
  2:{ split; [intros _; do 3 right; left; now apply Hb | reflexivity]. }
  assert (Nb : ~ bad_asstype t) by (rewrite <- Hb; discriminate).
  rewrite Hd. tauto.
Qed.

End CheckHoldings.

(** ** portfolio.py: [normalize_holdings_table] *)

Section Normalize.
Context {num : Type} `{Number num}.

Import Table Portfolio.

Lemma fractions_at (tbl : Table num) (i : nat) :
  index_of "fraction" (columns tbl) = Some i ->
  fractions tbl = res_map (number_at i) (rows tbl).
Proof.
  intros Hi. unfold fractions. apply res_map_ext. intros row _.
  unfold getattr, number_at. now rewrite Hi.
Qed.

Lemma fractions_column (tbl : Table num) (fs : list num) :
  fractions tbl = Ok fs -> fs <> [] ->
  exists i, index_of "fraction" (columns tbl) = Some i.
Proof.
  unfold fractions. destruct (rows tbl) as [|row rs]; simpl.
  - intros E. inversion E. congruence.
  - unfold getattr.
    destruct (index_of "fraction" (columns tbl)); [eauto | discriminate].
Qed.

Lemma cell_set_nth (row : list (value num)) (i : nat) (v w : value num) :
  cell row i = Ok v -> cell (set_nth row i w) i = Ok w.
Proof.
  unfold cell. revert i. induction row as [|x row IH]; intros [|i]; simpl;
    try discriminate; auto.
Qed.

(** The rows after [tbl.map('fraction', lambda f: f*scale)]. *)
Lemma map_rows_scaled (i : nat) (scale : num) (rs : list (list (value num))) :
  forall fs,
    res_map (number_at i) rs = Ok fs ->
    exists rs',
      res_map (fun row => res_bind (cell row i) (fun v =>
                          res_bind (py_mul v (VNum scale)) (fun w =>
                          Ok (set_nth row i w)))) rs = Ok rs'
      /\ res_map (number_at i) rs'
         = Ok (List.map (fun f => n_mul f scale) fs).
Proof.
  induction rs as [|row rs IH]; simpl; intros fs E.
  - inversion E. exists []. auto.
  - unfold number_at in E at 1.
    destruct (cell row i) as [[s|x|n]|] eqn:Ec; simpl in E; try discriminate.
    destruct (res_map (number_at i) rs) as [fs'|]; [|discriminate].
    inversion E. subst fs. destruct (IH fs' eq_refl) as (rs' & -> & E').
    simpl. eexists. split; [reflexivity|]. simpl.
    unfold number_at at 1.
    rewrite (cell_set_nth row i _ (VNum (n_mul x scale)) Ec). simpl.
    now rewrite E'.
Qed.

(** What the body of [normalize_holdings_table] does when the division
    succeeds, whatever the summation. *)
Lemma normalize_with_scaled (sum : list num -> num) (tbl : Table num)
  (fs : list num) (scale : num) :
  fractions tbl = Ok fs -> fs <> [] ->
  n_div n_one (sum fs) = Ok scale ->
  exists tbl',
    normalize_holdings_table_with sum tbl
    = ((if weight_invalid (sum fs)
        then [LogError (TextNum "Total weight seems invalid: %s" (sum fs))]
        else []),
       Ok tbl')
    /\ columns tbl' = columns tbl
    /\ fractions tbl' = Ok (List.map (fun f => n_mul f scale) fs).
Proof.
  intros Hf Hne Hd.
  destruct (fractions_column tbl fs Hf Hne) as [i Hi].
  rewrite (fractions_at tbl i Hi) in Hf.
  destruct (map_rows_scaled i scale (rows tbl) fs Hf) as (rs' & Hm & Hs).
  assert (Hmap : Table.map tbl "fraction" (fun f => py_mul f (VNum scale))
                 = Ok {| columns := columns tbl; rows := rs' |}).
  { unfold Table.map. rewrite Hi. cbv beta. now rewrite Hm. }
  exists {| columns := columns tbl; rows := rs' |}.
  split; [|split; [reflexivity|]].
  - unfold normalize_holdings_table_with.
    rewrite (fractions_at tbl i Hi), Hf. cbn [lift bind].
    destruct (weight_invalid (sum fs)); cbn [emit ret bind lift];
      rewrite Hd, Hmap; reflexivity.
  - rewrite (fractions_at _ i) by exact Hi. exact Hs.
Qed.

Lemma normalize_scaled (tbl : Table num) (fs : list num) (scale : num) :
  fractions tbl = Ok fs -> fs <> [] ->
  n_div n_one (n_sum fs) = Ok scale ->
  exists tbl',
    normalize_holdings_table tbl
    = ((if weight_invalid (n_sum fs)
        then [LogError (TextNum "Total weight seems invalid: %s" (n_sum fs))]
        else []),
       Ok tbl')
    /\ columns tbl' = columns tbl
    /\ fractions tbl' = Ok (List.map (fun f => n_mul f scale) fs).
Proof. apply normalize_with_scaled. Qed.

(** What it does when the division raises. *)
Lemma normalize_raises (tbl : Table num) (fs : list num) (e : exn) :
  fractions tbl = Ok fs ->
  n_div n_one (n_sum fs) = Raise e ->
  normalize_holdings_table tbl
  = ((if weight_invalid (n_sum fs)
      then [LogError (TextNum "Total weight seems invalid: %s" (n_sum fs))]
      else []),
     Raise e).
Proof.
  intros Hf Hd. unfold normalize_holdings_table, normalize_holdings_table_with.
  rewrite Hf. cbn [lift bind].
  destruct (weight_invalid (n_sum fs)); cbn [emit ret bind lift];
    rewrite Hd; reflexivity.
Qed.

End Normalize.

(** *** Binary64 *)

Lemma float_zero_SF : Prim2SF 0%float = S754_zero false.
Proof. reflexivity. Qed.

(** A positive sum is not zero. *)
Lemma float_pos_nonzero (x : float) :
  PrimFloat.ltb 0%float x = true -> PrimFloat.eqb x 0%float = false.
Proof.
  rewrite FloatAxioms.ltb_spec, FloatAxioms.eqb_spec, float_zero_SF.
  unfold SFltb, SFeqb.
  destruct (Prim2SF x) as [s|s| |s m e]; try destruct s;
    cbn [SFcompare]; congruence.
Qed.

(** A zero sum is outside the tolerance. *)
Lemma float_zero_invalid (x : float) :
  PrimFloat.eqb x 0%float = true ->
  Portfolio.weight_invalid x = true.
Proof.
  unfold Portfolio.weight_invalid. simpl n_lt. simpl n_lo.
  rewrite FloatAxioms.eqb_spec, FloatAxioms.ltb_spec, float_zero_SF.
  set (lo := Prim2SF 0.98%float). vm_compute in lo. subst lo.
  unfold SFltb, SFeqb.
  destruct (Prim2SF x) as [s|s| |s m e]; try destruct s;
    cbn [SFcompare negb andb]; congruence.
Qed.

(** *** Binary64 arithmetic as real arithmetic

    The operations of the kernel's binary64 numbers are specified by
    [SpecFloat]: a mantissa is shifted to the exponent of the format with
    a round and a sticky bit, and rounded to nearest, ties to even.  The
    lemmas below follow a real number through that rounding and bound the
    error of an addition, a multiplication and a quotient of positive
    numbers by one part in 2^53. *)

Section Rounding.
Local Open Scope R_scope.

Lemma Rabs_le_inv (x b : R) : Rabs x <= b -> - b <= x <= b.
Proof. unfold Rabs. destruct (Rcase_abs x); lra. Qed.

Lemma pow2_pos (e : Z) : 0 < pow2 e.
Proof. apply powerRZ_lt. lra. Qed.

Lemma pow2_add (a b : Z) : pow2 (a + b) = pow2 a * pow2 b.
Proof. apply powerRZ_add. lra. Qed.

Lemma pow2_succ (e : Z) : pow2 (e + 1) = 2 * pow2 e.
Proof. rewrite pow2_add. unfold pow2 at 2. simpl. lra. Qed.

Lemma pow2_IZR (k : Z) : (0 <= k)%Z -> pow2 k = IZR (2 ^ k).
Proof.
  intros Hk. destruct k as [|p|p]; [reflexivity| |lia].
  unfold pow2. now rewrite <- Zpower_pos_powerRZ.
Qed.

Lemma pow2_le (a b : Z) : (a <= b)%Z -> pow2 a <= pow2 b.
Proof.
  intros Hab. replace b with (a + (b - a))%Z by lia.
  rewrite pow2_add, (pow2_IZR (b - a)) by lia.
  assert (1 <= IZR (2 ^ (b - a))).
  { apply IZR_le. assert (0 < 2 ^ (b - a))%Z by (apply Z.pow_pos_nonneg; lia).
    lia. }
  pose proof (pow2_pos a). nra.
Qed.

Lemma digits2_bounds (p : positive) :
  (2 ^ (Zpos (digits2_pos p) - 1) <= Zpos p < 2 ^ Zpos (digits2_pos p))%Z.
Proof.
  induction p as [p IH|p IH|]; cbn [digits2_pos].
  - rewrite Pos2Z.inj_succ, Pos2Z.inj_xI.
    replace (Z.succ (Zpos (digits2_pos p)) - 1)%Z
      with (Z.succ (Zpos (digits2_pos p) - 1)) by lia.
    rewrite !Z.pow_succ_r by lia.
    set (a := (2 ^ (Zpos (digits2_pos p) - 1))%Z) in *.
    set (b := (2 ^ Zpos (digits2_pos p))%Z) in *. clearbody a b. lia.
  - rewrite Pos2Z.inj_succ. change (Zpos p~0) with (2 * Zpos p)%Z.
    replace (Z.succ (Zpos (digits2_pos p)) - 1)%Z
      with (Z.succ (Zpos (digits2_pos p) - 1)) by lia.
    rewrite !Z.pow_succ_r by lia.
    set (a := (2 ^ (Zpos (digits2_pos p) - 1))%Z) in *.
    set (b := (2 ^ Zpos (digits2_pos p))%Z) in *. clearbody a b. lia.
  - simpl. lia.
Qed.

Lemma digits2_unique (p : positive) (k : Z) :
  (2 ^ (k - 1) <= Zpos p < 2 ^ k)%Z -> Zpos (digits2_pos p) = k.
Proof.
  intros [Hlo Hhi]. pose proof (digits2_bounds p) as [Dlo Dhi].
  set (d := Zpos (digits2_pos p)) in *.
  assert (0 < k)%Z.
  { destruct (Z_lt_le_dec 0 k); auto.
    assert (2 ^ k <= 1)%Z.
    { destruct (Z.eq_dec k 0) as [->|]; [simpl; lia|].
      rewrite Z.pow_neg_r by lia. lia. }
    lia. }
  destruct (Z_lt_le_dec d k) as [L|L].
  - assert (2 ^ d <= 2 ^ (k - 1))%Z by (apply Z.pow_le_mono_r; lia). lia.
  - destruct (Z_lt_le_dec k d) as [L'|L']; [|lia].
    assert (2 ^ k <= 2 ^ (d - 1))%Z by (apply Z.pow_le_mono_r; lia). lia.
Qed.

(** One step of the shift keeps the place of the real. *)
Lemma shr_1_at (mrs : shr_record) (e : Z) (v : R) :
  (0 <= shr_m mrs)%Z -> rec_at mrs e v ->
  rec_at (shr_1 mrs) (e + 1) v
  /\ shr_m (shr_1 mrs) = (shr_m mrs / 2)%Z.
Proof.
  destruct mrs as [m r s]. cbn [shr_m]. intros Hm Hv.
  pose proof (pow2_pos e) as P.
  unfold rec_at in *. cbn [shr_m shr_r shr_s] in *.
  destruct m as [|p|p]; [| |lia].
  - cbn [shr_1]. cbn [shr_m shr_r shr_s]. split; [|reflexivity].
    rewrite pow2_succ. destruct r, s; cbn [orb]; lra.
  - destruct p as [p|p|]; cbn [shr_1 shr_m shr_r shr_s].
    + split.
      * rewrite pow2_succ. rewrite Pos2Z.inj_xI, plus_IZR, mult_IZR in Hv.
        destruct r, s; cbn [orb]; nra.
      * rewrite Pos2Z.inj_xI.
        apply Z.div_unique with 1%Z; lia.
    + split.
      * rewrite pow2_succ.
        change (Zpos p~0) with (2 * Zpos p)%Z in Hv. rewrite mult_IZR in Hv.
        destruct r, s; cbn [orb]; nra.
      * change (Zpos p~0) with (2 * Zpos p)%Z.
        apply Z.div_unique with 0%Z; lia.
    + split; [|reflexivity].
      rewrite pow2_succ. destruct r, s; cbn [orb]; lra.
Qed.

Lemma iter_shr_1 (p : positive) :
  forall (mrs : shr_record) (e : Z) (v : R),
    (0 <= shr_m mrs)%Z -> rec_at mrs e v ->
    rec_at (SpecFloat.iter_pos shr_1 p mrs) (e + Zpos p) v
    /\ shr_m (SpecFloat.iter_pos shr_1 p mrs) = (shr_m mrs / 2 ^ Zpos p)%Z.
Proof.
  induction p as [p IH|p IH|]; intros mrs e v Hm Hv; cbn [SpecFloat.iter_pos].
  - destruct (shr_1_at mrs e v Hm Hv) as [H1 M1].
    assert (N1 : (0 <= shr_m (shr_1 mrs))%Z).
    { rewrite M1. apply Z.div_pos; lia. }
    destruct (IH _ _ _ N1 H1) as [H2 M2].
    assert (N2 : (0 <= shr_m (SpecFloat.iter_pos shr_1 p (shr_1 mrs)))%Z).
    { rewrite M2. apply Z.div_pos; [lia|]. apply Z.pow_pos_nonneg; lia. }
    destruct (IH _ _ _ N2 H2) as [H3 M3]. split.
    + replace (e + Zpos p~1)%Z with (e + 1 + Zpos p + Zpos p)%Z by lia.
      exact H3.
    + rewrite M3, M2, M1.
      rewrite !Z.div_div by (try lia; apply Z.pow_pos_nonneg; lia).
      f_equal.
      replace (Zpos p~1) with (1 + Zpos p + Zpos p)%Z by lia.
      rewrite !Z.pow_add_r by lia. simpl (2 ^ 1)%Z. lia.
  - destruct (IH _ _ _ Hm Hv) as [H2 M2].
    assert (N2 : (0 <= shr_m (SpecFloat.iter_pos shr_1 p mrs))%Z).
    { rewrite M2. apply Z.div_pos; [lia|]. apply Z.pow_pos_nonneg; lia. }
    destruct (IH _ _ _ N2 H2) as [H3 M3]. split.
    + replace (e + Zpos p~0)%Z with (e + Zpos p + Zpos p)%Z by lia.
      exact H3.
    + rewrite M3, M2.
      rewrite !Z.div_div by (try lia; apply Z.pow_pos_nonneg; lia).
      f_equal.
      replace (Zpos p~0) with (Zpos p + Zpos p)%Z by lia.
      rewrite !Z.pow_add_r by lia. lia.
  - destruct (shr_1_at mrs e v Hm Hv) as [H1 M1]. split; [exact H1|].
    rewrite M1. reflexivity.
Qed.

(** The shift to the exponent of the format. *)
Lemma shr_fexp_at (m : Z) (e : Z) (l : location) (v : R) :
  (0 <= m)%Z ->
  rec_at (shr_record_of_loc m l) e v ->
  let n := (fexp prec emax (Zdigits2 m + e) - e)%Z in
  exists mrs',
    shr_fexp prec emax m e l = (mrs', (e + Z.max 0 n)%Z)
    /\ rec_at mrs' (e + Z.max 0 n) v
    /\ shr_m mrs' = (m / 2 ^ Z.max 0 n)%Z
    /\ ((n <= 0)%Z -> mrs' = shr_record_of_loc m l).
Proof.
  intros Hm Hv n. unfold shr_fexp. fold n.
  assert (Hm' : (0 <= shr_m (shr_record_of_loc m l))%Z).
  { destruct l as [|[]]; exact Hm. }
  assert (Em : shr_m (shr_record_of_loc m l) = m).
  { destruct l as [|[]]; reflexivity. }
  destruct n as [|p|p]; cbn [shr].
  - exists (shr_record_of_loc m l). rewrite Z.add_0_r.
    repeat split; auto. rewrite Em. cbn. now rewrite Z.div_1_r.
  - destruct (iter_shr_1 p _ e v Hm' Hv) as [H1 M1].
    exists (SpecFloat.iter_pos shr_1 p (shr_record_of_loc m l)).
    replace (Z.max 0 (Zpos p)) with (Zpos p) by lia.
    repeat split; auto.
    + rewrite M1, Em. reflexivity.
    + lia.
  - exists (shr_record_of_loc m l).
    replace (Z.max 0 (Zneg p)) with 0%Z by lia. rewrite Z.add_0_r.
    repeat split; auto. rewrite Em. cbn. now rewrite Z.div_1_r.
Qed.

Lemma round_nearest_even_at (mrs : shr_record) (e : Z) (v : R) :
  rec_at mrs e v ->
  let m' := round_nearest_even (shr_m mrs) (loc_of_shr_record mrs) in
  (shr_m mrs <= m' <= shr_m mrs + 1)%Z
  /\ Rabs (IZR m' * pow2 e - v) <= pow2 e / 2
  /\ (shr_r mrs = false -> shr_s mrs = false -> m' = shr_m mrs /\ IZR m' * pow2 e = v).
Proof.
  destruct mrs as [m r s]. unfold rec_at. cbn [shr_m shr_r shr_s].
  intros Hv. pose proof (pow2_pos e) as P.
  destruct r, s; cbn [loc_of_shr_record round_nearest_even].
  - split; [lia|]. split; [|discriminate].
    rewrite plus_IZR. apply Rabs_le. lra.
  - destruct (Z.even m); (split; [lia|]); (split; [|discriminate]).
    + apply Rabs_le. lra.
    + rewrite plus_IZR. apply Rabs_le. lra.
  - split; [lia|]. split; [|discriminate]. apply Rabs_le. lra.
  - split; [lia|]. split.
    + apply Rabs_le. lra.
    + intros _ _. split; [reflexivity|]. lra.
Qed.


(** Rounding a mantissa that already has the exponent of the format. *)
Lemma binary_round_aux_exact (sx : bool) (m : positive) (e : Z) :
  fexp prec emax (Zpos (digits2_pos m) + e) = e ->
  binary_round_aux prec emax sx (Zpos m) e loc_Exact
  = if (e <=? emax - prec)%Z then S754_finite sx m e else S754_infinity sx.
Proof.
  intros He. unfold binary_round_aux, shr_fexp. cbn [Zdigits2].
  rewrite He, Z.sub_diag. cbn [shr shr_record_of_loc].
  cbn [shr_m loc_of_shr_record round_nearest_even Zdigits2].
  rewrite He, Z.sub_diag. reflexivity.
Qed.

(** Rounding to nearest of a real located at a mantissa of at least 53
    digits, above the subnormal range. *)
Lemma binary_round_aux_normal (sx : bool) (m : positive) (e : Z)
  (l : location) (v : R) :
  rec_at (shr_record_of_loc (Zpos m) l) e v ->
  let d := Zpos (digits2_pos m) in
  (53 <= d)%Z -> (-1074 <= d + e - 53)%Z ->
  exists (mf : positive) (ef : Z),
    binary_round_aux prec emax sx (Zpos m) e l
    = (if (ef <=? 971)%Z then S754_finite sx mf ef else S754_infinity sx)
    /\ (2 ^ 52 <= Zpos mf < 2 ^ 53)%Z
    /\ (d + e - 53 <= ef <= d + e - 53 + 1)%Z
    /\ Rabs (IZR (Zpos mf) * pow2 ef - v) <= pow2 (d + e - 53) / 2.
Proof.
  intros Hv d Hd He.
  pose proof (digits2_bounds m) as [Dlo Dhi]. fold d in Dlo, Dhi.
  set (e1 := (d + e - 53)%Z).
  assert (Hf : fexp prec emax (Zdigits2 (Zpos m) + e) = e1).
  { cbn [Zdigits2]. fold d. unfold fexp, emin, prec, emax. lia. }
  destruct (shr_fexp_at (Zpos m) e l v) as (mrs' & E1 & Hat & Hm1 & _);
    [lia | exact Hv |].
  rewrite Hf in E1, Hat, Hm1.
  replace (e + Z.max 0 (e1 - e))%Z with e1 in E1, Hat by lia.
  replace (Z.max 0 (e1 - e)) with (d - 53)%Z in Hm1 by lia.
  assert (B1 : (2 ^ 52 <= shr_m mrs' < 2 ^ 53)%Z).
  { rewrite Hm1.
    assert (P : (0 < 2 ^ (d - 53))%Z) by (apply Z.pow_pos_nonneg; lia).
    split.
    - apply Z.div_le_lower_bound; [exact P|].
      rewrite <- Z.pow_add_r by lia.
      replace (d - 53 + 52)%Z with (d - 1)%Z by lia. exact Dlo.
    - apply Z.div_lt_upper_bound; [exact P|].
      rewrite <- Z.pow_add_r by lia.
      replace (d - 53 + 53)%Z with d by lia. exact Dhi. }
  destruct (round_nearest_even_at mrs' e1 v Hat) as (B2 & Hr & _).
  set (m2 := round_nearest_even (shr_m mrs') (loc_of_shr_record mrs')) in *.
  unfold binary_round_aux. rewrite E1. cbv beta iota. fold m2.
  destruct (Z.eq_dec m2 (2 ^ 53)) as [E2|N2].
  - (* the mantissa was rounded up to the next power of two *)
    exists (4503599627370496)%positive, (e1 + 1)%Z.
    rewrite E2. unfold shr_fexp. cbn [Zdigits2].
    change (Zdigits2 (2 ^ 53)) with 54%Z.
    replace (fexp prec emax (54 + e1) - e1)%Z with 1%Z
      by (unfold fexp, emin, prec, emax; lia).
    cbn. split; [reflexivity|]. split; [lia|]. split; [lia|].
    rewrite E2 in Hr. rewrite pow2_succ.
    replace (IZR 4503599627370496 * (2 * pow2 e1))
      with (IZR (2 ^ 53) * pow2 e1) by (simpl; lra).
    exact Hr.
  - assert (B3 : (2 ^ 52 <= m2 < 2 ^ 53)%Z) by lia.
    destruct m2 as [|q|q] eqn:Em2; [simpl in B3; lia| |lia].
    exists q, e1.
    pose proof (digits2_unique q 53 B3) as Dq.
    destruct (shr_fexp_at (Zpos q) e1 loc_Exact (IZR (Zpos q) * pow2 e1))
      as (mrs'' & E3 & _ & _ & Hn); [lia | |].
    { unfold rec_at. cbn. lra. }
    cbn [Zdigits2] in E3, Hn. rewrite Dq in E3, Hn.
    assert (Hz : (fexp prec emax (53 + e1) - e1 = 0)%Z)
      by (unfold fexp, emin, prec, emax; lia).
    rewrite Hz in E3, Hn. rewrite (Hn ltac:(lia)) in E3.
    cbn [Z.max] in E3. rewrite Z.add_0_r in E3.
    rewrite E3. cbn [shr_m shr_record_of_loc].
    split; [reflexivity|]. split; [exact B3|]. split; [lia|]. exact Hr.
Qed.


Lemma pow2_half (e : Z) : pow2 e / 2 = pow2 (e - 1).
Proof.
  replace e with (e - 1 + 1)%Z at 1 by lia. rewrite pow2_succ. lra.
Qed.

Lemma IZR_pow2 (m : Z) (a b : Z) :
  (b <= a)%Z -> IZR (m * 2 ^ (a - b)) * pow2 b = IZR m * pow2 a.
Proof.
  intros Hab. rewrite mult_IZR, <- pow2_IZR by lia.
  replace a with (a - b + b)%Z at 2 by lia. rewrite pow2_add. ring.
Qed.

(** The mantissa of a positive number of the format, and the bounds of
    its exponent. *)
Lemma valid_pos (x : float) (s : bool) (m : positive) (e : Z) :
  Prim2SF x = S754_finite s m e ->
  fexp prec emax (Zpos (digits2_pos m) + e) = e /\ (-1074 <= e <= 971)%Z.
Proof.
  intros Hx. pose proof (Prim2SF_valid x) as V. rewrite Hx in V.
  unfold valid_binary, bounded, canonical_mantissa in V.
  apply andb_true_iff in V. destruct V as [V1 V2].
  apply Z.eqb_eq in V1. apply Z.leb_le in V2. split; [exact V1|].
  unfold fexp, emin, prec, emax in *. lia.
Qed.

Lemma shl_align_value (m : positive) (e e' : Z) :
  (e' <= e)%Z ->
  Zpos (fst (shl_align m e e')) = (Zpos m * 2 ^ (e - e'))%Z
  /\ snd (shl_align m e e') = e'.
Proof.
  intros He. unfold shl_align. destruct (e' - e)%Z as [|p|p] eqn:E.
  - cbn [fst snd]. replace (e - e')%Z with 0%Z by lia.
    rewrite Z.pow_0_r. lia.
  - lia.
  - cbn [fst snd]. split; [|reflexivity].
    change (Pos.iter xO m p) with (shift_pos p m).
    rewrite shift_pos_correct. replace (e - e')%Z with (Zpos p) by lia.
    change (Z.pow_pos 2 p) with (2 ^ Zpos p)%Z. lia.
Qed.

(** The digits of a mantissa shifted to the left. *)
Lemma digits2_shift (m q : positive) (k : Z) :
  (0 <= k)%Z -> Zpos q = (Zpos m * 2 ^ k)%Z ->
  Zpos (digits2_pos q) = (Zpos (digits2_pos m) + k)%Z.
Proof.
  intros Hk Hq. apply digits2_unique. rewrite Hq.
  pose proof (digits2_bounds m) as [Dlo Dhi].
  assert (P : (0 < 2 ^ k)%Z) by (apply Z.pow_pos_nonneg; lia).
  replace (Zpos (digits2_pos m) + k - 1)%Z
    with (Zpos (digits2_pos m) - 1 + k)%Z by lia.
  rewrite !Z.pow_add_r by lia. split.
  - apply Z.mul_le_mono_nonneg_r; lia.
  - apply Z.mul_lt_mono_pos_r; lia.
Qed.

(** The value of a mantissa against its number of digits. *)
Lemma value_digits (m : positive) (e : Z) :
  pow2 (Zpos (digits2_pos m) - 1 + e) <= IZR (Zpos m) * pow2 e
  /\ IZR (Zpos m) * pow2 e < pow2 (Zpos (digits2_pos m) + e).
Proof.
  pose proof (digits2_bounds m) as [Dlo Dhi].
  pose proof (pow2_pos e) as P.
  rewrite !pow2_add.
  rewrite (pow2_IZR (Zpos (digits2_pos m) - 1)),
    (pow2_IZR (Zpos (digits2_pos m))) by lia.
  split.
  - apply Rmult_le_compat_r; [lra|]. now apply IZR_le.
  - apply Rmult_lt_compat_r; [lra|]. now apply IZR_lt.
Qed.

(** Rounding an exact positive value: the relative error is at most
    2^-53, and there is no overflow below 2^1023. *)
Lemma binary_round_pos (M : positive) (e : Z) :
  (-1074 <= e)%Z ->
  IZR (Zpos M) * pow2 e < pow2 1023 ->
  exists (mf : positive) (ef : Z),
    binary_round prec emax false M e = S754_finite false mf ef
    /\ Rabs (IZR (Zpos mf) * pow2 ef - IZR (Zpos M) * pow2 e)
       <= IZR (Zpos M) * pow2 e * pow2 (-53).
Proof.
  intros He Hv. set (v := IZR (Zpos M) * pow2 e) in *.
  set (D := Zpos (digits2_pos M)).
  destruct (value_digits M e) as [Vlo Vhi]. fold D v in Vlo, Vhi.
  assert (HD : (D - 1 + e < 1023)%Z).
  { destruct (Z_lt_le_dec (D - 1 + e) 1023) as [L|L]; [exact L|].
    apply pow2_le in L. lra. }
  assert (Hv0 : 0 < v).
  { unfold v. apply Rmult_lt_0_compat; [apply IZR_lt; lia | apply pow2_pos]. }
  assert (P53 : 0 < pow2 (-53)) by apply pow2_pos.
  unfold binary_round. fold D.
  set (f := fexp prec emax (D + e)).
  assert (Hf : f = Z.max (D + e - 53) (-1074)) by reflexivity.
  destruct (Z_lt_le_dec f e) as [L|L].
  - (* fewer than 53 digits: the mantissa is shifted to the left *)
    destruct (shl_align_value M e f) as [A1 A2]; [lia|].
    destruct (shl_align M e f) as [mz ez]. cbn [fst snd] in A1, A2. subst ez.
    exists mz, f.
    assert (Dz : Zpos (digits2_pos mz) = (D + (e - f))%Z).
    { apply (digits2_shift M); [lia | exact A1]. }
    rewrite binary_round_aux_exact.
    + replace (f <=? emax - prec)%Z with true
        by (symmetry; apply Z.leb_le; unfold emax, prec; lia).
      split; [reflexivity|].
      rewrite A1, IZR_pow2 by lia. fold v.
      replace (v - v) with 0 by ring. rewrite Rabs_R0. nra.
    + rewrite Dz. replace (D + (e - f) + f)%Z with (D + e)%Z by lia.
      reflexivity.
  - assert (A : shl_align M e f = (M, e)).
    { unfold shl_align. destruct (f - e)%Z eqn:E; try reflexivity. lia. }
    rewrite A. destruct (Z.eq_dec f e) as [E|N].
    + exists M, e. rewrite binary_round_aux_exact by (fold D f; exact E).
      replace (e <=? emax - prec)%Z with true
        by (symmetry; apply Z.leb_le; unfold emax, prec; lia).
      split; [reflexivity|]. fold v.
      replace (v - v) with 0 by ring. rewrite Rabs_R0. nra.
    + destruct (binary_round_aux_normal false M e loc_Exact v)
        as (mf & ef & Hr & Bm & Be & Herr).
      * unfold rec_at. cbn [shr_record_of_loc shr_m shr_r shr_s].
        unfold v. ring.
      * fold D. lia.
      * fold D. lia.
      * fold D in Be, Herr. exists mf, ef.
        replace (ef <=? 971)%Z with true in Hr
          by (symmetry; apply Z.leb_le; lia).
        split; [exact Hr|].
        eapply Rle_trans; [exact Herr|].
        rewrite pow2_half.
        replace (D + e - 53 - 1)%Z with (D - 1 + e + -53)%Z by lia.
        rewrite pow2_add. apply Rmult_le_compat_r; lra.
Qed.


(** *** The operations on positive numbers *)

Lemma F2R_pos (x : float) (m : positive) (e : Z) :
  Prim2SF x = S754_finite false m e -> F2R x = IZR (Zpos m) * pow2 e.
Proof. intros Hx. unfold F2R. rewrite Hx. cbn [SF2R]. ring. Qed.

Lemma F2R_pos_lt (x : float) (m : positive) (e : Z) :
  Prim2SF x = S754_finite false m e -> 0 < F2R x.
Proof.
  intros Hx. rewrite (F2R_pos x m e Hx).
  apply Rmult_lt_0_compat; [apply IZR_lt; lia | apply pow2_pos].
Qed.

Lemma nonneg_F2R (x : float) : nonneg x -> 0 <= F2R x.
Proof.
  intros [Hx|(m & e & Hx)].
  - unfold F2R. rewrite Hx. simpl. lra.
  - pose proof (F2R_pos_lt x m e Hx). lra.
Qed.

Lemma add_pos_pos (x y : float) (mx my : positive) (ex ey : Z) :
  Prim2SF x = S754_finite false mx ex ->
  Prim2SF y = S754_finite false my ey ->
  F2R x + F2R y < pow2 1023 ->
  exists mz ez,
    Prim2SF (x + y) = S754_finite false mz ez
    /\ Rabs (F2R (x + y) - (F2R x + F2R y))
       <= (F2R x + F2R y) * pow2 (-53).
Proof.
  intros Hx Hy Hv.
  destruct (valid_pos x _ _ _ Hx) as [_ Bx].
  destruct (valid_pos y _ _ _ Hy) as [_ By].
  rewrite (F2R_pos x mx ex Hx), (F2R_pos y my ey Hy) in *.
  set (ez := Z.min ex ey).
  destruct (shl_align_value mx ex ez) as [Ax _]; [unfold ez; lia|].
  destruct (shl_align_value my ey ez) as [Ay _]; [unfold ez; lia|].
  assert (E : Prim2SF (x + y)
              = binary_round prec emax false
                  (fst (shl_align mx ex ez) + fst (shl_align my ey ez)) ez).
  { rewrite FloatAxioms.add_spec, Hx, Hy. reflexivity. }
  set (M := (fst (shl_align mx ex ez) + fst (shl_align my ey ez))%positive)
    in *.
  assert (HM : IZR (Zpos M) * pow2 ez
               = IZR (Zpos mx) * pow2 ex + IZR (Zpos my) * pow2 ey).
  { unfold M. rewrite Pos2Z.inj_add, plus_IZR, Ax, Ay.
    rewrite Rmult_plus_distr_r, !IZR_pow2 by (unfold ez; lia). reflexivity. }
  destruct (binary_round_pos M ez) as (mz & ezz & Hr & Herr).
  - unfold ez. lia.
  - rewrite HM. exact Hv.
  - exists mz, ezz. rewrite E. split; [exact Hr|].
    unfold F2R at 1. rewrite E, Hr. cbn [SF2R].
    rewrite HM in Herr.
    replace (1 * IZR (Zpos mz) * pow2 ezz) with (IZR (Zpos mz) * pow2 ezz)
      by ring.
    exact Herr.
Qed.

(** Adding two numbers that are zero or positive. *)
Lemma add_nonneg (x y : float) :
  nonneg x -> nonneg y -> F2R x + F2R y < pow2 1023 ->
  nonneg (x + y)
  /\ Rabs (F2R (x + y) - (F2R x + F2R y)) <= (F2R x + F2R y) * pow2 (-53).
Proof.
  intros Nx Ny Hv.
  pose proof (nonneg_F2R x Nx) as Px. pose proof (nonneg_F2R y Ny) as Py.
  pose proof (pow2_pos (-53)) as P.
  destruct Nx as [Hx|(mx & ex & Hx)], Ny as [Hy|(my & ey & Hy)].
  - assert (E : Prim2SF (x + y) = S754_zero false).
    { rewrite FloatAxioms.add_spec, Hx, Hy. reflexivity. }
    split; [left; exact E|].
    unfold F2R. rewrite E, Hx, Hy. cbn [SF2R].
    replace (0 - (0 + 0)) with 0 by ring. rewrite Rabs_R0. lra.
  - assert (E : Prim2SF (x + y) = Prim2SF y).
    { rewrite FloatAxioms.add_spec, Hx, Hy. reflexivity. }
    split; [right; exists my, ey; now rewrite E|].
    unfold F2R at 1 2 4. rewrite E, Hx. cbn [SF2R]. fold (F2R y).
    replace (F2R y - (0 + F2R y)) with 0 by ring. rewrite Rabs_R0. nra.
  - assert (E : Prim2SF (x + y) = Prim2SF x).
    { rewrite FloatAxioms.add_spec, Hx, Hy. reflexivity. }
    split; [right; exists mx, ex; now rewrite E|].
    unfold F2R at 1 3 5. rewrite E, Hy. cbn [SF2R]. fold (F2R x).
    replace (F2R x - (F2R x + 0)) with 0 by ring. rewrite Rabs_R0. nra.
  - destruct (add_pos_pos x y mx my ex ey Hx Hy Hv) as (mz & ez & E & Herr).
    split; [right; exists mz, ez; exact E | exact Herr].
Qed.

Lemma mul_pos_pos (x y : float) (mx my : positive) (ex ey : Z) :
  Prim2SF x = S754_finite false mx ex ->
  Prim2SF y = S754_finite false my ey ->
  Zpos (digits2_pos mx) = 53%Z -> Zpos (digits2_pos my) = 53%Z ->
  (-1126 <= ex + ey)%Z ->
  F2R x * F2R y < pow2 1023 ->
  exists mz ez,
    Prim2SF (x * y) = S754_finite false mz ez
    /\ Rabs (F2R (x * y) - F2R x * F2R y) <= F2R x * F2R y * pow2 (-53).
Proof.
  intros Hx Hy Dx Dy He Hv.
  rewrite (F2R_pos x mx ex Hx), (F2R_pos y my ey Hy) in *.
  assert (E : Prim2SF (x * y)
              = binary_round_aux prec emax false (Zpos (mx * my)) (ex + ey)
                                 loc_Exact).
  { rewrite FloatAxioms.mul_spec, Hx, Hy. reflexivity. }
  set (v := IZR (Zpos (mx * my)) * pow2 (ex + ey)).
  assert (Hvv : v = IZR (Zpos mx) * pow2 ex * (IZR (Zpos my) * pow2 ey)).
  { unfold v. rewrite Pos2Z.inj_mul, mult_IZR, pow2_add. ring. }
  rewrite <- Hvv in *.
  pose proof (digits2_bounds mx) as [Lx _]. rewrite Dx in Lx.
  pose proof (digits2_bounds my) as [Ly _]. rewrite Dy in Ly.
  pose proof (digits2_bounds (mx * my)) as [_ Um].
  destruct (value_digits (mx * my) (ex + ey)) as [Vlo _]. fold v in Vlo.
  set (d := Zpos (digits2_pos (mx * my))) in *.
  assert (Hd : (105 <= d)%Z).
  { destruct (Z_lt_le_dec d 105) as [L|L]; [|exact L].
    assert (2 ^ d <= 2 ^ 104)%Z by (apply Z.pow_le_mono_r; lia).
    assert (2 ^ 104 <= Zpos mx * Zpos my)%Z.
    { change (2 ^ 104)%Z with (2 ^ 52 * 2 ^ 52)%Z.
      apply Z.mul_le_mono_nonneg; lia. }
    rewrite Pos2Z.inj_mul in Um. lia. }
  assert (HD : (d - 1 + (ex + ey) < 1023)%Z).
  { destruct (Z_lt_le_dec (d - 1 + (ex + ey)) 1023) as [L|L]; [exact L|].
    apply pow2_le in L. lra. }
  destruct (binary_round_aux_normal false (mx * my) (ex + ey) loc_Exact v)
    as (mf & ef & Hr & Bm & Be & Herr).
  - unfold rec_at. cbn [shr_record_of_loc shr_m shr_r shr_s].
    unfold v. ring.
  - fold d. lia.
  - fold d. lia.
  - fold d in Be, Herr. exists mf, ef.
    replace (ef <=? 971)%Z with true in Hr
      by (symmetry; apply Z.leb_le; lia).
    rewrite E. split; [exact Hr|].
    unfold F2R. rewrite E, Hr. cbn [SF2R].
    replace (1 * IZR (Zpos mf) * pow2 ef) with (IZR (Zpos mf) * pow2 ef)
      by ring.
    eapply Rle_trans; [exact Herr|].
    rewrite pow2_half.
    replace (d + (ex + ey) - 53 - 1)%Z with (d - 1 + (ex + ey) + -53)%Z by lia.
    rewrite pow2_add. apply Rmult_le_compat_r; [|exact Vlo].
    pose proof (pow2_pos (-53)). lra.
Qed.


(** The place of a quotient between two mantissas, from the remainder. *)
Lemma new_location_at (nb r q : Z) (e : Z) :
  (0 < nb)%Z -> (0 <= r < nb)%Z ->
  rec_at (shr_record_of_loc q (new_location nb r)) e
         ((IZR q + IZR r / IZR nb) * pow2 e).
Proof.
  intros Hnb Hr. pose proof (pow2_pos e) as P.
  assert (Bnb : 0 < IZR nb) by (apply IZR_lt; lia).
  set (rho := IZR r / IZR nb).
  assert (Erho : rho * IZR nb = IZR r) by (unfold rho; field; lra).
  clearbody rho.
  assert (Br : 0 <= IZR r < IZR nb) by (split; [apply IZR_le | apply IZR_lt]; lia).
  unfold new_location.
  destruct (Z.even nb) eqn:Ev;
    [unfold new_location_even | unfold new_location_odd];
    destruct (r =? 0)%Z eqn:Er.
  - apply Z.eqb_eq in Er. rewrite Er in Erho.
    assert (rho = 0) by nra.
    unfold rec_at; cbn [shr_record_of_loc shr_m shr_r shr_s]. nra.
  - apply Z.eqb_neq in Er.
    assert (0 < IZR r) by (apply IZR_lt; lia).
    assert (0 < rho) by nra.
    destruct (Z.compare_spec (2 * r) nb) as [Q|Q|Q];
      [apply (f_equal IZR) in Q | apply IZR_lt in Q | apply IZR_lt in Q];
      rewrite mult_IZR in Q; unfold rec_at;
      cbn [shr_record_of_loc shr_m shr_r shr_s]; nra.
  - apply Z.eqb_eq in Er. rewrite Er in Erho.
    assert (rho = 0) by nra.
    unfold rec_at; cbn [shr_record_of_loc shr_m shr_r shr_s]. nra.
  - apply Z.eqb_neq in Er.
    assert (0 < IZR r) by (apply IZR_lt; lia).
    assert (0 < rho) by nra.
    assert (Odd : (2 * r <> nb)%Z).
    { intros <-. rewrite Z.even_mul in Ev. discriminate Ev. }
    destruct (Z.compare_spec (2 * r + 1) nb) as [Q|Q|Q].
    + assert (Q' : (2 * r < nb)%Z) by lia. apply IZR_lt in Q'.
      rewrite mult_IZR in Q'. unfold rec_at.
      cbn [shr_record_of_loc shr_m shr_r shr_s]. nra.
    + assert (Q' : (2 * r < nb)%Z) by lia. apply IZR_lt in Q'.
      rewrite mult_IZR in Q'. unfold rec_at.
      cbn [shr_record_of_loc shr_m shr_r shr_s]. nra.
    + assert (Q' : (nb < 2 * r)%Z) by lia. apply IZR_lt in Q'.
      rewrite mult_IZR in Q'. unfold rec_at.
      cbn [shr_record_of_loc shr_m shr_r shr_s]. nra.
Qed.

Lemma Prim2SF_one : Prim2SF 1%float = S754_finite false 4503599627370496 (-52).
Proof. reflexivity. Qed.

(** The quotient of 1.0 by a positive normal number. *)
Lemma div_one_pos (y : float) (my : positive) (ey : Z) :
  Prim2SF y = S754_finite false my ey ->
  Zpos (digits2_pos my) = 53%Z -> (ey <= 900)%Z ->
  exists mz ez,
    Prim2SF (1 / y) = S754_finite false mz ez
    /\ Zpos (digits2_pos mz) = 53%Z
    /\ (-105 - ey <= ez <= -103 - ey)%Z
    /\ Rabs (F2R (1 / y) - / F2R y) <= / F2R y * pow2 (-53).
Proof.
  intros Hy Dy He.
  destruct (valid_pos y _ _ _ Hy) as [_ By].
  pose proof (digits2_bounds my) as [Ly Uy]. rewrite Dy in Ly, Uy.
  rewrite (F2R_pos y my ey Hy).
  destruct (Z.div_eucl (2 ^ 105) (Zpos my)) as [q r] eqn:Ediv.
  pose proof (Z_div_mod (2 ^ 105) (Zpos my) ltac:(lia)) as Hdm.
  rewrite Ediv in Hdm. destruct Hdm as [Hq Hr].
  assert (E : Prim2SF (1 / y)
              = binary_round_aux prec emax false q (-105 - ey)
                  (new_location (Zpos my) r)).
  { rewrite FloatAxioms.div_spec, Hy, Prim2SF_one.
    unfold SF64div, SFdiv, SFdiv_core_binary. cbn [Zdigits2].
    change (Zpos (digits2_pos 4503599627370496)) with 53%Z. rewrite Dy.
    replace (Z.min (fexp prec emax (53 + -52 - (53 + ey))) (-52 - ey))
      with (-105 - ey)%Z by (unfold fexp, emin, prec, emax; lia).
    replace (-52 - ey - (-105 - ey))%Z with 53%Z by lia.
    change (Z.shiftl 4503599627370496 53) with (2 ^ 105)%Z.
    rewrite Ediv. reflexivity. }
  assert (Bq : (2 ^ 52 <= q <= 2 ^ 53)%Z).
  { split.
    - destruct (Z_lt_le_dec q (2 ^ 52)) as [L|L]; [|exact L].
      assert (Zpos my * q <= Zpos my * (2 ^ 52 - 1))%Z
        by (apply Z.mul_le_mono_nonneg_l; lia).
      assert (Zpos my * (2 ^ 52 - 1) + Zpos my <= 2 ^ 53 * 2 ^ 52)%Z.
      { replace (Zpos my * (2 ^ 52 - 1) + Zpos my)%Z
          with (Zpos my * 2 ^ 52)%Z by ring.
        apply Z.mul_le_mono_nonneg_r; lia. }
      change (2 ^ 105)%Z with (2 ^ 53 * 2 ^ 52)%Z in Hq. lia.
    - destruct (Z_lt_le_dec (2 ^ 53) q) as [L|L]; [|exact L].
      assert (2 ^ 52 * (2 ^ 53 + 1) <= Zpos my * q)%Z
        by (apply Z.mul_le_mono_nonneg; lia).
      change (2 ^ 105)%Z with (2 ^ 52 * 2 ^ 53)%Z in Hq. lia. }
  destruct q as [|qp|qp]; [lia| |lia].
  set (e' := (-105 - ey)%Z) in *.
  set (v := (IZR (Zpos qp) + IZR r / IZR (Zpos my)) * pow2 e').
  assert (Bm : 0 < IZR (Zpos my)) by (apply IZR_lt; lia).
  assert (Hv : v = / (IZR (Zpos my) * pow2 ey)).
  { unfold v.
    assert (Q : IZR (Zpos qp) + IZR r / IZR (Zpos my)
                = IZR (2 ^ 105) / IZR (Zpos my)).
    { rewrite Hq, plus_IZR, mult_IZR. field. lra. }
    rewrite Q, <- (pow2_IZR 105) by lia.
    pose proof (pow2_pos ey) as Pe.
    assert (X : pow2 105 * pow2 e' * pow2 ey = 1).
    { rewrite <- !pow2_add. unfold e'.
      replace (105 + (-105 - ey) + ey)%Z with 0%Z by lia. reflexivity. }
    field_simplify_eq; [|lra]. nra. }
  pose proof (digits2_bounds qp) as [Lq Uq].
  set (d := Zpos (digits2_pos qp)) in *.
  assert (Hd : (53 <= d <= 54)%Z).
  { split.
    - destruct (Z_lt_le_dec d 53) as [L|L]; [|exact L].
      assert (2 ^ d <= 2 ^ 52)%Z by (apply Z.pow_le_mono_r; lia). lia.
    - destruct (Z_lt_le_dec 54 d) as [L|L]; [|exact L].
      assert (2 ^ 54 <= 2 ^ (d - 1))%Z by (apply Z.pow_le_mono_r; lia).
      lia. }
  destruct (binary_round_aux_normal false qp e' (new_location (Zpos my) r) v)
    as (mf & ef & Hres & Bmf & Be & Herr).
  - apply new_location_at; lia.
  - fold d. lia.
  - fold d. unfold e'. lia.
  - fold d in Be, Herr. exists mf, ef.
    replace (ef <=? 971)%Z with true in Hres
      by (symmetry; apply Z.leb_le; unfold e' in Be; lia).
    rewrite E. split; [exact Hres|].
    split; [apply digits2_unique; exact Bmf|].
    split; [unfold e' in Be; lia|].
    unfold F2R. rewrite E, Hres. cbn [SF2R].
    replace (1 * IZR (Zpos mf) * pow2 ef) with (IZR (Zpos mf) * pow2 ef)
      by ring.
    rewrite <- Hv.
    eapply Rle_trans; [exact Herr|].
    rewrite pow2_half.
    replace (d + e' - 53 - 1)%Z with (d - 1 + e' + -53)%Z by lia.
    rewrite pow2_add. apply Rmult_le_compat_r.
    + pose proof (pow2_pos (-53)). lra.
    + destruct (value_digits qp e') as [Vlo _]. fold d in Vlo.
      eapply Rle_trans; [exact Vlo|]. unfold v.
      assert (0 <= IZR r / IZR (Zpos my)).
      { apply Rmult_le_pos; [apply IZR_le; lia|].
        apply Rlt_le, Rinv_0_lt_compat. exact Bm. }
      pose proof (pow2_pos e'). nra.
Qed.


(** *** Sums *)

Lemma u_value : u53 = / 9007199254740992.
Proof. unfold pow2. simpl. lra. Qed.

Lemma pow_le_one (x : R) (n : nat) : 0 <= x <= 1 -> 0 <= x ^ n <= 1.
Proof.
  intros Hx. induction n as [|n IH]; simpl; [lra|]. nra.
Qed.

Lemma pow_ge_one (x : R) (n : nat) : 1 <= x -> 1 <= x ^ n.
Proof.
  intros Hx. induction n as [|n IH]; simpl; [lra|]. nra.
Qed.

Lemma bernoulli (x : R) (n : nat) :
  0 <= x <= 1 -> 1 - INR n * x <= (1 - x) ^ n.
Proof.
  intros Hx. induction n as [|n IH].
  - simpl. lra.
  - rewrite S_INR. simpl pow.
    pose proof (pow_le_one (1 - x) n ltac:(lra)) as [P0 P1].
    pose proof (pos_INR n). nra.
Qed.

Lemma pow_conj (x : R) (n : nat) :
  0 <= x <= 1 -> (1 - x) ^ n * (1 + x) ^ n <= 1.
Proof.
  intros Hx. rewrite <- Rpow_mult_distr.
  apply (pow_le_one ((1 - x) * (1 + x)) n). nra.
Qed.

Lemma u_bounds : 0 < u53 < / 2.
Proof. rewrite u_value. lra. Qed.

(** The left fold of binary64 additions over numbers that are zero or
    positive: each addition loses at most one part in 2^53. *)
Lemma fold_add_bounds (xs : list float) :
  forall (acc : float) (A : R) (k : nat),
    nonneg acc -> Forall nonneg xs -> 0 <= A ->
    A * (1 - u53) ^ k <= F2R acc <= A * (1 + u53) ^ k ->
    (A + exact_sum xs) * (1 + u53) ^ (k + List.length xs) < pow2 1023 ->
    nonneg (fold_left PrimFloat.add xs acc)
    /\ (A + exact_sum xs) * (1 - u53) ^ (k + List.length xs)
       <= F2R (fold_left PrimFloat.add xs acc)
       <= (A + exact_sum xs) * (1 + u53) ^ (k + List.length xs).
Proof.
  pose proof u_bounds as Hu.
  induction xs as [|x xs IH]; intros acc A k Nacc Nxs HA Hacc Hov.
  - cbn [fold_left exact_sum fold_right List.length] in *.
    rewrite Nat.add_0_r in *. rewrite Rplus_0_r in *. auto.
  - inversion Nxs as [|? ? Nx Nxs']; subst.
    cbn [fold_left exact_sum fold_right List.length] in *.
    fold (exact_sum xs) in *.
    pose proof (nonneg_F2R x Nx) as Px.
    assert (Ps : 0 <= exact_sum xs).
    { clear -Nxs'. induction Nxs' as [|y ys Ny _ IHs]; cbn; [lra|].
      pose proof (nonneg_F2R y Ny). fold (exact_sum ys). lra. }
    replace (k + S (List.length xs))%nat with (S k + List.length xs)%nat
      in * by lia.
    pose proof (pow_le_one (1 - u53) k ltac:(lra)) as [p0 p1].
    pose proof (pow_ge_one (1 + u53) k ltac:(lra)) as q1.
    pose proof (pow_ge_one (1 + u53) (S k + List.length xs) ltac:(lra)) as q2.
    assert (Mono : (1 + u53) ^ S k <= (1 + u53) ^ (S k + List.length xs)).
    { apply Rle_pow; [lra | lia]. }
    cbn [pow] in Mono.
    set (P := (1 + u53) ^ k) in *. set (p := (1 - u53) ^ k) in *.
    set (Q := (1 + u53) ^ (S k + List.length xs)) in *.
    assert (EP : (1 + u53) ^ S k = (1 + u53) * P) by reflexivity.
    assert (Ep : (1 - u53) ^ S k = (1 - u53) * p) by reflexivity.
    assert (EQ : (1 + u53) ^ (S k + List.length xs) = Q) by reflexivity.
    clearbody P p Q.
    assert (S1 : F2R acc + F2R x <= (A + F2R x) * P) by nra.
    assert (S2 : (A + F2R x) * P <= (A + F2R x) * Q).
    { apply Rmult_le_compat_l; [lra|]. nra. }
    assert (S3 : (A + F2R x) * Q <= (A + (F2R x + exact_sum xs)) * Q) by nra.
    destruct (add_nonneg acc x Nacc Nx) as [Nacc' Herr]; [lra|].
    apply Rabs_le_inv in Herr.
    assert (L1 : (A + F2R x) * p <= F2R acc + F2R x) by nra.
    assert (L2 : (A + F2R x) * p * (1 - u53) <= (F2R acc + F2R x) * (1 - u53)).
    { apply Rmult_le_compat_r; lra. }
    assert (U2 : (F2R acc + F2R x) * (1 + u53) <= (A + F2R x) * P * (1 + u53)).
    { apply Rmult_le_compat_r; lra. }
    replace (A + (F2R x + exact_sum xs)) with (A + F2R x + exact_sum xs)
      in * by ring.
    destruct (IH (acc + x)%float (A + F2R x) (S k) Nacc' Nxs') as [N B].
    + lra.
    + rewrite EP, Ep. lra.
    + rewrite EQ. exact Hov.
    + rewrite EQ in B. split; [exact N | exact B].
Qed.


Lemma pow2_lt_inv (a b : Z) : pow2 a < pow2 b -> (a < b)%Z.
Proof.
  intros H. destruct (Z_lt_le_dec a b) as [L|L]; [exact L|].
  apply pow2_le in L. lra.
Qed.

(** A number of at least 2^-1021 has a full mantissa. *)
Lemma normal_of_value (x : float) (m : positive) (e : Z) :
  Prim2SF x = S754_finite false m e ->
  pow2 (-1021) <= F2R x ->
  Zpos (digits2_pos m) = 53%Z.
Proof.
  intros Hx Hv. destruct (valid_pos x _ _ _ Hx) as [C B].
  rewrite (F2R_pos x m e Hx) in Hv.
  destruct (value_digits m e) as [_ Vhi].
  assert (L : (-1021 < Zpos (digits2_pos m) + e)%Z).
  { apply pow2_lt_inv. lra. }
  unfold fexp, emin, prec, emax in C. lia.
Qed.

Lemma exponent_of_value (x : float) (m : positive) (e : Z) (a b : Z) :
  Prim2SF x = S754_finite false m e ->
  Zpos (digits2_pos m) = 53%Z ->
  pow2 a <= F2R x < pow2 b ->
  (a - 53 < e < b - 52)%Z.
Proof.
  intros Hx Hd [Ha Hb]. rewrite (F2R_pos x m e Hx) in Ha, Hb.
  destruct (value_digits m e) as [Vlo Vhi]. rewrite Hd in Vlo, Vhi.
  assert (a < 53 + e)%Z by (apply pow2_lt_inv; lra).
  assert (53 - 1 + e < b)%Z by (apply pow2_lt_inv; lra).
  lia.
Qed.

Lemma well_scaled_spec (f : float) :
  well_scaled f = true ->
  exists m e,
    Prim2SF f = S754_finite false m e
    /\ Zpos (digits2_pos m) = 53%Z
    /\ (-500 <= e <= 400)%Z
    /\ pow2 (-448) <= F2R f < pow2 453.
Proof.
  unfold well_scaled. destruct (Prim2SF f) as [| | |[|] m e] eqn:Hf;
    try discriminate.
  intros H. apply andb_true_iff in H. destruct H as [H1 H2].
  apply Z.leb_le in H1, H2.
  destruct (valid_pos f _ _ _ Hf) as [C B].
  assert (Hd : Zpos (digits2_pos m) = 53%Z).
  { unfold fexp, emin, prec, emax in C. lia. }
  exists m, e. repeat split; auto.
  - rewrite (F2R_pos f m e Hf).
    destruct (value_digits m e) as [Vlo _]. rewrite Hd in Vlo.
    eapply Rle_trans; [|exact Vlo]. apply pow2_le. lia.
  - rewrite (F2R_pos f m e Hf).
    destruct (value_digits m e) as [_ Vhi]. rewrite Hd in Vhi.
    eapply Rlt_le_trans; [exact Vhi|]. apply pow2_le. lia.
Qed.

Lemma well_scaled_nonneg (fs : list float) :
  Forall (fun f => well_scaled f = true) fs -> Forall nonneg fs.
Proof.
  intros H. induction H as [|f fs Hf _ IH]; constructor; auto.
  destruct (well_scaled_spec f Hf) as (m & e & Hp & _). right. eauto.
Qed.

Lemma exact_sum_bounds (fs : list float) :
  Forall (fun f => well_scaled f = true) fs -> fs <> [] ->
  pow2 (-448) <= exact_sum fs
  /\ exact_sum fs <= INR (List.length fs) * pow2 453.
Proof.
  intros H. pose proof (pow2_pos (-448)) as P1.
  pose proof (pow2_pos 453) as P2.
  assert (G : 0 <= exact_sum fs
              /\ (fs <> [] -> pow2 (-448) <= exact_sum fs)
              /\ exact_sum fs <= INR (List.length fs) * pow2 453).
  { induction H as [|f fs Hf _ IH].
    - cbn. split; [lra|]. split; [congruence|lra].
    - destruct (well_scaled_spec f Hf) as (m & e & _ & _ & _ & Bf).
      destruct IH as (I0 & _ & I2).
      cbn [exact_sum fold_right List.length]. fold (exact_sum fs).
      rewrite S_INR. split; [lra|]. split; [intros _; lra|]. lra. }
  intros Hne. destruct G as (_ & G1 & G2). split; auto.
Qed.

(** The column multiplied by a positive normal number [c]. *)
Lemma scaled_column (c : float) (mc : positive) (ec : Z) (fs : list float) :
  Prim2SF c = S754_finite false mc ec ->
  Zpos (digits2_pos mc) = 53%Z ->
  (-600 <= ec <= 500)%Z ->
  Forall (fun f => well_scaled f = true) fs ->
  let gs := List.map (fun f => (f * c)%float) fs in
  Forall nonneg gs
  /\ exact_sum fs * F2R c * (1 - u53) <= exact_sum gs
     <= exact_sum fs * F2R c * (1 + u53).
Proof.
  intros Hc Dc Bc H. pose proof u_bounds as Hu.
  pose proof (F2R_pos_lt c mc ec Hc) as Pc.
  assert (Vc : F2R c < pow2 554).
  { rewrite (F2R_pos c mc ec Hc).
    destruct (value_digits mc ec) as [_ Vhi]. rewrite Dc in Vhi.
    eapply Rlt_le_trans; [exact Vhi|]. apply pow2_le. lia. }
  induction H as [|f fs Hf _ IH]; cbn [List.map exact_sum fold_right].
  - split; [constructor|]. lra.
  - destruct IH as [IH1 IH2].
    fold (exact_sum fs) in *.
    fold (exact_sum (List.map (fun f => (f * c)%float) fs)) in *.
    destruct (well_scaled_spec f Hf) as (m & e & Hp & Hd & He & Bf).
    pose proof (pow2_pos (-448)) as P448.
    destruct (mul_pos_pos f c m mc e ec Hp Hc Hd Dc) as (mz & ez & Hz & Herr).
    + lia.
    + apply Rlt_le_trans with (pow2 453 * pow2 554).
      * apply Rmult_le_0_lt_compat; lra.
      * rewrite <- pow2_add. apply pow2_le. lia.
    + apply Rabs_le_inv in Herr. split.
      * constructor; [right; eauto | exact IH1].
      * lra.
Qed.


Lemma eta_value : pow2 (-32) = / 4294967296.
Proof. unfold pow2. simpl. lra. Qed.

Lemma length_INR (fs : list float) :
  (Z.of_nat (List.length fs) <= 1048576)%Z ->
  INR (List.length fs) <= 1048576.
Proof. intros H. rewrite INR_IZR_INZ. now apply IZR_le. Qed.

(** The powers of the rounding factors over a column of at most 2^20
    rows. *)
Lemma factor_bounds (n : nat) :
  INR n <= 1048576 ->
  1 - / 8589934592 <= (1 - u53) ^ n
  /\ (1 - u53) ^ n <= 1
  /\ 1 <= (1 + u53) ^ n
  /\ (1 + u53) ^ n * (1 - / 8589934592) <= 1.
Proof.
  intros Hn. pose proof u_bounds as Hu.
  pose proof (bernoulli u53 n ltac:(lra)) as B.
  pose proof (pow_le_one (1 - u53) n ltac:(lra)) as [a0 a1].
  pose proof (pow_ge_one (1 + u53) n ltac:(lra)) as b1.
  pose proof (pow_conj u53 n ltac:(lra)) as C.
  assert (A : 1 - / 8589934592 <= (1 - u53) ^ n).
  { eapply Rle_trans; [|exact B]. rewrite u_value.
    pose proof (pos_INR n). lra. }
  set (a := (1 - u53) ^ n) in *. set (b := (1 + u53) ^ n) in *.
  clearbody a b. repeat split; try lra.
  apply Rle_trans with (b * a); [|lra].
  apply Rmult_le_compat_l; lra.
Qed.

(** The sum from left to right is such a total. *)
Lemma left_sum_accurate (fs : list float) :
  Forall (fun f => well_scaled f = true) fs -> fs <> [] ->
  (Z.of_nat (List.length fs) <= 1048576)%Z ->
  accurate_total (fold_left PrimFloat.add fs 0%float) fs.
Proof.
  intros Hws Hne Hlen.
  destruct (exact_sum_bounds fs Hws Hne) as [X1 X2].
  pose proof (length_INR fs Hlen) as Hn.
  destruct (factor_bounds _ Hn) as (a1 & a2 & b1 & b2).
  pose proof (pow2_pos (-448)) as P1. pose proof (pow2_pos 453) as P2.
  set (X := exact_sum fs) in *.
  assert (X3 : X <= pow2 473).
  { replace 473%Z with (20 + 453)%Z by lia. rewrite pow2_add.
    rewrite (pow2_IZR 20) by lia. change (2 ^ 20)%Z with 1048576%Z.
    eapply Rle_trans; [exact X2|]. apply Rmult_le_compat_r; lra. }
  assert (B2 : (1 + u53) ^ List.length fs <= 2).
  { set (b := (1 + u53) ^ List.length fs) in *. clearbody b. lra. }
  destruct (fold_add_bounds fs 0%float 0 0) as [N B].
  - left. reflexivity.
  - now apply well_scaled_nonneg.
  - lra.
  - unfold F2R. simpl. lra.
  - rewrite Rplus_0_l. cbn [Nat.add]. fold X.
    apply Rle_lt_trans with (pow2 473 * 2).
    + apply Rmult_le_compat; lra.
    + apply Rlt_le_trans with (pow2 475).
      * replace 475%Z with (473 + 1 + 1)%Z by lia. rewrite !pow2_succ.
        pose proof (pow2_pos 473). lra.
      * apply pow2_le. lia.
  - rewrite Rplus_0_l in B. cbn [Nat.add] in B. fold X in B.
    set (s := fold_left PrimFloat.add fs 0%float) in *.
    set (a := (1 - u53) ^ List.length fs) in *.
    set (b := (1 + u53) ^ List.length fs) in *. clearbody a b.
    unfold accurate_total. fold X s. rewrite eta_value.
    assert (Lo : X * (1 - / 4294967296) <= F2R s).
    { apply Rle_trans with (X * a); [|lra].
      apply Rmult_le_compat_l; lra. }
    assert (Hi : F2R s <= X * (1 + / 4294967296)).
    { apply Rle_trans with (X * b); [lra|].
      apply Rmult_le_compat_l; [lra|]. lra. }
    split; [|split; assumption].
    destruct N as [Z|(m & e & E)]; [|eauto].
    exfalso. unfold F2R in Lo. rewrite Z in Lo. cbn [SF2R] in Lo. nra.
Qed.

(** The rescaled column adds up to one within 1e-9, exactly and from left
    to right in binary64. *)
Lemma rescaled_sum (fs : list float) (total : float) :
  Forall (fun f => well_scaled f = true) fs -> fs <> [] ->
  (Z.of_nat (List.length fs) <= 1048576)%Z ->
  accurate_total total fs ->
  let gs := List.map (fun f => (f * (1 / total))%float) fs in
  Rabs (exact_sum gs - 1) <= / 1000000000
  /\ Rabs (F2R (fold_left PrimFloat.add gs 0%float) - 1) <= / 1000000000.
Proof.
  intros Hws Hne Hlen [(mS & eS & HS) Hacc] gs.
  destruct (exact_sum_bounds fs Hws Hne) as [X1 X2].
  pose proof (length_INR fs Hlen) as Hn.
  pose proof (pow2_pos (-448)) as P1. pose proof (pow2_pos 453) as P2.
  pose proof u_bounds as Hu.
  set (X := exact_sum fs) in *. rewrite eta_value in Hacc.
  assert (X3 : X <= pow2 473).
  { replace 473%Z with (20 + 453)%Z by lia. rewrite pow2_add.
    rewrite (pow2_IZR 20) by lia. change (2 ^ 20)%Z with 1048576%Z.
    eapply Rle_trans; [exact X2|]. apply Rmult_le_compat_r; lra. }
  set (St := F2R total) in *.
  assert (S1 : pow2 (-449) <= St).
  { replace (-448)%Z with (-449 + 1)%Z in X1, P1 by lia.
    rewrite pow2_succ in X1, P1. nra. }
  assert (S2 : St < pow2 475).
  { replace 475%Z with (473 + 1 + 1)%Z by lia. rewrite !pow2_succ.
    pose proof (pow2_pos 473). nra. }
  assert (DS : Zpos (digits2_pos mS) = 53%Z).
  { apply (normal_of_value total mS eS HS). fold St.
    eapply Rle_trans; [|exact S1]. apply pow2_le. lia. }
  pose proof (exponent_of_value total mS eS (-449) 475 HS DS
                (conj S1 S2)) as BeS.
  destruct (div_one_pos total mS eS HS DS) as (mc & ec & Hc & Dc & Bec & Herr);
    [lia|].
  fold St in Herr. set (c := (1 / total)%float) in *.
  destruct (scaled_column c mc ec fs Hc Dc ltac:(lia) Hws) as [Ng HG].
  fold gs in Ng, HG. fold X in HG.
  set (C := F2R c) in *. set (G := exact_sum gs) in *.
  assert (PS : 0 < St) by (pose proof (pow2_pos (-449)); lra).
  assert (HCS : 1 - u53 <= C * St <= 1 + u53).
  { apply Rabs_le_inv in Herr.
    assert (I : / St * St = 1) by (field; lra).
    set (iS := / St) in *. clearbody iS. nra. }
  assert (PC : 0 < C).
  { destruct (Rle_or_lt C 0) as [L|L]; [|exact L]. nra. }
  assert (PX : 0 < X) by lra.
  assert (G1 : G * (1 - / 4294967296) <= (1 + u53) * (1 + u53)).
  { apply Rle_trans with (X * C * (1 + u53) * (1 - / 4294967296)).
    - apply Rmult_le_compat_r; lra.
    - replace (X * C * (1 + u53) * (1 - / 4294967296))
        with (X * (1 - / 4294967296) * C * (1 + u53)) by ring.
      apply Rle_trans with (St * C * (1 + u53)).
      + apply Rmult_le_compat_r; [lra|].
        apply Rmult_le_compat_r; lra.
      + apply Rmult_le_compat_r; lra. }
  assert (G2 : (1 - u53) * (1 - u53) <= G * (1 + / 4294967296)).
  { apply Rle_trans with (X * C * (1 - u53) * (1 + / 4294967296)).
    - replace (X * C * (1 - u53) * (1 + / 4294967296))
        with (X * (1 + / 4294967296) * C * (1 - u53)) by ring.
      apply Rle_trans with (St * C * (1 - u53)).
      + apply Rmult_le_compat_r; lra.
      + apply Rmult_le_compat_r; [lra|].
        apply Rmult_le_compat_r; lra.
    - apply Rmult_le_compat_r; lra. }
  rewrite u_value in G1, G2.
  assert (GB : 1 - / 2000000000 <= G <= 1 + / 2000000000) by lra.
  split; [apply Rabs_le; lra|].
  destruct (factor_bounds _ Hn) as (a1 & a2 & b1 & b2).
  assert (B2 : (1 + u53) ^ List.length fs <= 2).
  { set (b := (1 + u53) ^ List.length fs) in *. clearbody b. lra. }
  assert (Lg : List.length gs = List.length fs) by apply length_map.
  destruct (fold_add_bounds gs 0%float 0 0) as [N B].
  - left. reflexivity.
  - exact Ng.
  - lra.
  - unfold F2R. simpl. lra.
  - rewrite Rplus_0_l, Lg. cbn [Nat.add]. fold G.
    apply Rle_lt_trans with (2 * 2).
    + apply Rmult_le_compat; lra.
    + apply Rlt_le_trans with (pow2 3).
      * rewrite (pow2_IZR 3) by lia. simpl. lra.
      * apply pow2_le. lia.
  - rewrite Rplus_0_l, Lg in B. cbn [Nat.add] in B. fold G in B.
    set (s := F2R (fold_left PrimFloat.add gs 0%float)) in *.
    set (a := (1 - u53) ^ List.length fs) in *.
    set (b := (1 + u53) ^ List.length fs) in *. clearbody a b s.
    assert (Lo : G * (1 - / 8589934592) <= s).
    { apply Rle_trans with (G * a); [|lra].
      apply Rmult_le_compat_l; lra. }
    assert (Hi : s * (1 - / 8589934592) <= G).
    { apply Rle_trans with (G * b * (1 - / 8589934592)).
      - apply Rmult_le_compat_r; lra.
      - rewrite Rmult_assoc. rewrite <- (Rmult_1_r G) at 2.
        apply Rmult_le_compat_l; lra. }
    apply Rabs_le. lra.
Qed.

End Rounding.

(** *** Exact rationals *)

Lemma Qsum_scaled (c : Q) (fs : list Q) :
  forall a b : Q,
    (a == b * c)%Q ->
    (fold_left Qplus (List.map (fun f => f * c)%Q fs) a
     == fold_left Qplus fs b * c)%Q.
Proof.
  induction fs as [|f fs IH]; simpl; intros a b E; auto.
  apply IH. rewrite E. ring.
Qed.

(** In exact arithmetic the rescaled fractions add up to one. *)
Lemma Qsum_rescaled (fs : list Q) :
  ~ (n_sum fs == 0)%Q ->
  (n_sum (List.map (fun f => n_mul f (1 / n_sum fs)%Q) fs) == 1)%Q.
Proof.
  intros Hnz. unfold n_sum. simpl n_add. simpl n_zero. simpl n_mul.
  rewrite (Qsum_scaled (1 / fold_left Qplus fs 0)%Q fs 0%Q 0%Q) by ring.
  unfold n_sum in Hnz. simpl in Hnz. field. exact Hnz.
Qed.

(** *** Rescaling, and the zero sum *)

Import Table Portfolio.

(** The tolerance test over exact rationals. *)
Lemma Q_weight_valid (total : Q) :
  weight_invalid total = false
  <-> (98 # 100 < total)%Q /\ (total < 102 # 100)%Q.
Proof.
  unfold weight_invalid. simpl n_lt. simpl n_lo. simpl n_hi.
  rewrite negb_false_iff, andb_true_iff, !negb_true_iff.
  assert (L : forall x y : Q, Qle_bool y x = false <-> (x < y)%Q).
  { intros x y. rewrite <- not_true_iff_false, Qle_bool_iff.
    split; [apply Qnot_le_lt | apply Qlt_not_le]. }
  now rewrite !L.
Qed.

(** A positive finite total is above zero and not zero. *)
Lemma accurate_total_pos (total : float) (fs : list float) :
  accurate_total total fs ->
  PrimFloat.ltb 0%float total = true /\ PrimFloat.eqb total 0%float = false.
Proof.
  intros [(m & e & E) _].
  rewrite FloatAxioms.ltb_spec, FloatAxioms.eqb_spec, float_zero_SF, E.
  split; reflexivity.
Qed.

(** C6, as the code has it.  On binary64, whatever way the interpreter's
    [sum] adds the column up, for a total S > 0
    [normalize_holdings_table] returns the table with every fraction
    multiplied by the binary64 quotient 1/S, and logs the one error record
    exactly when S is not strictly between 0.98 and 1.02; it returns in
    both cases.  When the column has at most 2^20 rows, every fraction is a
    positive normal number between 2^-448 and 2^453, and the total is
    within one part in 2^32 of the exact sum, as the total added from left
    to right is, the rescaled column adds up to 1.0 within 1e-9, both
    exactly and when added from left to right in binary64.  Over exact
    numbers the rescaled column adds up to one.  (Outside these bounds the
    binary64 column need not add up to one within 1e-9.) *)
Theorem normalize_holdings_table_rescales :
  (forall (sum : list float -> float) (tbl : Table float) (fs : list float),
      sum [] = 0%float ->
      fractions tbl = Ok fs ->
      PrimFloat.ltb 0%float (sum fs) = true ->
      exists tbl',
        normalize_holdings_table_with sum tbl
        = ((if PrimFloat.ltb 0.98%float (sum fs)
               && PrimFloat.ltb (sum fs) 1.02%float
            then []
            else [LogError (TextNum "Total weight seems invalid: %s" (sum fs))]),
           Ok tbl')
        /\ columns tbl' = columns tbl
        /\ fractions tbl'
           = Ok (List.map (fun f => PrimFloat.mul f (PrimFloat.div 1%float (sum fs)))
                          fs))
  /\ (forall (sum : list float -> float) (tbl : Table float) (fs : list float),
         fractions tbl = Ok fs ->
         fs <> [] ->
         Forall (fun f => well_scaled f = true) fs ->
         (Z.of_nat (List.length fs) <= 1048576)%Z ->
         accurate_total (sum fs) fs ->
         let gs := List.map (fun f => PrimFloat.mul f
                                        (PrimFloat.div 1%float (sum fs))) fs in
         PrimFloat.ltb 0%float (sum fs) = true
         /\ (exists tbl',
               outcome (normalize_holdings_table_with sum tbl) = Ok tbl'
               /\ fractions tbl' = Ok gs)
         /\ (Rabs (exact_sum gs - 1) <= / 1000000000)%R
         /\ (Rabs (F2R (n_sum gs) - 1) <= / 1000000000)%R)
  /\ (forall fs : list float,
         fs <> [] ->
         Forall (fun f => well_scaled f = true) fs ->
         (Z.of_nat (List.length fs) <= 1048576)%Z ->
         accurate_total (n_sum fs) fs)
  /\ (forall (tbl : Table Q) (fs : list Q),
         fractions tbl = Ok fs ->
         (0 < n_sum fs)%Q ->
         exists tbl',
           normalize_holdings_table tbl
           = ((if weight_invalid (n_sum fs)
               then [LogError (TextNum "Total weight seems invalid: %s"
                                       (n_sum fs))]
               else []),
              Ok tbl')
           /\ (weight_invalid (n_sum fs) = false
               <-> (98 # 100 < n_sum fs)%Q /\ (n_sum fs < 102 # 100)%Q)
           /\ columns tbl' = columns tbl
           /\ fractions tbl'
              = Ok (List.map (fun f => (f * (1 / n_sum fs))%Q) fs)
           /\ (n_sum (List.map (fun f => (f * (1 / n_sum fs))%Q) fs) == 1)%Q).
Proof.
  split; [|split; [|split]].
  - intros sum tbl fs Hnil Hf Hpos.
    assert (Hne : fs <> []).
    { intros ->. rewrite Hnil in Hpos. discriminate Hpos. }
    assert (Hd : n_div n_one (sum fs)
                 = Ok (PrimFloat.div 1%float (sum fs))).
    { simpl n_div. now rewrite (float_pos_nonzero _ Hpos). }
    destruct (normalize_with_scaled sum tbl fs _ Hf Hne Hd)
      as (tbl' & E & Hc & Hs).
    exists tbl'. repeat split; auto.
    rewrite E. unfold weight_invalid. simpl n_lt. simpl n_lo. simpl n_hi.
    now destruct (PrimFloat.ltb 0.98%float (sum fs)
                  && PrimFloat.ltb (sum fs) 1.02%float).
  - intros sum tbl fs Hf Hne Hws Hlen Hacc gs.
    destruct (accurate_total_pos _ _ Hacc) as [Hpos Hnz].
    assert (Hd : n_div n_one (sum fs)
                 = Ok (PrimFloat.div 1%float (sum fs))).
    { simpl n_div. now rewrite Hnz. }
    destruct (normalize_with_scaled sum tbl fs _ Hf Hne Hd)
      as (tbl' & E & Hc & Hs).
    destruct (rescaled_sum fs (sum fs) Hws Hne Hlen Hacc) as [R1 R2].
    split; [exact Hpos|]. split; [|split; [exact R1 | exact R2]].
    exists tbl'. rewrite E. split; [reflexivity | exact Hs].
  - intros fs Hne Hws Hlen. now apply left_sum_accurate.
  - intros tbl fs Hf Hpos.
    assert (Hne : fs <> []) by (intros ->; discriminate Hpos).
    assert (Hnz : ~ (n_sum fs == 0)%Q).
    { intros E. rewrite E in Hpos. discriminate Hpos. }
    assert (Hd : n_div n_one (n_sum fs) = Ok (1 / n_sum fs)%Q).
    { simpl n_div. destruct (Qeq_bool (n_sum fs) 0) eqn:E; auto.
      apply Qeq_bool_iff in E. contradiction. }
    destruct (normalize_scaled tbl fs _ Hf Hne Hd) as (tbl' & E & Hc & Hs).
    exists tbl'. split; [exact E|]. split; [apply Q_weight_valid|].
    split; [exact Hc|]. split; [exact Hs|].
    now apply Qsum_rescaled.
Qed.

(** Scenario B: the fractions 0.3, 0.3, 0.3 add up to 0.8999999999999999,
    the record is logged, and every fraction becomes 1/3; the three add up
    to 1.0 within 1e-9, and in binary64 to 1.0.  Over exact rationals the
    total is 9/10 and the rescaled fractions add up to 1. *)
Lemma normalize_holdings_table_rescales_witness :
  (exists tbl',
      normalize_holdings_table disclosed_holdings
      = ([LogError (TextNum "Total weight seems invalid: %s"
                            0.8999999999999999%float)],
         Ok tbl')
      /\ columns tbl' = ["fraction"; "asstype"; "ticker"]
      /\ fractions tbl' = Ok [(1 / 3)%float; (1 / 3)%float; (1 / 3)%float]
      /\ sums_to_one [(1 / 3)%float; (1 / 3)%float; (1 / 3)%float] = true)
  /\ ((Rabs (exact_sum [(1 / 3)%float; (1 / 3)%float; (1 / 3)%float] - 1)
       <= / 1000000000)%R
      /\ (Rabs (F2R (n_sum [(1 / 3)%float; (1 / 3)%float; (1 / 3)%float]) - 1)
          <= / 1000000000)%R)
  /\ (exists tbl',
         normalize_holdings_table disclosed_holdings_Q
         = ([LogError (TextNum "Total weight seems invalid: %s"
                               (n_sum [(3 # 10)%Q; (3 # 10)%Q; (3 # 10)%Q]))],
            Ok tbl')
         /\ fractions tbl'
            = Ok (List.map (fun f => (f * (1 / (0 + (3 # 10) + (3 # 10)
                                                  + (3 # 10))))%Q)
                           [(3 # 10)%Q; (3 # 10)%Q; (3 # 10)%Q])
         /\ (n_sum (List.map (fun f => (f * (1 / (0 + (3 # 10) + (3 # 10)
                                                    + (3 # 10))))%Q)
                             [(3 # 10)%Q; (3 # 10)%Q; (3 # 10)%Q]) == 1)%Q).
Proof.
  destruct normalize_holdings_table_rescales as (HF & HB & HL & HQ).
  split; [|split].
  - destruct (HF n_sum disclosed_holdings [0.3%float; 0.3%float; 0.3%float])
      as (tbl' & E & Hc & Hs); [reflexivity | reflexivity | reflexivity |].
    exists tbl'. split; [exact E|]. split; [exact Hc|].
    split; [exact Hs | reflexivity].
  - assert (Hws : Forall (fun f => well_scaled f = true)
                         [0.3%float; 0.3%float; 0.3%float])
      by (repeat constructor).
    assert (Hne : [0.3%float; 0.3%float; 0.3%float] <> []) by discriminate.
    assert (Hlen : (Z.of_nat (List.length [0.3%float; 0.3%float; 0.3%float])
                    <= 1048576)%Z) by (cbn; lia).
    destruct (HB n_sum disclosed_holdings [0.3%float; 0.3%float; 0.3%float]
                 eq_refl Hne Hws Hlen (HL _ Hne Hws Hlen))
      as (_ & _ & R1 & R2).
    split; [exact R1 | exact R2].
  - destruct (HQ disclosed_holdings_Q [(3 # 10)%Q; (3 # 10)%Q; (3 # 10)%Q])
      as (tbl' & E & _ & _ & Hs & H1); [reflexivity | reflexivity |].
    exists tbl'. split; [exact E|]. split; [exact Hs | exact H1].
Defined.

(** Three tables whose binary64 total S is positive and whose rescaled
    column does not add up to 1.0 within 1e-9.  For the fraction 5e-324 the
    quotient 1/S overflows and the rescaled fraction is infinite.  For the
    fractions 1e308 and 1e308 the total overflows, the quotient is zero and
    so are the rescaled fractions.  For 2^53, 0.75 and -(2^53 - 3), added
    from left to right, S is 3.0 and the quotient is finite, and the
    rescaled column adds up to 1.5. *)
Lemma normalize_holdings_table_binary64_sum :
  (fractions tiny_holdings = Ok [0x1p-1074%float]
   /\ PrimFloat.ltb 0%float (n_sum [0x1p-1074%float]) = true
   /\ exists tbl',
        outcome (normalize_holdings_table tiny_holdings) = Ok tbl'
        /\ fractions tbl' = Ok [infinity]
        /\ sums_to_one [infinity] = false)
  /\ (fractions huge_holdings = Ok [1e308%float; 1e308%float]
      /\ n_sum [1e308%float; 1e308%float] = infinity
      /\ PrimFloat.ltb 0%float infinity = true
      /\ exists tbl',
           outcome (normalize_holdings_table huge_holdings) = Ok tbl'
           /\ fractions tbl' = Ok [0%float; 0%float]
           /\ sums_to_one [0%float; 0%float] = false)
  /\ (fractions cancelling_holdings
      = Ok [9007199254740992%float; 0.75%float; (-9007199254740989)%float]
      /\ n_sum [9007199254740992%float; 0.75%float; (-9007199254740989)%float]
         = 3%float
      /\ PrimFloat.ltb 0%float 3%float = true
      /\ exists tbl',
           outcome (normalize_holdings_table cancelling_holdings) = Ok tbl'
           /\ fractions tbl'
              = Ok [3002399751580330.5%float; 0.25%float;
                    (-3002399751580329.5)%float]
           /\ n_sum [3002399751580330.5%float; 0.25%float;
                     (-3002399751580329.5)%float] = 1.5%float
           /\ sums_to_one [3002399751580330.5%float; 0.25%float;
                           (-3002399751580329.5)%float] = false).
Proof.
  split; [|split].
  - split; [reflexivity|]. split; [reflexivity|].
    eexists. split; [reflexivity|]. split; reflexivity.
  - split; [reflexivity|]. split; [reflexivity|]. split; [reflexivity|].
    eexists. split; [reflexivity|]. split; reflexivity.
  - split; [reflexivity|]. split; [reflexivity|]. split; [reflexivity|].
    eexists. split; [reflexivity|]. split; [reflexivity|].
    split; reflexivity.
Qed.

(** C10.  When the fraction column sums to zero, [normalize_holdings_table]
    logs the invalid total and then raises [ZeroDivisionError]; a table
    with no rows is such a table. *)
Theorem normalize_holdings_table_zero_sum :
  (forall (tbl : Table float) (fs : list float),
      fractions tbl = Ok fs ->
      PrimFloat.eqb (n_sum fs) 0%float = true ->
      normalize_holdings_table tbl
      = ([LogError (TextNum "Total weight seems invalid: %s" (n_sum fs))],
         Raise ZeroDivisionError))
  /\ (forall cols : list string,
         normalize_holdings_table
           ({| columns := cols; rows := [] |} : Table float)
         = ([LogError (TextNum "Total weight seems invalid: %s" 0%float)],
            Raise ZeroDivisionError)).
Proof.
  split.
  - intros tbl fs Hf Hz.
    assert (Hd : n_div n_one (n_sum fs) = Raise ZeroDivisionError).
    { simpl n_div. now rewrite Hz. }
    rewrite (normalize_raises tbl fs _ Hf Hd).
    now rewrite (float_zero_invalid _ Hz).
  - intros cols. reflexivity.
Qed.

Lemma normalize_holdings_table_zero_sum_witness :
  normalize_holdings_table empty_holdings
  = ([LogError (TextNum "Total weight seems invalid: %s" 0%float)],
     Raise ZeroDivisionError).
Proof.
  exact (proj1 normalize_holdings_table_zero_sum empty_holdings []
               eq_refl eq_refl).
Defined.

(** ** portfolio.py: [main] *)

Section Pipeline.
Context {num : Type} `{Number num}.
Variable registry : string -> option (Downloader (num := num)).
Variable group : Table num -> option string -> res (Table num * Table num).
Variable numpy_sum : list num -> num.
Variable open_w : string -> res unit.
Variable fs : filesystem.

Lemma bind_assoc {A B C} (m : M num A) (k : A -> M num B) (k' : B -> M num C) :
  bind (bind m k) k' = bind m (fun a => bind (k a) k').
Proof.
  destruct m as (out & [a|e]); simpl; auto.
  destruct (k a) as (out1 & [b|e]); simpl; auto.
  destruct (k' b) as (out2 & r). now rewrite app_assoc.
Qed.

Lemma bind_ext {A B} (m : M num A) (k k' : A -> M num B) :
  (forall a, k a = k' a) -> bind m k = bind m k'.
Proof.
  intros E. destruct m as (out & [a|e]); simpl; auto. now rewrite E.
Qed.

(** The loop over a list of positions in two parts. *)
Lemma collect_app (args : Args) (pre rest : list Position) :
  forall alltables,
    collect registry fs args (pre ++ rest) alltables
    = bind (collect registry fs args pre alltables)
           (fun acc => collect registry fs args rest acc).
Proof.
  induction pre as [|row pre IH]; intros alltables; simpl.
  - destruct (collect registry fs args rest alltables) as (out & r).
    reflexivity.
  - rewrite bind_assoc. apply bind_ext. intros t. apply IH.
Qed.

(** C4, as the code has it.  A position that is not skipped as a short and
    whose issuer has no entry in the registry aborts the whole run with
    [SystemExit] and the message naming the issuer, unless
    [--ignore-missing-issuer] is given; with that option the position is
    skipped, one error record is logged, and the loop goes on with the
    remaining positions. *)
Theorem missing_issuer_policy (args : Args) (row : Position) :
  str_empty (issuer row) = false ->
  registry (issuer row) = None ->
  n_lt (quantity row) n_zero && ignore_shorts args = false ->
  let message := ("Missing issuer: " ++ issuer row)%string in
  (ignore_missing_issuer args = false ->
   (forall rest alltables,
       collect registry fs args (row :: rest) alltables
       = ([], Raise (SystemExit message)))
   /\ (forall assets pre rest out alltables,
          order assets = pre ++ row :: rest ->
          collect registry fs args pre [] = (out, Ok alltables) ->
          main registry group numpy_sum open_w fs args assets
          = (out, Raise (SystemExit message))))
  /\ (ignore_missing_issuer args = true ->
      forall rest alltables,
        collect registry fs args (row :: rest) alltables
        = bind (emit (LogError (Text message)))
               (fun _ => collect registry fs args rest alltables)).
Proof.
  intros Hi Hr Hs message.
  assert (Hp : position_table registry fs args row
               = if ignore_missing_issuer args
                 then ([LogError (Text message)], Ok None)
                 else ([], Raise (SystemExit message))).
  { unfold position_table, holdings_of. rewrite Hs, Hi, Hr.
    destruct (ignore_missing_issuer args); reflexivity. }
  split; intros Hm; rewrite Hm in Hp.
  - assert (Hc : forall rest alltables,
               collect registry fs args (row :: rest) alltables
               = ([], Raise (SystemExit message))).
    { intros rest alltables. simpl. now rewrite Hp. }
    split; [exact Hc|].
    intros assets pre rest out alltables Ho Hpre.
    unfold main, fulltable_of. rewrite Ho, collect_app, Hpre.
    cbn [bind]. rewrite Hc. cbn [bind]. now rewrite app_nil_r.
  - intros rest alltables. simpl. rewrite Hp. reflexivity.
Qed.

(** C5.  With a threshold that is zero, which is the default, the
    assignment to [filt_annotable] is not executed and the report reads the
    unbound variable: no run returns, and a run that gets as far as the
    total of the annotated table raises [UnboundLocalError].  (The one
    statement before it that can raise once the grouping step and the
    amount column are through is the writing of [--agg-table]; where no
    such file is asked for, or it can be written, the exception is
    [UnboundLocalError].) *)
Theorem report_without_threshold_unbound (args : Args) :
  n_truthy (threshold args) = false ->
  (forall assets,
      is_ok (outcome (main registry group numpy_sum open_w fs args assets))
      = false)
  /\ (forall fulltable aggtable annotable amounts,
         group fulltable (debug_output args) = Ok (aggtable, annotable) ->
         array fulltable "amount" = Ok amounts ->
         outcome (report group numpy_sum open_w args fulltable)
         = res_bind (outcome (write_table open_w (agg_table args) aggtable))
                    (fun _ => Raise (UnboundLocalError "filt_annotable")))
  /\ (forall fulltable aggtable annotable amounts,
         group fulltable (debug_output args) = Ok (aggtable, annotable) ->
         array fulltable "amount" = Ok amounts ->
         opens open_w (agg_table args) ->
         outcome (report group numpy_sum open_w args fulltable)
         = Raise (UnboundLocalError "filt_annotable")).
Proof.
  intros Ht.
  assert (R : forall fulltable,
             is_ok (outcome (report group numpy_sum open_w args fulltable))
             = false
             /\ forall aggtable annotable amounts,
                 group fulltable (debug_output args) = Ok (aggtable, annotable) ->
                 array fulltable "amount" = Ok amounts ->
                 outcome (report group numpy_sum open_w args fulltable)
                 = res_bind
                     (outcome (write_table open_w (agg_table args) aggtable))
                     (fun _ => Raise (UnboundLocalError "filt_annotable"))).
  { intros fulltable. unfold report. rewrite Ht.
    destruct (group fulltable (debug_output args)) as [[aggtable annotable]|e];
      [|split; [reflexivity | discriminate]].
    cbn [lift bind].
    destruct (write_table open_w (agg_table args) aggtable)
      as (outw & [[]|e]) eqn:W.
    - destruct (array fulltable "amount") as [amounts|e];
        cbn; split; try reflexivity; intros ? ? ? E1 E2.
      + injection E1 as <- <-. rewrite W. reflexivity.
      + congruence.
    - cbn. split; [reflexivity|]. intros ? ? ? E1 E2.
      injection E1 as <- <-. rewrite W. reflexivity. }
  split; [|split].
  - intros assets. unfold main.
    destruct (fulltable_of registry fs args assets) as (out & [fulltable|e]);
      [|reflexivity].
    cbn [bind]. destruct (R fulltable) as [Hr _].
    destruct (report group numpy_sum open_w args fulltable) as (out' & r).
    exact Hr.
  - intros fulltable aggtable annotable amounts. apply R.
  - intros fulltable aggtable annotable amounts Hg Ha Ho.
    destruct (R fulltable) as [_ Hr]. rewrite (Hr _ _ _ Hg Ha).
    unfold write_table. destruct (agg_table args) as [p|]; [|reflexivity].
    destruct (str_empty p) eqn:Ep; [reflexivity|].
    rewrite (Ho p eq_refl Ep). reflexivity.
Qed.

End Pipeline.

Lemma missing_issuer_policy_witness :
  collect demo_registry demo_fs default_args
          [unknown_position; direct_position "Assets:Broker"] []
  = ([], Raise (SystemExit "Missing issuer: Acme"))
  /\ collect demo_registry demo_fs lenient_args
             [unknown_position; direct_position "Assets:Broker"] []
     = bind (emit (LogError (Text "Missing issuer: Acme")))
            (fun _ => collect demo_registry demo_fs lenient_args
                              [direct_position "Assets:Broker"] []).
Proof.
  split.
  - exact (proj1 (proj1 (missing_issuer_policy demo_registry demo_group n_sum writable demo_fs
                           default_args unknown_position
                           eq_refl eq_refl eq_refl) eq_refl)
                 [direct_position "Assets:Broker"] []).
  - exact (proj2 (missing_issuer_policy demo_registry demo_group n_sum writable demo_fs
                    lenient_args unknown_position
                    eq_refl eq_refl eq_refl) eq_refl
                 [direct_position "Assets:Broker"] []).
Defined.

(** With no option given, the position of the unregistered issuer ends the
    run, and the position after it is not processed; with
    [--ignore-missing-issuer] it is the one that is skipped. *)
Lemma missing_issuer_default_aborts :
  ignore_missing_issuer default_args = false
  /\ fulltable_of demo_registry demo_fs default_args
                  [unknown_position; direct_position "Assets:Broker"]
     = ([], Raise (SystemExit "Missing issuer: Acme"))
  /\ ignore_missing_issuer lenient_args = true
  /\ exists t,
       fulltable_of demo_registry demo_fs lenient_args
                    [unknown_position; direct_position "Assets:Broker"]
       = ([LogError (Text "Missing issuer: Acme")], Ok t)
       /\ values t "ticker" = Ok [VStr "XYZ"].
Proof.
  split; [reflexivity|]. split; [reflexivity|]. split; [reflexivity|].
  eexists. split; reflexivity.
Qed.

Lemma report_without_threshold_unbound_witness :
  is_ok (outcome (main demo_registry demo_group n_sum writable demo_fs default_args
                       [direct_position "Assets:Broker"])) = false.
Proof.
  exact (proj1 (report_without_threshold_unbound demo_registry demo_group
                  n_sum writable demo_fs default_args eq_refl)
               [direct_position "Assets:Broker"]).
Defined.

(** The run of scenario A with no option given. *)
Lemma main_default_threshold_raises :
  main demo_registry demo_group n_sum writable demo_fs default_args
       [direct_position "Assets:Broker"]
  = ([LogInfo (TextNum "Total amount from full holdings table: {:.2f}"
                       1000%float)],
     Raise (UnboundLocalError "filt_annotable")).
Proof. reflexivity. Qed.

(** C7.  One position with no issuer, ticker XYZ, quantity 100 and price
    10.0: its holdings are the one synthesized row of 100% Equity under the
    ticker XYZ, and the combined table has exactly one row, whose amount is
    1000.0, whose asset class is Equity and whose ticker is XYZ, whatever
    the registry, the store and the options are. *)
Theorem direct_position_table
  (registry : string -> option (Downloader (num := float)))
  (fs : filesystem) (args : Args (num := float)) (account : string) :
  holdings_of registry fs args (direct_position account)
  = ([], Ok (Some {| columns := ["fraction"; "asstype"; "ticker"];
                     rows := [[VNum 1%float; VStr "Equity"; VStr "XYZ"]] |}))
  /\ exists row,
       fulltable_of registry fs args [direct_position account]
       = ([], Ok {| columns := canonical_columns; rows := [row] |})
       /\ row = [VStr "XYZ"; VStr account; VStr "Equity"; VStr ""; VStr "XYZ";
                 VStr ""; VStr ""; VStr ""; VNum 1000%float]
       /\ getattr canonical_columns row "amount" = Ok (VNum 1000%float)
       /\ getattr canonical_columns row "asstype" = Ok (VStr "Equity")
       /\ getattr canonical_columns row "ticker" = Ok (VStr "XYZ").
Proof.
  split; [reflexivity|].
  eexists. split; [reflexivity|]. repeat split.
Qed.

(** *** From a holdings table to the rows of one position *)

Section ToAmounts.
Context {num : Type} `{Number num}.

Lemma res_map_map {A B C} (g : A -> B) (f : B -> res C) (xs : list A) :
  res_map f (List.map g xs) = res_map (fun x => f (g x)) xs.
Proof.
  induction xs as [|x xs IH]; simpl; auto. now rewrite IH.
Qed.

Lemma getattr_app_l (cols more : list string) (r extra : list (value num))
  (c : string) :
  In c cols -> List.length r = List.length cols ->
  getattr (cols ++ more) (r ++ extra) c = getattr cols r c.
Proof.
  intros Hc Hl. destruct (index_of_In c cols Hc) as [i Hi].
  unfold getattr. rewrite (index_of_app_l c cols more i Hi), Hi.
  apply cell_app_l. apply index_of_bound in Hi. lia.
Qed.

Lemma getattr_app_r (cols more : list string) (r extra : list (value num))
  (c : string) :
  ~ In c cols -> List.length r = List.length cols ->
  getattr (cols ++ more) (r ++ extra) c = getattr more extra c.
Proof.
  intros Hc Hl. unfold getattr. rewrite (index_of_app_r c cols more Hc).
  destruct (index_of c more) as [j|]; simpl; auto.
  unfold cell. rewrite nth_error_app2 by lia.
  now replace (List.length cols + j - List.length r) with j by lia.
Qed.

Lemma getattr_in_range (cols : list string) (r : list (value num)) (c : string) :
  In c cols -> List.length r = List.length cols ->
  exists v, getattr cols r c = Ok v.
Proof.
  intros Hc Hl. destruct (index_of_In c cols Hc) as [i Hi].
  unfold getattr. rewrite Hi. apply cell_in_range.
  apply index_of_bound in Hi. lia.
Qed.

Lemma getattr_blank (cols cs : list string) (c : string) :
  In c (absent cols cs) ->
  getattr (absent cols cs)
          (blanks (num := num) (List.length (absent cols cs))) c
  = Ok (VStr "").
Proof.
  intros Hc. destruct (index_of_In c _ Hc) as [j Hj].
  unfold getattr, cell, blanks. rewrite Hj.
  apply index_of_bound in Hj. now rewrite nth_error_repeat.
Qed.

(** A row after the identifier columns, [etf] and [account] were added. *)
Lemma getattr_extended (cols cs : list string) (r : list (value num))
  (etf account : value num) (c : string) :
  List.length r = List.length cols ->
  getattr (((cols ++ absent cols cs) ++ ["etf"]) ++ ["account"])
          (((r ++ blanks (List.length (absent cols cs))) ++ [etf])
             ++ [account]) c
  = if mem c cols then getattr cols r c
    else if mem c cs then Ok (VStr "")
         else getattr ["etf"; "account"] [etf; account] c.
Proof.
  intros Hl. rewrite <- !app_assoc.
  change (["etf"] ++ ["account"]) with ["etf"; "account"].
  change ([etf] ++ [account]) with [etf; account].
  destruct (mem c cols) eqn:Ec.
  - apply getattr_app_l; auto. now apply mem_In.
  - apply mem_not_In in Ec. rewrite getattr_app_r by assumption.
    destruct (mem c cs) eqn:Ei.
    + assert (Ha : In c (absent cols cs)).
      { apply filter_In. split; [now apply mem_In|].
        apply mem_not_In in Ec. now rewrite Ec. }
      rewrite getattr_app_l; auto.
      * now apply getattr_blank.
      * unfold blanks. apply repeat_length.
    + rewrite getattr_app_r; auto.
      * intros Ha. apply filter_In in Ha. destruct Ha as [Ha _].
        apply mem_In in Ha. congruence.
      * unfold blanks. apply repeat_length.
Qed.

Lemma select_getattr (t : Table num) (cs : list string) :
  (forall c, In c cs -> In c (columns t)) ->
  select t cs
  = res_bind (res_map (fun row => res_map (getattr (columns t) row) cs) (rows t))
             (fun rows' => Ok {| columns := cs; rows := rows' |}).
Proof.
  intros Hcs. unfold select.
  assert (X : exists idx,
             res_map (fun c => match index_of c (columns t) with
                               | Some i => Ok i
                               | None => Raise (KeyError c)
                               end) cs = Ok idx
             /\ forall row : list (value num),
                 res_map (cell row) idx
                 = res_map (getattr (columns t) row) cs).
  { induction cs as [|c cs IH].
    - exists []. auto.
    - destruct IH as (idx & E & Hrow); [intros; apply Hcs; simpl; auto|].
      destruct (index_of_In c (columns t)) as [i Hi]; [apply Hcs; simpl; auto|].
      exists (i :: idx). simpl. rewrite Hi, E. split; auto.
      intros row. unfold getattr at 1. rewrite Hi, Hrow. reflexivity. }
  destruct X as (idx & -> & Hrow). cbn [res_bind].
  now rewrite (res_map_ext _ _ (rows t) (fun row _ => Hrow row)).
Qed.

Lemma fractions_fraction_of (tbl : Table num) (fs : list num) :
  fractions tbl = Ok fs ->
  fs = List.map (fraction_of (columns tbl)) (rows tbl)
  /\ forall r, In r (rows tbl) ->
               getattr (columns tbl) r "fraction"
               = Ok (VNum (fraction_of (columns tbl) r)).
Proof.
  unfold fractions. revert fs.
  induction (rows tbl) as [|r rs IH]; simpl; intros fs E.
  - inversion E. split; [reflexivity | tauto].
  - destruct (getattr (columns tbl) r "fraction") as [[s|x|n]|] eqn:Eg;
      simpl in E; try discriminate.
    destruct (res_map _ rs) as [fs'|]; [|discriminate].
    inversion E. destruct (IH fs' eq_refl) as [-> Hall].
    assert (Ex : fraction_of (columns tbl) r = x)
      by (unfold fraction_of; now rewrite Eg).
    split; [now rewrite Ex|].
    intros r' [<-|Hr]; auto. now rewrite Ex.
Qed.

(** Lines 138 to 148 of [main] on a table that has the two required
    columns and neither an [etf] nor an [account] column: one canonical row
    per row, its amount the row's fraction times the position's value. *)
Lemma to_amounts_canonical (row : Position) (holdings : Table num)
  (fs : list num) :
  wf_table holdings ->
  In "fraction" (columns holdings) ->
  In "asstype" (columns holdings) ->
  ~ In "etf" (columns holdings) ->
  ~ In "account" (columns holdings) ->
  fractions holdings = Ok fs ->
  to_amounts row holdings
  = Ok {| columns := canonical_columns;
          rows := List.map (canonical_row (ticker row) (account row)
                              (n_mul (quantity row) (price row))
                              (columns holdings))
                           (rows holdings) |}.
Proof.
  intros Hwf Hfr Has Hetf Hacc Hf.
  destruct (fractions_fraction_of holdings fs Hf) as [_ Hnum].
  set (cols := columns holdings) in *.
  set (a := n_mul (quantity row) (price row)).
  unfold to_amounts, add_missing_columns.
  rewrite (add_columns_spec IDCOLUMNS IDCOLUMNS_NoDup holdings).
  cbn [res_bind]. rewrite create_const. cbn [res_bind columns rows].
  rewrite create_const. cbn [res_bind columns rows]. rewrite !map_map.
  fold cols. fold a.
  set (k := List.length (absent cols IDCOLUMNS)).
  set (cols3 := ((cols ++ absent cols IDCOLUMNS) ++ ["etf"]) ++ ["account"]).
  set (ext := fun r : list (value num) =>
                ((r ++ blanks k) ++ [VStr (ticker row)]) ++ [VStr (account row)]).
  set (picked := fun r : list (value num) =>
                   [VStr (ticker row); VStr (account row);
                    VNum (fraction_of cols r); field cols r "asstype";
                    field cols r "name"; field cols r "ticker";
                    field cols r "sedol"; field cols r "isin";
                    field cols r "cusip"]).
  assert (Hin : forall c, In c COLUMNS -> In c cols3).
  { intros c Hc. unfold cols3. rewrite <- !app_assoc.
    change COLUMNS with (["etf"; "account"; "fraction"; "asstype"] ++ IDCOLUMNS)
      in Hc.
    apply in_app_or in Hc. destruct Hc as [Hc|Hc].
    - simpl in Hc. destruct Hc as [<-|[<-|[<-|[<-|[]]]]].
      + apply in_or_app. right. apply in_or_app. right. simpl. auto.
      + apply in_or_app. right. apply in_or_app. right. simpl. auto.
      + apply in_or_app. now left.
      + apply in_or_app. now left.
    - rewrite app_assoc. apply in_or_app. left. now apply absent_covers. }
  assert (Hfield : forall r c,
             List.length r = List.length cols ->
             (In c cols \/ mem c IDCOLUMNS = true) ->
             getattr cols3 (ext r) c = Ok (field cols r c)).
  { intros r c Hl Hc. unfold cols3, ext, k.
    rewrite (getattr_extended cols IDCOLUMNS r _ _ c Hl). unfold field.
    destruct (mem c cols) eqn:Ec.
    - apply mem_In in Ec.
      destruct (getattr_in_range cols r c Ec Hl) as [v ->]. reflexivity.
    - apply mem_not_In in Ec. destruct Hc as [Hc|Hc]; [tauto|].
      rewrite Hc. unfold getattr. now rewrite (index_of_None c cols Ec). }
  assert (Hsel : forall r, In r (rows holdings) ->
             res_map (getattr cols3 (ext r)) COLUMNS = Ok (picked r)).
  { intros r Hr.
    assert (Hl : List.length r = List.length cols).
    { unfold wf_table in Hwf. rewrite Forall_forall in Hwf. now apply Hwf. }
    change COLUMNS with ["etf"; "account"; "fraction"; "asstype"; "name";
                         "ticker"; "sedol"; "isin"; "cusip"].
    cbn [res_map].
    assert (He : getattr cols3 (ext r) "etf" = Ok (VStr (ticker row))).
    { unfold cols3, ext, k. rewrite (getattr_extended cols IDCOLUMNS r _ _ "etf" Hl).
      apply mem_not_In in Hetf. now rewrite Hetf. }
    assert (Ha : getattr cols3 (ext r) "account" = Ok (VStr (account row))).
    { unfold cols3, ext, k. rewrite (getattr_extended cols IDCOLUMNS r _ _ "account" Hl).
      apply mem_not_In in Hacc. now rewrite Hacc. }
    assert (Hx : getattr cols3 (ext r) "fraction"
                 = Ok (VNum (fraction_of cols r))).
    { rewrite (Hfield r "fraction" Hl (or_introl Hfr)).
      unfold field. now rewrite (Hnum r Hr). }
    rewrite He, Ha, Hx.
    rewrite (Hfield r "asstype" Hl (or_introl Has)).
    rewrite (Hfield r "name" Hl (or_intror eq_refl)).
    rewrite (Hfield r "ticker" Hl (or_intror eq_refl)).
    rewrite (Hfield r "sedol" Hl (or_intror eq_refl)).
    rewrite (Hfield r "isin" Hl (or_intror eq_refl)).
    rewrite (Hfield r "cusip" Hl (or_intror eq_refl)).
    reflexivity. }
  rewrite select_getattr by exact Hin. cbn [columns rows].
  fold cols3. rewrite res_map_map.
  rewrite (res_map_ext _ (fun r => Ok (picked r)) (rows holdings) Hsel).
  rewrite res_map_pure. cbn [res_bind].
  unfold create. cbn [columns rows]. rewrite res_map_map.
  rewrite (res_map_ext _
             (fun r => Ok (picked r ++ [VNum (n_mul (fraction_of cols r) a)]))
             (rows holdings)) by reflexivity.
  rewrite res_map_pure. cbn [res_bind].
  unfold delete. cbn [columns rows]. rewrite map_map. reflexivity.
Qed.

Lemma array_canonical_amount (etf account : string) (a : num)
  (cols : list string) (rs : list (list (value num))) :
  array {| columns := canonical_columns;
           rows := List.map (canonical_row etf account a cols) rs |} "amount"
  = Ok (List.map (fun r => n_mul (fraction_of cols r) a) rs).
Proof.
  assert (Hi : index_of "amount" canonical_columns = Some 8) by reflexivity.
  unfold array, values. cbn [columns rows]. rewrite Hi, res_map_map.
  rewrite (res_map_ext _ (fun r => Ok (VNum (n_mul (fraction_of cols r) a))) rs)
    by reflexivity.
  rewrite res_map_pure. cbn [res_bind]. rewrite res_map_map.
  now rewrite res_map_pure.
Qed.

End ToAmounts.

(** *** The rows of a position with a parsed disclosure *)

Section Disclosure.
Context {num : Type} `{Number num}.
Variable registry : string -> option (Downloader (num := num)).
Variable fs : filesystem.

(** What an accepted holdings table is known to have. *)
Lemma check_holdings_accepts (t : Table num) :
  check_holdings t = Ok tt ->
  In "fraction" (columns t) /\ In "asstype" (columns t)
  /\ ~ In "etf" (columns t) /\ ~ In "account" (columns t).
Proof.
  intros Hok.
  assert (E : is_ok (check_holdings t) = true) by now rewrite Hok.
  unfold check_holdings in E. cbv zeta in E.
  rewrite !is_ok_bind_assert in E.
  apply andb_true_iff in E. destruct E as [Ex E].
  apply andb_true_iff in E. destruct E as [Er _].
  assert (Nx : ~ extra_column t).
  { intros X. apply extra_column_dec in X. rewrite X in Ex. discriminate. }
  assert (Hx : forall c, ~ In c (["asstype"; "fraction"] ++ IDCOLUMNS) ->
                         ~ In c (columns t)).
  { intros c Hc Hin. apply Nx. exists c. auto. }
  rewrite forallb_forall in Er.
  repeat split;
    try (apply mem_In, Er; simpl; tauto);
    apply Hx; simpl; intuition discriminate.
Qed.

(** What [main] does with a parsed disclosure.  For a position that is
    processed, whose issuer is registered with a parser and whose snapshot
    is found, the parsed table goes through [check_holdings] and the column
    steps only: there is no call of [normalize_holdings_table] between
    lines 136 and 147.  The only record logged is the one announcing the
    parse, and each row's amount is its fraction as parsed, times quantity
    times price. *)
Lemma pipeline_keeps_disclosed_fractions (args : Args) (row : Position)
  (downloader : Downloader) (parser : string -> res (Table num))
  (filename : string) (holdings : Table num) (fractions_ : list num) :
  n_lt (quantity row) n_zero && ignore_shorts args = false ->
  str_empty (issuer row) = false ->
  registry (issuer row) = Some downloader ->
  parse downloader = Some parser ->
  Database.getlatest fs {| Database.directory := dbdir args |} (ticker row)
  = Ok (Some filename) ->
  parser filename = Ok holdings ->
  wf_table holdings ->
  check_holdings holdings = Ok tt ->
  fractions holdings = Ok fractions_ ->
  exists t,
    position_table registry fs args row
    = ([LogInfo (Text ("Parsing file '" ++ filename ++ "' with '"
                         ++ issuer row ++ "'"))],
       Ok (Some t))
    /\ columns t = canonical_columns
    /\ rows t = List.map (canonical_row (ticker row) (account row)
                            (n_mul (quantity row) (price row))
                            (columns holdings))
                         (rows holdings)
    /\ array t "amount"
       = Ok (List.map (fun f => n_mul f (n_mul (quantity row) (price row)))
                      fractions_).
Proof.
  intros Hs Hi Hr Hp Hl Hparse Hwf Hok Hf.
  destruct (check_holdings_accepts holdings Hok) as (Hfr & Has & He & Ha).
  pose proof (to_amounts_canonical row holdings fractions_
                Hwf Hfr Has He Ha Hf) as Hto.
  exists {| columns := canonical_columns;
            rows := List.map (canonical_row (ticker row) (account row)
                                (n_mul (quantity row) (price row))
                                (columns holdings))
                             (rows holdings) |}.
  split; [|split; [reflexivity|split; [reflexivity|]]].
  - unfold position_table, holdings_of.
    rewrite Hs, Hi, Hr, Hl. cbn [lift bind emit ret app].
    rewrite Hp, Hparse. cbn [lift bind emit ret app].
    rewrite Hok. cbn [lift bind emit ret app].
    rewrite Hto. reflexivity.
  - rewrite array_canonical_amount.
    destruct (fractions_fraction_of holdings fractions_ Hf) as [-> _].
    now rewrite map_map.
Qed.

End Disclosure.

Lemma pipeline_keeps_disclosed_fractions_witness :
  exists t,
    position_table demo_registry demo_fs default_args fund_position
    = ([LogInfo (Text "Parsing file '/db/VTI/2019/03/07/b.csv' with 'Vanguard'")],
       Ok (Some t))
    /\ columns t = canonical_columns
    /\ rows t = List.map (canonical_row "VTI" "Assets:Broker"
                            (n_mul 1%float 1%float)
                            (columns disclosed_holdings))
                         (rows disclosed_holdings)
    /\ array t "amount"
       = Ok (List.map (fun f => n_mul f (n_mul 1%float 1%float))
                      [0.3%float; 0.3%float; 0.3%float]).
Proof.
  apply (pipeline_keeps_disclosed_fractions demo_registry demo_fs
           default_args fund_position
           {| parse := Some (fun _ => Ok disclosed_holdings) |}
           (fun _ => Ok disclosed_holdings)
           "/db/VTI/2019/03/07/b.csv" disclosed_holdings
           [0.3%float; 0.3%float; 0.3%float]);
    try reflexivity.
  repeat constructor.
Defined.

(** C1.  The disclosure with fractions 0.3, 0.3, 0.3, held through a
    position worth 1.0.  [main] logs the parse only and the combined table
    carries the amounts 0.3, 0.3, 0.3.  [normalize_holdings_table], which
    [main] does not call, logs the total 0.8999999999999999 as invalid and
    returns the fractions 1/3, 1/3, 1/3 on the same table, with which the
    amounts would be 1/3 each. *)
Theorem pipeline_does_not_rescale :
  (exists t,
      fulltable_of demo_registry demo_fs default_args [fund_position]
      = ([LogInfo (Text "Parsing file '/db/VTI/2019/03/07/b.csv' with 'Vanguard'")],
         Ok t)
      /\ array t "amount" = Ok [0.3%float; 0.3%float; 0.3%float])
  /\ n_mul (quantity fund_position) (price fund_position) = 1%float
  /\ (exists tbl',
         normalize_holdings_table disclosed_holdings
         = ([LogError (TextNum "Total weight seems invalid: %s"
                               0.8999999999999999%float)],
            Ok tbl')
         /\ fractions tbl' = Ok [(1 / 3)%float; (1 / 3)%float; (1 / 3)%float])
  /\ PrimFloat.eqb 0.3%float (1 / 3)%float = false
  /\ PrimFloat.eqb (n_sum [0.3%float; 0.3%float; 0.3%float]) 1%float = false.
Proof.
  split; [eexists; split; reflexivity|].
  split; [reflexivity|].
  split; [eexists; split; reflexivity|].
  split; reflexivity.
Qed.

(** *** The table checks on the example tables *)

Lemma check_holdings_fails_iff_witness :
  is_ok (check_holdings dash_holdings) = false
  <-> extra_column dash_holdings \/ required_missing dash_holdings
      \/ no_id_column dash_holdings \/ bad_asstype dash_holdings
      \/ dash_in_id dash_holdings.
Proof.
  apply (check_holdings_fails_iff dash_holdings).
  repeat constructor.
Defined.

Lemma extra_holdings_wf : wf_table extra_holdings.
Proof. repeat constructor. Qed.

(** A table with the two required columns, an identifier column, a valid
    asset class, no "-" and one more column is rejected, although none of
    the four listed conditions holds. *)
Lemma check_holdings_rejects_extra_column :
  check_holdings extra_holdings = Raise (AssertionError "Extra columns found")
  /\ ~ (required_missing extra_holdings \/ no_id_column extra_holdings
        \/ bad_asstype extra_holdings \/ dash_in_id extra_holdings).
Proof.
  split; [reflexivity|].
  intros [Hc|[Hc|[Hc|Hc]]].
  - apply required_missing_dec in Hc. discriminate Hc.
  - apply no_id_column_dec in Hc. discriminate Hc.
  - apply bad_asstype_dec in Hc. discriminate Hc.
  - apply (check_dashes_fails extra_holdings IDCOLUMNS extra_holdings_wf) in Hc.
    discriminate Hc.
Qed.

Lemma add_missing_columns_idempotent_witness :
  exists tbl',
    add_missing_columns disclosed_holdings = Ok tbl'
    /\ values tbl' "cusip" = Ok [VStr ""; VStr ""; VStr ""]
    /\ add_missing_columns tbl' = Ok tbl'.
Proof.
  destruct (add_missing_columns_idempotent disclosed_holdings)
    as (tbl' & E & _ & _ & _ & _ & Hv & Hi).
  exists tbl'. split; [exact E|]. split; [|exact Hi].
  apply (fun wf => Hv wf "cusip").
  - repeat constructor.
  - simpl. tauto.
  - simpl. intuition discriminate.
Defined.

(** *** Two more runs *)

(** A disclosure with "-" in its cusip column stops the run before any
    table is combined. *)
Example dash_disclosure_aborts :
  fulltable_of dash_registry demo_fs default_args [fund_position]
  = ([LogInfo (Text "Parsing file '/db/VTI/2019/03/07/b.csv' with 'Vanguard'")],
     Raise (ValueError "Invalid value '-' in column 'cusip'")).
Proof. reflexivity. Qed.

(** A ticker with no directory under the store root is skipped with an
    error record, and the run goes on with the next position. *)
Example missing_snapshot_skipped :
  exists t,
    fulltable_of demo_registry demo_fs default_args
                 [absent_position; direct_position "Assets:Broker"]
    = ([LogError (Text "Missing file for VXUS")], Ok t)
    /\ array t "amount" = Ok [1000%float].
Proof. eexists. split; reflexivity. Qed.

(* ================================================================== *)
(** * Further properties *)

(** ** database.py: the walk of [getlatest] *)


Lemma descend_inv (fs : filesystem) (n : nat) (d r : string) :
  Database.descend fs (S n) d = Ok (Some r) ->
  exists l, fs d = Some (Dir l) /\ l <> []
            /\ Database.descend fs n (path_join d [last_item l]) = Ok (Some r).
Proof.
  cbn [Database.descend]. unfold listdir.
  destruct (fs d) as [[|l]|]; cbn [res_bind]; try discriminate.
  destruct l as [|x l]; cbn [nonempty]; [discriminate|].
  intros E. exists (x :: l). repeat split; [discriminate | exact E].
Qed.


Lemma getlatest_of_descend_stop (fs : filesystem) (db : Database.Database)
  (key : string) :
  (Database.descend fs 3 (path_join (Database.directory db) [key]) = Ok None
   \/ exists p, Database.descend fs 3 (path_join (Database.directory db) [key])
                = Raise (FileNotFoundError p)) ->
  Database.getlatest fs db key = Ok None.
Proof.
  unfold Database.getlatest, Database.getlatest_body.
  intros [E|[p E]]; rewrite E; reflexivity.
Qed.

Lemma getlatest_of_descend (fs : filesystem) (db : Database.Database)
  (key d3 : string) :
  Database.descend fs 3 (path_join (Database.directory db) [key]) = Ok (Some d3) ->
  Database.getlatest fs db key
  = match fs d3 with
    | Some (Dir (f :: rest)) =>
        Ok (Some (path_join d3 [last_item (sorted (f :: rest))]))
    | Some (Dir []) => Ok None
    | Some File => Raise (NotADirectoryError d3)
    | None => Ok None
    end.
Proof.
  intros E. unfold Database.getlatest, Database.getlatest_body.
  rewrite E. cbn [res_bind]. unfold listdir.
  destruct (fs d3) as [[|[|f rest]]|]; reflexivity.
Qed.

(** X1.  A path returned by [getlatest] lies exactly four levels below the
    directory of the key: each of the three directories on the way is the
    entry that its parent's listing reports last, and the file is the
    lexicographically greatest name of the directory reached.  On a store
    whose listings come back in order, each of the three directories is
    also the lexicographically greatest child. *)
Theorem getlatest_result_shape (fs : filesystem) (db : Database.Database)
  (key p : string) :
  Database.getlatest fs db key = Ok (Some p) ->
  exists l0 l1 l2 l3 f,
    let d0 := path_join (Database.directory db) [key] in
    let d1 := path_join d0 [last_item l0] in
    let d2 := path_join d1 [last_item l1] in
    let d3 := path_join d2 [last_item l2] in
    fs d0 = Some (Dir l0) /\ In (last_item l0) l0
    /\ fs d1 = Some (Dir l1) /\ In (last_item l1) l1
    /\ fs d2 = Some (Dir l2) /\ In (last_item l2) l2
    /\ fs d3 = Some (Dir l3) /\ greatest f l3
    /\ p = path_join d3 [f]
    /\ (listings_ascending fs ->
        greatest (last_item l0) l0 /\ greatest (last_item l1) l1
        /\ greatest (last_item l2) l2).
Proof.
  intros H.
  assert (Hlast : forall l : list string, l <> [] -> In (last_item l) l).
  { intros l Hl. unfold last_item.
    destruct (exists_last Hl) as (l' & x & ->).
    rewrite last_last. apply in_or_app. right. simpl. auto. }
  destruct (Database.descend fs 3 (path_join (Database.directory db) [key]))
    as [[d3|]|e] eqn:E.
  - rewrite (getlatest_of_descend fs db key d3 E) in H.
    destruct (descend_inv _ _ _ _ E) as (l0 & E0 & N0 & E1).
    destruct (descend_inv _ _ _ _ E1) as (l1 & E1' & N1 & E2).
    destruct (descend_inv _ _ _ _ E2) as (l2 & E2' & N2 & E3).
    cbn [Database.descend] in E3. injection E3 as E3.
    destruct (fs d3) as [[|[|f rest]]|] eqn:E4; try discriminate.
    injection H as <-. subst d3.
    exists l0, l1, l2, (f :: rest), (last_item (sorted (f :: rest))).
    cbv zeta. repeat split; auto;
      try (apply last_sorted_greatest; discriminate);
      try (apply ascending_last_greatest; eauto).
  - rewrite getlatest_of_descend_stop in H by (left; exact E). discriminate.
  - unfold Database.getlatest, Database.getlatest_body in H. rewrite E in H.
    cbn [res_bind] in H. destruct e; discriminate.
Qed.

Lemma getlatest_result_shape_witness :
  exists l0 l1 l2 l3 f,
    let d0 := path_join (Database.directory demo_db) ["VTI"] in
    let d1 := path_join d0 [last_item l0] in
    let d2 := path_join d1 [last_item l1] in
    let d3 := path_join d2 [last_item l2] in
    sorted_fs d0 = Some (Dir l0) /\ In (last_item l0) l0
    /\ sorted_fs d1 = Some (Dir l1) /\ In (last_item l1) l1
    /\ sorted_fs d2 = Some (Dir l2) /\ In (last_item l2) l2
    /\ sorted_fs d3 = Some (Dir l3) /\ greatest f l3
    /\ "/db/VTI/2020/01/15/h.csv" = path_join d3 [f]
    /\ (listings_ascending sorted_fs ->
        greatest (last_item l0) l0 /\ greatest (last_item l1) l1
        /\ greatest (last_item l2) l2).
Proof.
  exact (getlatest_result_shape sorted_fs demo_db "VTI"
           "/db/VTI/2020/01/15/h.csv" eq_refl).
Defined.



(** ** database.py: the dated directory *)

Lemma string_append_cancel_l (p s1 s2 : string) :
  (p ++ s1 = p ++ s2)%string -> s1 = s2.
Proof.
  induction p as [|c p IH]; simpl; auto.
  intros E. injection E as E. auto.
Qed.

Lemma join_step_inj (p b1 b2 : string) :
  startswith_sep b1 = false -> startswith_sep b2 = false ->
  join_step p b1 = join_step p b2 -> b1 = b2.
Proof.
  intros H1 H2. unfold join_step. rewrite H1, H2.
  destruct (str_empty p || endswith_sep p); intros E.
  - now apply string_append_cancel_l in E.
  - apply string_append_cancel_l in E. now injection E.
Qed.

Lemma digit_inj (a b : nat) :
  Database.digit a = Database.digit b -> a mod 10 = b mod 10.
Proof.
  unfold Database.digit. intros E.
  apply (f_equal nat_of_ascii) in E.
  assert (Ha : a mod 10 < 10) by (apply Nat.mod_upper_bound; lia).
  assert (Hb : b mod 10 < 10) by (apply Nat.mod_upper_bound; lia).
  rewrite !nat_ascii_embedding in E by lia. lia.
Qed.

Lemma pad2_inj (n m : nat) :
  n < 100 -> m < 100 -> Database.pad2 n = Database.pad2 m -> n = m.
Proof.
  intros Hn Hm E. unfold Database.pad2 in E.
  assert (D1 : Database.digit (n / 10) = Database.digit (m / 10))
    by congruence.
  assert (D0 : Database.digit n = Database.digit m) by congruence.
  apply digit_inj in D1, D0.
  rewrite (Nat.div_mod_eq n 10), (Nat.div_mod_eq m 10).
  rewrite (Nat.mod_small (n / 10) 10) in D1
    by (apply Nat.Div0.div_lt_upper_bound; lia).
  rewrite (Nat.mod_small (m / 10) 10) in D1
    by (apply Nat.Div0.div_lt_upper_bound; lia).
  congruence.
Qed.

Lemma div10_step (a b : nat) :
  a / 10 = b / 10 -> a mod 10 = b mod 10 -> a = b.
Proof.
  intros Hq Hr.
  rewrite (Nat.div_mod_eq a 10), (Nat.div_mod_eq b 10). congruence.
Qed.

Lemma pad4_digits_inj (n m : nat) :
  n < 100 * 100 -> m < 100 * 100 ->
  (n / 1000) mod 10 = (m / 1000) mod 10 ->
  (n / 100) mod 10 = (m / 100) mod 10 ->
  (n / 10) mod 10 = (m / 10) mod 10 ->
  n mod 10 = m mod 10 -> n = m.
Proof.
  intros Hn Hm E3 E2 E1 E0.
  assert (Q : forall a, a / 1000 = a / 100 / 10 /\ a / 100 = a / 10 / 10).
  { intros a. rewrite !Nat.Div0.div_div. split; reflexivity. }
  destruct (Q n) as [N3 N2], (Q m) as [M3 M2].
  rewrite (Nat.mod_small (n / 1000) 10) in E3
    by (apply Nat.Div0.div_lt_upper_bound; lia).
  rewrite (Nat.mod_small (m / 1000) 10) in E3
    by (apply Nat.Div0.div_lt_upper_bound; lia).
  apply div10_step; [|exact E0].
  apply div10_step; [|exact E1].
  rewrite <- N2, <- M2.
  apply div10_step; [|exact E2].
  now rewrite <- N3, <- M3.
Qed.

Lemma strftime_Ymd_inj (d d' : Database.date) :
  printable_date d -> printable_date d' ->
  Database.strftime_Ymd d = Database.strftime_Ymd d' -> d = d'.
Proof.
  intros (Hy & Hm & Hd) (Hy' & Hm' & Hd').
  destruct d as [y m dd], d' as [y' m' dd']. cbn [Database.year Database.month Database.day] in *.
  unfold Database.strftime_Ymd, Database.pad4, Database.pad2.
  cbn [Database.year Database.month Database.day append]. intros E.
  assert (Y3 : Database.digit (y / 1000) = Database.digit (y' / 1000))
    by congruence.
  assert (Y2 : Database.digit (y / 100) = Database.digit (y' / 100))
    by congruence.
  assert (Y1 : Database.digit (y / 10) = Database.digit (y' / 10))
    by congruence.
  assert (Y0 : Database.digit y = Database.digit y') by congruence.
  assert (M1 : Database.digit (m / 10) = Database.digit (m' / 10))
    by congruence.
  assert (M0 : Database.digit m = Database.digit m') by congruence.
  assert (D1 : Database.digit (dd / 10) = Database.digit (dd' / 10))
    by congruence.
  assert (D0 : Database.digit dd = Database.digit dd') by congruence.
  clear E.
  apply digit_inj in Y3, Y2, Y1, Y0, M1, M0, D1, D0.
  assert (y = y') by (apply pad4_digits_inj; assumption).
  assert (m = m').
  { apply div10_step; [|exact M0].
    rewrite (Nat.mod_small (m / 10) 10) in M1
      by (apply Nat.Div0.div_lt_upper_bound; lia).
    rewrite (Nat.mod_small (m' / 10) 10) in M1
      by (apply Nat.Div0.div_lt_upper_bound; lia).
    exact M1. }
  assert (dd = dd').
  { apply div10_step; [|exact D0].
    rewrite (Nat.mod_small (dd / 10) 10) in D1
      by (apply Nat.Div0.div_lt_upper_bound; lia).
    rewrite (Nat.mod_small (dd' / 10) 10) in D1
      by (apply Nat.Div0.div_lt_upper_bound; lia).
    exact D1. }
  congruence.
Qed.

(** X3.  No two dates share a directory: for a given store and key,
    [getdir] maps different dates to different paths. *)
Theorem getdir_date_inj (db : Database.Database) (key : string)
  (d d' : Database.date) :
  printable_date d -> printable_date d' ->
  Database.getdir db key d = Database.getdir db key d' -> d = d'.
Proof.
  intros Hd Hd' E. unfold Database.getdir, path_join in E.
  cbn [fold_left] in E.
  apply join_step_inj in E; try apply strftime_Ymd_relative.
  now apply strftime_Ymd_inj.
Qed.

Lemma getdir_date_inj_witness :
  demo_date
  = {| Database.year := 2019; Database.month := 3; Database.day := 7 |}.
Proof.
  apply (getdir_date_inj demo_db "VTI");
    [unfold printable_date; simpl; lia
    |unfold printable_date; simpl; lia
    |reflexivity].
Defined.

(** X4.  A key that starts with a separator is taken as an absolute path:
    the directory of the store plays no part in [getdir], [get] and
    [getlatest] for it. *)
Theorem absolute_key_ignores_store (key : string) :
  startswith_sep key = true ->
  forall (fs : filesystem) (db db' : Database.Database) (d : Database.date),
    Database.getdir db key d = path_join key [Database.strftime_Ymd d]
    /\ Database.get fs db key d = Database.get fs db' key d
    /\ Database.getlatest fs db key = Database.getlatest fs db' key.
Proof.
  intros Hk fs db db' d.
  assert (J : forall root, join_step root key = key).
  { intros root. unfold join_step. now rewrite Hk. }
  assert (G : forall db0, Database.getdir db0 key d
                          = path_join key [Database.strftime_Ymd d]).
  { intros db0. unfold Database.getdir, path_join. cbn [fold_left].
    now rewrite J. }
  split; [apply G|]. split.
  - unfold Database.get. now rewrite (G db), (G db').
  - unfold Database.getlatest, Database.getlatest_body, path_join.
    cbn [fold_left]. now rewrite (J (Database.directory db)),
                             (J (Database.directory db')).
Qed.

Lemma absolute_key_ignores_store_witness :
  Database.getdir demo_db "/tmp" demo_date
  = path_join "/tmp" [Database.strftime_Ymd demo_date]
  /\ Database.get demo_fs demo_db "/tmp" demo_date
     = Database.get demo_fs {| Database.directory := "/srv/store" |}
                    "/tmp" demo_date
  /\ Database.getlatest demo_fs demo_db "/tmp"
     = Database.getlatest demo_fs {| Database.directory := "/srv/store" |} "/tmp".
Proof.
  apply (absolute_key_ignores_store "/tmp"). reflexivity.
Defined.

(** ** database.py: [getlatest] and [get] together *)







(** ** portfolio.py: how [check_holdings] fails *)

Section CheckHoldingsOutcome.
Context {num : Type} `{Number num}.

Lemma check_dashes_outcome (t : Table num) (cs : list string) :
  check_dashes t cs = Ok tt
  \/ (exists message, check_dashes t cs = Raise (ValueError message))
  \/ (exists e, check_dashes t cs = Raise e
                /\ exists c, In c (columns t) /\ values t c = Raise e).
Proof.
  induction cs as [|c cs IH]; cbn [check_dashes]; auto.
  destruct (mem c (columns t)) eqn:E; cbn [negb]; auto.
  destruct (values t c) as [vs|e] eqn:V; cbn [res_bind].
  - destruct (has_dash vs); eauto.
  - right. right. exists e. split; auto. exists c. split; auto.
    now apply mem_In.
Qed.

(** The three ways [check_holdings] can end on a table whose rows have one
    cell per column. *)
Lemma check_holdings_cases (t : Table num) :
  wf_table t ->
  ((extra_column t \/ required_missing t \/ no_id_column t \/ bad_asstype t)
   /\ exists message, check_holdings t = Raise (AssertionError message))
  \/ (~ (extra_column t \/ required_missing t \/ no_id_column t
         \/ bad_asstype t)
      /\ dash_in_id t
      /\ exists message, check_holdings t = Raise (ValueError message))
  \/ (~ (extra_column t \/ required_missing t \/ no_id_column t
         \/ bad_asstype t)
      /\ ~ dash_in_id t
      /\ check_holdings t = Ok tt).
Proof.
  intros Hwf. unfold check_holdings. cbv zeta.
  pose proof (extra_column_dec t) as Hx.
  pose proof (required_missing_dec t) as Hr.
  pose proof (no_id_column_dec t) as Hi.
  pose proof (bad_asstype_dec t) as Hb.
  pose proof (check_dashes_fails t IDCOLUMNS Hwf) as Hd.
  fold (dash_in_id t) in Hd.
  destruct (nonempty (List.filter _ (columns t))); cbn [negb assert res_bind].
  { left. split; [left; now apply Hx | eauto]. }
  assert (Nx : ~ extra_column t) by (rewrite <- Hx; discriminate).
  destruct (forallb (fun c => mem c (columns t)) ["asstype"; "fraction"]) eqn:Er;
    cbn [assert res_bind].
  2:{ left. split; [right; left; now apply Hr | eauto]. }
  assert (Nr : ~ required_missing t) by (rewrite <- Hr; discriminate).
  destruct (existsb (fun c => mem c (columns t)) IDCOLUMNS);
    cbn [assert res_bind].
  2:{ left. split; [right; right; left; now apply Hi | eauto]. }
  assert (Ni : ~ no_id_column t) by (rewrite <- Hi; discriminate).
  assert (Ha : In "asstype" (columns t)).
  { rewrite forallb_forall in Er. apply mem_In, Er. simpl. auto. }
  rewrite (values_column_cells t "asstype" Hwf Ha). cbn [res_bind].
  destruct (forallb in_ASSTYPES (column_cells t "asstype"));
    cbn [assert res_bind].
  2:{ left. split; [do 3 right; now apply Hb | eauto]. }
  assert (Nb : ~ bad_asstype t) by (rewrite <- Hb; discriminate).
  assert (N : ~ (extra_column t \/ required_missing t \/ no_id_column t
                 \/ bad_asstype t)) by tauto.
  right.
  destruct (check_dashes_outcome t IDCOLUMNS) as [E|[[message E]|(e & E & c & Hc & V)]].
  - right. rewrite E. repeat split; auto.
    rewrite <- Hd, E. discriminate.
  - left. rewrite E. repeat split; eauto.
    apply Hd. now rewrite E.
  - rewrite (values_column_cells t c Hwf Hc) in V. discriminate.
Qed.

(** X6.  On a table whose rows have one cell per column, [check_holdings]
    raises nothing but [AssertionError] and [ValueError].  It raises
    [AssertionError] exactly for the defects of shape and asset class (a
    column that is not allowed, a required column or every identifier column
    missing, an asset class outside the three), and [ValueError] exactly
    when the table has none of these and holds "-" in an identifier
    column: the four assertions come before the scan for "-". *)
Theorem check_holdings_exception_kind (t : Table num) :
  wf_table t ->
  ((exists message, check_holdings t = Raise (AssertionError message))
   <-> extra_column t \/ required_missing t \/ no_id_column t
       \/ bad_asstype t)
  /\ ((exists message, check_holdings t = Raise (ValueError message))
      <-> ~ (extra_column t \/ required_missing t \/ no_id_column t
             \/ bad_asstype t)
          /\ dash_in_id t)
  /\ (forall e, check_holdings t = Raise e ->
                (exists message, e = AssertionError message)
                \/ (exists message, e = ValueError message)).
Proof.
  intros Hwf.
  destruct (check_holdings_cases t Hwf)
    as [(D & m & E)|[(N & D & m & E)|(N & D & E)]]; rewrite E.
  - split; [split; [intros _; exact D | intros _; eauto]|].
    split; [split; [intros (m' & E'); discriminate E' | tauto]|].
    intros e E'. injection E' as <-. eauto.
  - split; [split; [intros (m' & E'); discriminate E' | tauto]|].
    split; [split; [tauto | intros _; eauto]|].
    intros e E'. injection E' as <-. eauto.
  - split; [split; [intros (m' & E'); discriminate E' | tauto]|].
    split; [split; [intros (m' & E'); discriminate E' | tauto]|].
    intros e E'. discriminate E'.
Qed.

End CheckHoldingsOutcome.

Lemma check_holdings_exception_kind_witness :
  (exists message, check_holdings dash_holdings = Raise (ValueError message))
  <-> ~ (extra_column dash_holdings \/ required_missing dash_holdings
         \/ no_id_column dash_holdings \/ bad_asstype dash_holdings)
      /\ dash_in_id dash_holdings.
Proof.
  apply (check_holdings_exception_kind dash_holdings).
  repeat constructor.
Defined.

(** ** portfolio.py: [check_holdings] and [add_missing_columns] together *)

Section CheckThenAdd.
Context {num : Type} `{Number num}.

Lemma column_cells_extended (t : Table num) (more : list string)
  (ext : list (value num)) (c : string) :
  wf_table t -> In c (columns t) ->
  column_cells {| columns := columns t ++ more;
                  rows := List.map (fun r => r ++ ext) (rows t) |} c
  = column_cells t c.
Proof.
  intros Hwf Hc. unfold column_cells. cbn [columns rows].
  destruct (index_of_In c _ Hc) as [i Hi].
  rewrite (index_of_app_l c _ more i Hi), Hi.
  apply index_of_bound in Hi.
  unfold wf_table in Hwf.
  induction Hwf as [|r rs Hr Hrs IH]; cbn [List.map flat_map]; auto.
  rewrite IH. now rewrite nth_error_app1 by lia.
Qed.

Lemma extended_wf (t : Table num) (cs : list string) :
  wf_table t ->
  wf_table {| columns := columns t ++ absent (columns t) cs;
              rows := List.map
                        (fun r => r ++ blanks (List.length (absent (columns t) cs)))
                        (rows t) |}.
Proof.
  unfold wf_table. cbn [columns rows]. intros Hwf.
  apply Forall_map. eapply Forall_impl; [|exact Hwf].
  intros r Hr. cbv beta. rewrite !length_app, Hr.
  unfold blanks. now rewrite repeat_length.
Qed.

(** X7.  What [check_holdings] accepts it still accepts after
    [add_missing_columns]: on a table whose rows have one cell per column,
    filling in the identifier columns keeps the rows so, and neither adds a
    column that is not allowed nor a "-". *)
Theorem check_holdings_after_add_missing_columns (t : Table num) :
  wf_table t ->
  check_holdings t = Ok tt ->
  exists t',
    add_missing_columns t = Ok t'
    /\ wf_table t'
    /\ check_holdings t' = Ok tt.
Proof.
  intros Hwf Hok. unfold add_missing_columns.
  rewrite (add_columns_spec IDCOLUMNS IDCOLUMNS_NoDup t).
  set (t' := {| columns := columns t ++ absent (columns t) IDCOLUMNS;
                rows := List.map
                          (fun r => r ++ blanks (List.length
                                                   (absent (columns t) IDCOLUMNS)))
                          (rows t) |}).
  assert (Hwf' : wf_table t') by now apply extended_wf.
  exists t'. split; [reflexivity|]. split; [exact Hwf'|].
  destruct (check_holdings_cases t Hwf)
    as [(_ & m & E)|[(_ & _ & m & E)|(N & D & _)]];
    try (rewrite E in Hok; discriminate Hok).
  assert (Habs : forall c, In c (absent (columns t) IDCOLUMNS) ->
                           In c IDCOLUMNS /\ ~ In c (columns t)).
  { intros c Hc. apply filter_In in Hc. destruct Hc as [Hc Hm]. split; auto.
    apply mem_not_In. now destruct (mem c (columns t)). }
  assert (N' : ~ (extra_column t' \/ required_missing t' \/ no_id_column t'
                  \/ bad_asstype t')).
  { intros [X|[X|[X|X]]].
    - destruct X as (c & Hc & Hn). cbn [columns t'] in Hc.
      apply in_app_or in Hc. destruct Hc as [Hc|Hc].
      + apply N. left. exists c. auto.
      + apply Hn. apply in_or_app. right. now apply Habs.
    - apply N. right. left. unfold required_missing in *. cbn [columns t'] in X.
      destruct X as [X|X]; [left|right]; intros Hc; apply X;
        apply in_or_app; now left.
    - apply N. right. right. left. intros c Hc Hin.
      apply (X c Hc). cbn [columns t']. apply in_or_app. now left.
    - apply N. do 3 right. unfold bad_asstype in *.
      assert (Ha : In "asstype" (columns t)).
      { destruct (mem "asstype" (columns t)) eqn:Em; [now apply mem_In|].
        exfalso. apply N. right. left. left. now apply mem_not_In. }
      unfold t' in X. now rewrite (column_cells_extended t _ _ _ Hwf Ha) in X. }
  assert (D' : ~ dash_in_id t').
  { intros (c & Hc & Hin & Hd). cbn [columns t'] in Hin.
    destruct (mem c (columns t)) eqn:Em.
    - apply mem_In in Em. apply D. exists c. repeat split; auto.
      unfold t' in Hd. now rewrite (column_cells_extended t _ _ _ Hwf Em) in Hd.
    - apply mem_not_In in Em.
      assert (Ha : In c (absent (columns t) IDCOLUMNS)).
      { apply filter_In. split; auto. apply mem_not_In in Em. now rewrite Em. }
      pose proof (values_blank_column t IDCOLUMNS c Hwf Ha) as V.
      fold t' in V.
      rewrite (values_column_cells t' c Hwf' Hin) in V.
      injection V as V. rewrite V in Hd.
      apply in_map_iff in Hd. destruct Hd as (r & Hr & _). discriminate Hr. }
  destruct (check_holdings_cases t' Hwf')
    as [(X & _)|[(_ & X & _)|(_ & _ & E)]]; [tauto | tauto | exact E].
Qed.

End CheckThenAdd.

Lemma check_holdings_after_add_missing_columns_witness :
  exists t',
    add_missing_columns disclosed_holdings = Ok t'
    /\ wf_table t'
    /\ check_holdings t' = Ok tt.
Proof.
  apply (check_holdings_after_add_missing_columns disclosed_holdings).
  - repeat constructor.
  - reflexivity.
Defined.

(** ** portfolio.py: the positions of [main] one by one *)

Section Positions.
Context {num : Type} `{Number num}.
Variable registry : string -> option (Downloader (num := num)).
Variable group : Table num -> option string -> res (Table num * Table num).
Variable numpy_sum : list num -> num.
Variable open_w : string -> res unit.
Variable fs : filesystem.
Variable args : Args (num := num).

Lemma collect_skip (row : Position) (out : list (event num))
  (rest : list Position) (alltables : list (Table num)) :
  position_table registry fs args row = (out, Ok None) ->
  collect registry fs args (row :: rest) alltables
  = (let (out', r) := collect registry fs args rest alltables in
     (out ++ out', r)).
Proof. intros E. cbn [collect]. rewrite E. reflexivity. Qed.

Lemma collect_abort (row : Position) (out : list (event num)) (e : exn)
  (rest : list Position) (alltables : list (Table num)) :
  position_table registry fs args row = (out, Raise e) ->
  collect registry fs args (row :: rest) alltables = (out, Raise e).
Proof. intros E. cbn [collect]. rewrite E. reflexivity. Qed.

Lemma main_abort (assets pre rest : list Position) (row : Position)
  (out out' : list (event num)) (alltables : list (Table num)) (e : exn) :
  order assets = pre ++ row :: rest ->
  collect registry fs args pre [] = (out, Ok alltables) ->
  position_table registry fs args row = (out', Raise e) ->
  main registry group numpy_sum open_w fs args assets = (out ++ out', Raise e).
Proof.
  intros Ho Hpre Hp. unfold main, fulltable_of.
  rewrite Ho, collect_app, Hpre. cbn [bind].
  rewrite (collect_abort row out' e rest alltables Hp). reflexivity.
Qed.

(** X8.  A position with no issuer that is not skipped as a short gives
    exactly one row: its own ticker as [etf] and as [ticker], its account,
    the asset class Equity, empty strings for the other identifiers, and
    the amount 1.0 times quantity times price.  Neither the registry nor
    the store is consulted and nothing is logged. *)
Theorem direct_position_row (row : Position) :
  str_empty (issuer row) = true ->
  n_lt (quantity row) n_zero && ignore_shorts args = false ->
  position_table registry fs args row
  = ([], Ok (Some {| columns := canonical_columns;
                     rows := [[VStr (ticker row); VStr (account row);
                               VStr "Equity"; VStr ""; VStr (ticker row);
                               VStr ""; VStr ""; VStr "";
                               VNum (n_mul n_one
                                       (n_mul (quantity row) (price row)))]]
                  |})).
Proof.
  intros Hi Hs. unfold position_table, holdings_of. rewrite Hs, Hi.
  reflexivity.
Qed.

(** X9.  Two gaps are skipped and do not stop the run.  When the issuer
    is registered but no snapshot is found for the ticker, the position
    gives no row and one error record; when a snapshot is found but the
    issuer has no parser, the parse is announced and then the error
    record follows.  In both cases the loop goes on with the remaining
    positions and the tables combined so far. *)
Theorem lookup_gaps_are_skipped (row : Position) (downloader : Downloader) :
  n_lt (quantity row) n_zero && ignore_shorts args = false ->
  str_empty (issuer row) = false ->
  registry (issuer row) = Some downloader ->
  (Database.getlatest fs {| Database.directory := dbdir args |} (ticker row)
   = Ok None ->
   forall rest alltables,
     collect registry fs args (row :: rest) alltables
     = bind (emit (LogError (Text ("Missing file for " ++ ticker row))))
            (fun _ => collect registry fs args rest alltables))
  /\ (forall filename,
         Database.getlatest fs {| Database.directory := dbdir args |}
                            (ticker row)
         = Ok (Some filename) ->
         parse downloader = None ->
         forall rest alltables,
           collect registry fs args (row :: rest) alltables
           = bind (emit (LogInfo (Text ("Parsing file '" ++ filename
                                          ++ "' with '" ++ issuer row ++ "'"))))
                  (fun _ =>
                     bind (emit (LogError (Text ("Parser for " ++ ticker row
                                                   ++ " is not implemented"))))
                          (fun _ => collect registry fs args rest alltables))).
Proof.
  intros Hs Hi Hr. split.
  - intros Hl rest alltables.
    rewrite (collect_skip row
               [LogError (Text ("Missing file for " ++ ticker row))]).
    + reflexivity.
    + unfold position_table, holdings_of. rewrite Hs, Hi, Hr, Hl. reflexivity.
  - intros filename Hl Hp rest alltables.
    rewrite (collect_skip row
               [LogInfo (Text ("Parsing file '" ++ filename ++ "' with '"
                                 ++ issuer row ++ "'"));
                LogError (Text ("Parser for " ++ ticker row
                                  ++ " is not implemented"))]).
    + cbn [bind emit].
      destruct (collect registry fs args rest alltables) as (out' & r).
      reflexivity.
    + unfold position_table, holdings_of. rewrite Hs, Hi, Hr, Hl.
      cbn [lift bind emit ret app]. rewrite Hp. reflexivity.
Qed.

(** X10.  Three failures end the whole run with the exception they raise:
    an error of the store other than a missing directory, an exception of
    the parser, and a table that [check_holdings] rejects.  The positions
    after the failing one are not processed and nothing is reported: the
    output of the run is what the positions before it emitted, followed,
    in the last two cases, by the record announcing the parse, and by
    nothing in the first. *)
Theorem position_failures_abort (row : Position) (downloader : Downloader)
  (e : exn) :
  n_lt (quantity row) n_zero && ignore_shorts args = false ->
  str_empty (issuer row) = false ->
  registry (issuer row) = Some downloader ->
  (Database.getlatest fs {| Database.directory := dbdir args |} (ticker row)
   = Raise e ->
   (forall rest alltables,
       collect registry fs args (row :: rest) alltables = ([], Raise e))
   /\ (forall assets pre rest out0 alltables,
          order assets = pre ++ row :: rest ->
          collect registry fs args pre [] = (out0, Ok alltables) ->
          main registry group numpy_sum open_w fs args assets
          = (out0, Raise e)))
  /\ (forall filename parser,
         Database.getlatest fs {| Database.directory := dbdir args |}
                            (ticker row)
         = Ok (Some filename) ->
         parse downloader = Some parser ->
         (parser filename = Raise e
          \/ exists holdings, parser filename = Ok holdings
                              /\ check_holdings holdings = Raise e) ->
         let announced :=
           [LogInfo (Text ("Parsing file '" ++ filename ++ "' with '"
                             ++ issuer row ++ "'"))] in
         (forall rest alltables,
             collect registry fs args (row :: rest) alltables
             = (announced, Raise e))
         /\ (forall assets pre rest out0 alltables,
                order assets = pre ++ row :: rest ->
                collect registry fs args pre [] = (out0, Ok alltables) ->
                main registry group numpy_sum open_w fs args assets
                = (out0 ++ announced, Raise e))).
Proof.
  intros Hs Hi Hr. split.
  - intros Hl.
    assert (Hp : position_table registry fs args row = ([], Raise e)).
    { unfold position_table, holdings_of. rewrite Hs, Hi, Hr, Hl.
      reflexivity. }
    split.
    + intros rest alltables. now apply collect_abort.
    + intros assets pre rest out0 alltables Ho Hpre.
      rewrite (main_abort assets pre rest row out0 [] alltables e Ho Hpre Hp).
      now rewrite app_nil_r.
  - intros filename parser Hl Hp Hf announced.
    assert (Hpt : position_table registry fs args row = (announced, Raise e)).
    { unfold position_table, holdings_of. rewrite Hs, Hi, Hr, Hl.
      cbn [lift bind emit ret app]. rewrite Hp.
      destruct Hf as [Hf|(holdings & Hf & Hc)]; rewrite Hf;
        [reflexivity|].
      cbn [lift bind emit ret app]. rewrite Hc. reflexivity. }
    split.
    + intros rest alltables. now apply collect_abort.
    + intros assets pre rest out0 alltables Ho Hpre.
      now apply (main_abort assets pre rest row out0 announced alltables e).
Qed.

End Positions.

Lemma direct_position_row_witness :
  position_table demo_registry demo_fs default_args
                 (direct_position "Assets:Broker")
  = ([], Ok (Some {| columns := canonical_columns;
                     rows := [[VStr "XYZ"; VStr "Assets:Broker";
                               VStr "Equity"; VStr ""; VStr "XYZ";
                               VStr ""; VStr ""; VStr "";
                               VNum (n_mul n_one
                                       (n_mul 100%float 10.0%float))]] |})).
Proof.
  apply (direct_position_row demo_registry demo_fs default_args
           (direct_position "Assets:Broker")); reflexivity.
Defined.

Lemma lookup_gaps_are_skipped_witness :
  collect demo_registry demo_fs default_args
          [absent_position; direct_position "Assets:Broker"] []
  = bind (emit (LogError (Text "Missing file for VXUS")))
         (fun _ => collect demo_registry demo_fs default_args
                           [direct_position "Assets:Broker"] []).
Proof.
  destruct (lookup_gaps_are_skipped demo_registry demo_fs default_args
              absent_position
              {| parse := Some (fun _ => Ok disclosed_holdings) |})
    as [Hskip _]; [reflexivity | reflexivity | reflexivity |].
  apply Hskip. reflexivity.
Defined.

Lemma position_failures_abort_witness :
  ((forall rest alltables,
       collect demo_registry blocked_fs default_args (fund_position :: rest)
               alltables
       = ([], Raise (NotADirectoryError "/db/VTI/2019/03/07")))
   /\ (forall assets pre rest out0 alltables,
          order assets = pre ++ fund_position :: rest ->
          collect demo_registry blocked_fs default_args pre []
          = (out0, Ok alltables) ->
          main demo_registry demo_group n_sum writable blocked_fs default_args
               assets
          = (out0, Raise (NotADirectoryError "/db/VTI/2019/03/07"))))
  /\ ((forall rest alltables,
         collect dash_registry demo_fs default_args (fund_position :: rest)
                 alltables
         = ([LogInfo (Text "Parsing file '/db/VTI/2019/03/07/b.csv' with 'Vanguard'")],
            Raise (ValueError "Invalid value '-' in column 'cusip'")))
      /\ (forall assets pre rest out0 alltables,
             order assets = pre ++ fund_position :: rest ->
             collect dash_registry demo_fs default_args pre []
             = (out0, Ok alltables) ->
             main dash_registry demo_group n_sum writable demo_fs default_args
                  assets
             = (out0
                ++ [LogInfo (Text "Parsing file '/db/VTI/2019/03/07/b.csv' with 'Vanguard'")],
                Raise (ValueError "Invalid value '-' in column 'cusip'")))).
Proof.
  split.
  - destruct (position_failures_abort demo_registry demo_group n_sum
                writable blocked_fs default_args fund_position
                {| parse := Some (fun _ => Ok disclosed_holdings) |}
                (NotADirectoryError "/db/VTI/2019/03/07"))
      as [Hstore _]; [reflexivity | reflexivity | reflexivity |].
    apply Hstore. reflexivity.
  - destruct (position_failures_abort dash_registry demo_group n_sum
                writable demo_fs default_args fund_position
                {| parse := Some (fun _ => Ok dash_holdings) |}
                (ValueError "Invalid value '-' in column 'cusip'"))
      as [_ Hparse]; [reflexivity | reflexivity | reflexivity |].
    apply (Hparse "/db/VTI/2019/03/07/b.csv" (fun _ => Ok dash_holdings)).
    + reflexivity.
    + reflexivity.
    + right. exists dash_holdings. split; reflexivity.
Defined.

(** ** portfolio.py: the order in which positions are processed *)

Section Order.
Context {num : Type} `{Number num}.

Local Abbreviation Position := (Position (num := num)) (only parsing).

Lemma string_compare_refl (s : string) : String.compare s s = Eq.
Proof.
  induction s as [|c s IH]; simpl; auto.
  now rewrite ascii_compare_refl.
Qed.

Lemma order_key_leb_total (a b : Position) :
  order_key_leb a b = true \/ order_key_leb b a = true.
Proof.
  unfold order_key_leb.
  rewrite (String.compare_antisym (issuer b) (issuer a)).
  destruct (String.compare (issuer a) (issuer b)); cbn [CompOpp]; auto.
  apply String.leb_total.
Qed.

Lemma order_key_leb_trans (a b c : Position) :
  order_key_leb a b = true -> order_key_leb b c = true ->
  order_key_leb a c = true.
Proof.
  unfold order_key_leb.
  destruct (String.compare (issuer a) (issuer b)) eqn:Eab; try discriminate;
    destruct (String.compare (issuer b) (issuer c)) eqn:Ebc; try discriminate;
    intros Hab Hbc.
  - apply String.compare_eq_iff in Eab, Ebc. rewrite Eab, Ebc.
    rewrite string_compare_refl. eapply string_leb_trans; eauto.
  - apply String.compare_eq_iff in Eab. now rewrite Eab, Ebc.
  - apply String.compare_eq_iff in Ebc. now rewrite <- Ebc, Eab.
  - now rewrite (string_compare_lt_trans _ _ _ Eab Ebc).
Qed.

Lemma order_key_leb_antisym (a b : Position) :
  order_key_leb a b = true -> order_key_leb b a = true ->
  issuer a = issuer b /\ ticker a = ticker b.
Proof.
  unfold order_key_leb.
  rewrite (String.compare_antisym (issuer b) (issuer a)).
  destruct (String.compare (issuer a) (issuer b)) eqn:E; cbn [CompOpp];
    try discriminate.
  intros Hab Hba. apply String.compare_eq_iff in E. split; auto.
  now apply String.leb_antisym.
Qed.

Lemma insert_position_perm (x : Position) (l : list Position) :
  Permutation (x :: l) (insert_position x l).
Proof.
  induction l as [|y l IH]; simpl; auto.
  destruct (order_key_leb x y); auto.
  rewrite perm_swap. now constructor.
Qed.

Lemma order_perm (l : list Position) : Permutation l (order l).
Proof.
  induction l as [|x l IH]; simpl; auto.
  rewrite <- insert_position_perm. now constructor.
Qed.

Lemma insert_position_in_order (x : Position) (l : list Position) :
  in_order l -> in_order (insert_position x l).
Proof.
  unfold in_order. induction 1 as [|y l Hs IH Hy]; simpl.
  - repeat constructor.
  - destruct (order_key_leb x y) eqn:Hxy.
    + constructor; [now constructor|].
      constructor; auto.
      eapply Forall_impl; [|exact Hy].
      intros z Hz. eapply order_key_leb_trans; eauto.
    + constructor; auto.
      eapply Permutation_Forall; [apply insert_position_perm|].
      constructor; auto.
      destruct (order_key_leb_total x y); congruence.
Qed.

Lemma order_in_order (l : list Position) : in_order (order l).
Proof.
  induction l; simpl; [constructor | now apply insert_position_in_order].
Qed.

Lemma insert_position_below (x : Position) (l : list Position) :
  Forall (fun y => order_key_leb x y = true) l ->
  insert_position x l = x :: l.
Proof.
  destruct 1 as [|y l Hy _]; simpl; auto. now rewrite Hy.
Qed.

(** Two lists in processing order with the same positions are equal when
    no two positions share issuer and ticker. *)
Lemma in_order_unique (l1 : list Position) :
  forall l2,
    in_order l1 -> in_order l2 -> Permutation l1 l2 -> distinct_keys l1 ->
    l1 = l2.
Proof.
  unfold in_order.
  induction l1 as [|x l1 IH]; intros l2 S1 S2 P D.
  - apply Permutation_nil in P. now subst.
  - destruct l2 as [|y l2].
    { symmetry in P. apply Permutation_nil in P. discriminate. }
    inversion S1 as [|? ? S1' F1]; subst.
    inversion S2 as [|? ? S2' F2]; subst.
    assert (Hxy : x = y).
    { assert (Hy : In y (x :: l1)).
      { eapply Permutation_in; [symmetry; exact P | simpl; auto]. }
      assert (Hx : In x (y :: l2)).
      { eapply Permutation_in; [exact P | simpl; auto]. }
      destruct Hy as [Hy|Hy]; [exact Hy|].
      destruct Hx as [Hx|Hx]; [now symmetry|].
      rewrite Forall_forall in F1, F2.
      destruct (order_key_leb_antisym x y (F1 y Hy) (F2 x Hx)) as [Ei Et].
      apply D; simpl; auto. }
    subst y. f_equal. apply IH; auto.
    + now apply Permutation_cons_inv in P.
    + intros a b Ha Hb. apply D; simpl; auto.
Qed.

End Order.

Section OrderOfMain.
Context {num : Type} `{Number num}.
Variable registry : string -> option (Downloader (num := num)).
Variable group : Table num -> option string -> res (Table num * Table num).
Variable numpy_sum : list num -> num.
Variable open_w : string -> res unit.
Variable fs : filesystem.
Variable args : Args (num := num).

Local Abbreviation Position := (Position (num := num)) (only parsing).

(** X11.  The run does not depend on the order in which the portfolio file
    lists its positions, as long as no two positions have the same issuer
    and ticker: [main] logs, writes, prints and returns or raises the same
    for every rearrangement of the rows. *)
Theorem main_order_independent (assets assets' : list Position) :
  Permutation assets assets' ->
  distinct_keys assets ->
  main registry group numpy_sum open_w fs args assets = main registry group numpy_sum open_w fs args assets'.
Proof.
  intros P D.
  assert (E : order assets = order assets').
  { apply in_order_unique; try apply order_in_order.
    - rewrite <- (order_perm assets), <- (order_perm assets'). exact P.
    - intros a b Ha Hb. apply D;
        eapply Permutation_in; try (symmetry; apply order_perm); assumption. }
  unfold main, fulltable_of. now rewrite E.
Qed.

Lemma insert_position_filter (p : Position -> bool) (x : Position)
  (l : list Position) :
  in_order l ->
  List.filter p (insert_position x l)
  = if p x then insert_position x (List.filter p l) else List.filter p l.
Proof.
  unfold in_order. induction 1 as [|y l Hs IH Hy]; cbn [insert_position].
  - cbn [List.filter]. destruct (p x); reflexivity.
  - destruct (order_key_leb x y) eqn:Hxy.
    + cbn [List.filter]. destruct (p x) eqn:Px; [|reflexivity].
      destruct (p y) eqn:Py.
      * cbn [insert_position]. now rewrite Hxy.
      * symmetry. apply insert_position_below.
        apply Forall_forall. intros z Hz. apply filter_In in Hz.
        rewrite Forall_forall in Hy.
        eapply order_key_leb_trans; [exact Hxy | apply Hy, Hz].
    + cbn [List.filter]. rewrite IH.
      destruct (p y) eqn:Py; destruct (p x) eqn:Px; try reflexivity.
      cbn [insert_position]. now rewrite Hxy.
Qed.

Lemma order_filter (p : Position -> bool) (l : list Position) :
  List.filter p (order l) = order (List.filter p l).
Proof.
  induction l as [|x l IH]; cbn [order List.filter]; auto.
  rewrite insert_position_filter by apply order_in_order.
  rewrite IH. destruct (p x); reflexivity.
Qed.

Lemma collect_without_shorts (l : list Position) :
  ignore_shorts args = true ->
  forall alltables,
    collect registry fs args l alltables
    = collect registry fs args
              (List.filter (fun row => negb (is_short row)) l) alltables.
Proof.
  intros Hi. induction l as [|row l IH]; intros alltables; auto.
  cbn [List.filter]. destruct (is_short row) eqn:Es; cbn [negb].
  - rewrite <- IH. cbn [collect].
    unfold position_table. unfold is_short in Es. rewrite Es, Hi.
    cbn [andb ret bind].
    destruct (collect registry fs args l alltables) as (out & r).
    reflexivity.
  - cbn [collect]. apply bind_ext. intros t. apply IH.
Qed.

(** X12.  With [--ignore-shorts] the run is the run on the portfolio
    without its positions of negative quantity: they give no row and no
    log record, and no lookup is made for them, so that a short position
    stops the run neither for a missing issuer nor for a rejected
    table. *)
Theorem ignore_shorts_drops_positions (assets : list Position) :
  ignore_shorts args = true ->
  main registry group numpy_sum open_w fs args assets
  = main registry group numpy_sum open_w fs args
         (List.filter (fun row => negb (is_short row)) assets).
Proof.
  intros Hi. unfold main, fulltable_of.
  rewrite (collect_without_shorts (order assets) Hi).
  now rewrite order_filter.
Qed.

End OrderOfMain.

Lemma main_order_independent_witness :
  main demo_registry demo_group n_sum writable demo_fs lenient_args
       [unknown_position; direct_position "Assets:Broker"]
  = main demo_registry demo_group n_sum writable demo_fs lenient_args
         [direct_position "Assets:Broker"; unknown_position].
Proof.
  apply main_order_independent.
  - apply perm_swap.
  - intros a b [<-|[<-|[]]] [<-|[<-|[]]] Ei Et;
      try reflexivity; discriminate Ei.
Defined.

Lemma ignore_shorts_drops_positions_witness :
  main demo_registry demo_group n_sum writable demo_fs shorts_args
       [short_position; direct_position "Assets:Broker"]
  = main demo_registry demo_group n_sum writable demo_fs shorts_args
         (List.filter (fun row => negb (is_short row))
                      [short_position; direct_position "Assets:Broker"]).
Proof.
  apply ignore_shorts_drops_positions. reflexivity.
Defined.

(** ** portfolio.py: the combined table *)

Section Combined.
Context {num : Type} `{Number num}.
Variable registry : string -> option (Downloader (num := num)).
Variable fs : filesystem.
Variable args : Args (num := num).

Local Abbreviation Position := (Position (num := num)) (only parsing).

Lemma res_map_length {A B} (f : A -> res B) (xs : list A) (ys : list B) :
  res_map f xs = Ok ys -> List.length ys = List.length xs.
Proof.
  revert ys. induction xs as [|x xs IH]; simpl; intros ys E.
  - now inversion E.
  - destruct (f x); [|discriminate].
    destruct (res_map f xs) as [zs|]; [|discriminate].
    inversion E. simpl. now rewrite (IH zs).
Qed.

Lemma res_map_Forall {A B} (f : A -> res B) (P : B -> Prop) (xs : list A)
  (ys : list B) :
  (forall x y, In x xs -> f x = Ok y -> P y) ->
  res_map f xs = Ok ys -> Forall P ys.
Proof.
  revert ys. induction xs as [|x xs IH]; simpl; intros ys HP E.
  - inversion E. constructor.
  - destruct (f x) as [y|] eqn:Ex; [|discriminate].
    destruct (res_map f xs) as [zs|]; [|discriminate].
    inversion E. constructor; eauto.
Qed.

(** X13.  The tables combined so far are never dropped, reordered or
    looked at: the loop over positions appends to them, and what it logs
    and whether it fails is the same whatever they are.  It appends at
    most one table per position. *)
Theorem collect_accumulates (l : list Position) :
  (forall alltables,
      collect registry fs args l alltables
      = (output (collect registry fs args l []),
         match outcome (collect registry fs args l []) with
         | Ok tables => Ok (alltables ++ tables)
         | Raise e => Raise e
         end))
  /\ (forall tables,
         outcome (collect registry fs args l []) = Ok tables ->
         List.length tables <= List.length l).
Proof.
  induction l as [|row l [IH1 IH2]].
  - split.
    + intros alltables. cbn. now rewrite app_nil_r.
    + intros tables E. cbn in E. injection E as <-. auto.
  - split.
    + intros alltables. cbn [collect].
      destruct (position_table registry fs args row) as (out & [t|e]);
        [|reflexivity].
      cbn [bind].
      rewrite (IH1 (match t with
                    | Some holdings => alltables ++ [holdings]
                    | None => alltables
                    end)).
      rewrite (IH1 (match t with
                    | Some holdings => [] ++ [holdings]
                    | None => []
                    end)).
      unfold output, outcome. cbn [fst snd].
      destruct (collect registry fs args l []) as (out' & [tables|e]);
        cbn [fst snd]; [|reflexivity].
      destruct t; cbn [app]; [|reflexivity].
      now rewrite <- app_assoc.
    + intros tables. cbn [collect].
      destruct (position_table registry fs args row) as (out & [t|e]);
        [|discriminate].
      cbn [bind].
      rewrite (IH1 (match t with
                    | Some holdings => [] ++ [holdings]
                    | None => []
                    end)).
      unfold outcome in *. cbn [snd].
      destruct (collect registry fs args l []) as (out' & [tables'|e]);
        cbn [fst snd] in *; [|discriminate].
      intros E. injection E as <-. specialize (IH2 tables' eq_refl).
      destruct t; cbn [app List.length]; rewrite ?length_app;
        cbn [List.length]; lia.
Qed.

End Combined.

Section Shape.
Context {num : Type} `{Number num}.
Variable registry : string -> option (Downloader (num := num)).
Variable fs : filesystem.
Variable args : Args (num := num).

Local Abbreviation Position := (Position (num := num)) (only parsing).

Lemma select_shape (t t' : Table num) (cs : list string) :
  select t cs = Ok t' ->
  columns t' = cs
  /\ Forall (fun r => List.length r = List.length cs) (rows t').
Proof.
  unfold select.
  destruct (res_map _ cs) as [idx|] eqn:Ei; cbn [res_bind]; [|discriminate].
  destruct (res_map _ (rows t)) as [rows'|] eqn:Er; cbn [res_bind];
    [|discriminate].
  intros E. injection E as <-. cbn [columns rows]. split; auto.
  apply res_map_length in Ei.
  eapply res_map_Forall; [|exact Er].
  intros r r' _ E. cbv beta in E. apply res_map_length in E. congruence.
Qed.

Lemma create_shape (t t' : Table num) (c : string)
  (f : list string -> list (value num) -> res (value num)) (n : nat) :
  Forall (fun r => List.length r = n) (rows t) ->
  create t c f = Ok t' ->
  columns t' = columns t ++ [c]
  /\ Forall (fun r => List.length r = S n) (rows t').
Proof.
  intros Hn. unfold create.
  destruct (res_map _ (rows t)) as [rows'|] eqn:Er; cbn [res_bind];
    [|discriminate].
  intros E. injection E as <-. cbn [columns rows]. split; auto.
  eapply res_map_Forall; [|exact Er].
  intros r r' Hr E. rewrite Forall_forall in Hn. cbv beta in E.
  destruct (f (columns t) r); cbn [res_bind] in E; [|discriminate].
  injection E as <-. rewrite length_app, (Hn r Hr). simpl. lia.
Qed.

Lemma to_amounts_shape (row : Position) (holdings t : Table num) :
  to_amounts row holdings = Ok t -> canonical_shape t.
Proof.
  unfold to_amounts, add_missing_columns.
  rewrite (add_columns_spec IDCOLUMNS IDCOLUMNS_NoDup holdings).
  cbn [res_bind]. rewrite create_const. cbn [res_bind].
  rewrite create_const. cbn [res_bind].
  destruct (select _ COLUMNS) as [t4|] eqn:E4; cbn [res_bind]; [|discriminate].
  destruct (select_shape _ _ _ E4) as [C4 R4].
  destruct (create t4 "amount" _) as [t5|] eqn:E5; cbn [res_bind];
    [|discriminate].
  destruct (create_shape _ _ _ _ _ R4 E5) as [C5 R5].
  intros E. injection E as <-. unfold canonical_shape, delete.
  cbn [columns rows]. rewrite C5, C4. split; [reflexivity|].
  apply Forall_map. eapply Forall_impl; [|exact R5].
  intros r Hr. cbv beta.
  change (List.length COLUMNS) with 9 in Hr.
  destruct r as [|v0 [|v1 [|v2 [|v3 [|v4 [|v5 [|v6 [|v7 [|v8 [|v9 [|v r]]]]]]]]]]];
    cbn [List.length] in Hr; try lia.
  reflexivity.
Qed.

Lemma collect_shape (l : list Position) :
  forall alltables out tables,
    Forall canonical_shape alltables ->
    collect registry fs args l alltables = (out, Ok tables) ->
    Forall canonical_shape tables.
Proof.
  induction l as [|row l IH]; intros alltables out tables Ha; cbn [collect].
  - intros E. injection E as _ <-. exact Ha.
  - unfold position_table.
    destruct (n_lt (quantity row) n_zero && ignore_shorts args).
    + cbn [ret bind].
      destruct (collect registry fs args l alltables) as (o & r) eqn:E.
      intros E'. injection E' as _ ->. eapply IH; eauto.
    + destruct (holdings_of registry fs args row) as (o1 & [[h|]|e]);
        cbn [bind ret lift]; try discriminate.
      * destruct (to_amounts row h) as [t|e] eqn:Et; cbn [bind ret lift];
          [|discriminate].
        destruct (collect registry fs args l (alltables ++ [t]))
          as (o & r) eqn:E.
        intros E'. injection E' as _ ->.
        eapply (IH (alltables ++ [t])); eauto.
        apply Forall_app. split; auto. constructor; auto.
        now apply (to_amounts_shape row h).
      * destruct (collect registry fs args l alltables) as (o & r) eqn:E.
        intros E'. injection E' as _ ->. eapply IH; eauto.
Qed.

(** X14.  Whatever the parsers return, a combined table that [main] gets
    to build has one cell per column in every row, and unless it has no
    row at all its columns are etf, account, asstype, name, ticker, sedol,
    isin, cusip and amount, in this order: every table appended by the
    loop has this shape, so that the tables concatenated are same-shaped. *)
Theorem fulltable_shape (assets : list Position) (out : list (event num))
  (t : Table num) :
  fulltable_of registry fs args assets = (out, Ok t) ->
  wf_table t
  /\ (rows t = [] \/ columns t = canonical_columns)
  /\ Forall (fun r => List.length r = 9) (rows t).
Proof.
  unfold fulltable_of.
  destruct (collect registry fs args (order assets) []) as (o & [tables|e])
    eqn:E; cbn [bind ret]; [|discriminate].
  intros E'. injection E' as _ <-.
  pose proof (collect_shape _ _ _ _ (Forall_nil _) E) as Hs.
  assert (R : Forall (fun r : list (value num) => List.length r = 9)
                     (List.concat (List.map rows tables))).
  { clear E. induction Hs as [|t ts [_ Ht] _ IH]; cbn; auto.
    apply Forall_app. split; auto. }
  unfold wf_table, concat. cbn [columns rows].
  destruct Hs as [|t ts [Ct Rt] Hts].
  - cbn. repeat split; auto.
  - rewrite Ct. repeat split; auto.
Qed.

End Shape.

Lemma fulltable_shape_witness :
  exists t : Table float,
    outcome (fulltable_of demo_registry demo_fs default_args
               [fund_position; direct_position "Assets:Broker"]) = Ok t
    /\ wf_table t
    /\ (rows t = [] \/ columns t = canonical_columns)
    /\ Forall (fun r => List.length r = 9) (rows t).
Proof.
  eexists. split; [reflexivity|].
  eapply (fulltable_shape demo_registry demo_fs default_args
            [fund_position; direct_position "Assets:Broker"]).
  reflexivity.
Defined.

(** ** portfolio.py: the report of [main] *)

Section Report.
Context {num : Type} `{Number num}.
Variable group : Table num -> option string -> res (Table num * Table num).
Variable numpy_sum : list num -> num.
Variable open_w : string -> res unit.
Variable args : Args (num := num).

Lemma cumsum_length (xs : list num) :
  forall acc, List.length (cumsum acc xs) = List.length xs.
Proof.
  induction xs as [|x xs IH]; intros acc; cbn [cumsum List.length]; auto.
Qed.

Lemma array_length (t : Table num) (c : string) (xs : list num) :
  array t c = Ok xs -> List.length xs = List.length (rows t).
Proof.
  unfold array, values.
  destruct (index_of c (columns t)); cbn [res_bind]; [|discriminate].
  destruct (res_map _ (rows t)) as [vs|] eqn:E; cbn [res_bind];
    [|discriminate].
  intros E'. apply res_map_length in E, E'. congruence.
Qed.

Lemma res_map_nth {A B} (f : A -> res B) (xs : list A) :
  forall (ys : list B) (k : nat) (x : A),
    res_map f xs = Ok ys -> nth_error xs k = Some x ->
    exists y, nth_error ys k = Some y /\ f x = Ok y.
Proof.
  induction xs as [|a xs IH]; intros ys k x E Hk.
  - destruct k; discriminate.
  - cbn [res_map] in E. destruct (f a) as [b|] eqn:Ea; [|discriminate].
    destruct (res_map f xs) as [zs|]; [|discriminate].
    inversion E; subst ys. destruct k as [|k]; cbn [nth_error] in *.
    + inversion Hk; subst. eauto.
    + eapply IH; eauto.
Qed.

(** A numeric column read as an array: the numbers of its cells. *)
Lemma array_number_at (t : Table num) (c : string) (xs : list num) :
  array t c = Ok xs ->
  exists i, index_of c (columns t) = Some i
            /\ res_map (number_at i) (rows t) = Ok xs.
Proof.
  unfold array, values. destruct (index_of c (columns t)) as [i|];
    cbn [res_bind]; [|discriminate].
  intros E. exists i. split; [reflexivity|].
  revert xs E. induction (rows t) as [|r rs IH]; intros xs E.
  - exact E.
  - cbn [res_map] in *. unfold number_at at 1.
    destruct (cell r i) as [v|]; cbn [res_bind] in *; [|discriminate].
    destruct (res_map (fun row => cell row i) rs) as [vs|];
      cbn [res_bind res_map] in *.
    + destruct v as [s|x|n]; try discriminate.
      destruct (res_map _ vs) as [zs|] eqn:Ez; [|discriminate].
      inversion E; subst xs. now rewrite (IH zs eq_refl).
    + discriminate.
Qed.

Lemma number_at_array (t : Table num) (c : string) (i : nat) (xs : list num) :
  index_of c (columns t) = Some i ->
  res_map (number_at i) (rows t) = Ok xs ->
  array t c = Ok xs.
Proof.
  unfold array, values. intros ->. cbn [res_bind].
  revert xs. induction (rows t) as [|r rs IH]; intros xs E.
  - exact E.
  - cbn [res_map] in *. unfold number_at at 1 in E.
    destruct (cell r i) as [[s|x|n]|]; cbn [res_bind] in *; try discriminate.
    destruct (res_map (number_at i) rs) as [zs|]; [|discriminate].
    specialize (IH zs eq_refl).
    destruct (res_map (fun row => cell row i) rs) as [vs|];
      cbn [res_bind res_map] in *; [|discriminate].
    now rewrite IH.
Qed.

(** The amount of the aggregate row that a group index points to. *)
Lemma aggregate_amount (aggtable : Table num) (amount : list num) (g : nat) :
  array aggtable "amount" = Ok amount ->
  g < List.length amount ->
  exists arow,
    nth_error (rows aggtable) g = Some arow
    /\ getattr (columns aggtable) arow "amount"
       = Ok (VNum (nth g amount n_zero)).
Proof.
  intros Ha Hg.
  pose proof (array_length _ _ _ Ha) as L.
  destruct (array_number_at _ _ _ Ha) as (i & Hi & Hm).
  destruct (nth_error (rows aggtable) g) as [arow|] eqn:En.
  - exists arow. split; [reflexivity|].
    destruct (res_map_nth _ _ _ _ _ Hm En) as (y & Hy & Hn).
    unfold getattr. rewrite Hi. unfold number_at in Hn.
    destruct (cell arow i) as [[s|x|n]|]; cbn [res_bind] in Hn;
      try discriminate.
    inversion Hn; subst y.
    now rewrite (nth_error_nth _ _ n_zero Hy).
  - apply nth_error_None in En. lia.
Qed.

(** The threshold filter keeps the rows of the groups above the
    threshold, and leaves the other columns of those rows as they are. *)
Lemma filter_above_threshold (aggtable : Table num) (amount : list num)
  (cols : list string) (i : nat) :
  array aggtable "amount" = Ok amount ->
  forall (rs : list (list (value num))) (groups : list nat) (xs : list num),
    res_map (fun r => res_bind (getattr cols r "group")
                        (fun v => match v with
                                  | VInt g => Ok g
                                  | _ => Raise TypeError
                                  end)) rs = Ok groups ->
    Forall (fun g => g < List.length amount) groups ->
    res_map (number_at i) rs = Ok xs ->
    res_filter (above_threshold args aggtable cols) rs
    = Ok (kept (threshold args) amount groups rs)
    /\ res_map (number_at i) (kept (threshold args) amount groups rs)
       = Ok (kept (threshold args) amount groups xs).
Proof.
  intros Ha. induction rs as [|r rs IH]; intros groups xs Hg Hb Hx.
  - cbn [res_map] in Hg. inversion Hg. split; reflexivity.
  - cbn [res_map] in Hg, Hx.
    destruct (getattr cols r "group") as [[s|x|g]|] eqn:Eg;
      cbn [res_bind] in Hg; try discriminate.
    destruct (res_map _ rs) as [gs|] eqn:Egs in Hg; [|discriminate].
    inversion Hg; subst groups. clear Hg.
    destruct (number_at i r) as [x|] eqn:Ex; [|discriminate].
    destruct (res_map (number_at i) rs) as [xs'|] eqn:Exs; [|discriminate].
    inversion Hx; subst xs. clear Hx.
    inversion Hb as [|? ? Hlt Hb']; subst.
    destruct (IH gs xs' Egs Hb' eq_refl) as [IH1 IH2].
    destruct (aggregate_amount aggtable amount g Ha Hlt) as (arow & En & Hn).
    unfold kept in *. cbn [combine List.filter fst res_filter].
    unfold above_threshold at 1. rewrite Eg. cbn [res_bind].
    rewrite En, Hn. cbn [res_bind]. rewrite IH1. cbn [res_bind].
    destruct (n_lt (threshold args) (nth g amount n_zero));
      cbn [List.map snd res_map]; [|auto].
    split; [reflexivity|]. now rewrite Ex, IH2.
Qed.

Lemma write_table_opens (path : option string) (t : Table num) :
  opens open_w path ->
  write_table open_w path t = (written path t, Ok tt).
Proof.
  intros Ho. unfold write_table, written. destruct path as [p|]; [|reflexivity].
  destruct (str_empty p) eqn:Ep; [reflexivity|].
  rewrite (Ho p eq_refl Ep). reflexivity.
Qed.

(** X15.  With a threshold given, an aggregate table whose amounts are
    numbers and an annotated table whose rows carry numeric amounts and the
    index of an aggregate row as their group, the report ends well.  The
    annotated table is cut down to the rows whose group has an aggregate
    amount strictly above the threshold, in their order.  The report writes
    the aggregate table where [--agg-table] asks for it, logs the total of
    the combined table and the total of the amounts of the rows kept, writes
    the table of the rows kept where [--full-table] asks for it, logs the
    aggregate total and prints the first rows of the aggregate table, as
    many as there are running totals below 0.90 times the total, which is
    never more than the table has.  The files asked for are taken to be
    writable, and the totals are those that [numpy.sum] returns. *)
Theorem report_with_threshold (fulltable aggtable annotable : Table num)
  (full_amounts amount annotated_amounts : list num) (groups : list nat) :
  n_truthy (threshold args) = true ->
  group fulltable (debug_output args) = Ok (aggtable, annotable) ->
  array fulltable "amount" = Ok full_amounts ->
  array aggtable "amount" = Ok amount ->
  array annotable "amount" = Ok annotated_amounts ->
  group_indices annotable = Ok groups ->
  Forall (fun g => g < List.length amount) groups ->
  opens open_w (agg_table args) ->
  opens open_w (full_table args) ->
  let filt := {| columns := columns annotable;
                 rows := kept (threshold args) amount groups
                              (rows annotable) |} in
  let headsize := headsize_of (numpy_sum amount) amount in
  Table.filter annotable (above_threshold args aggtable) = Ok filt
  /\ report group numpy_sum open_w args fulltable
     = (written (agg_table args) aggtable
        ++ [LogInfo (TextNum "Total amount from full holdings table: {:.2f}"
                             (numpy_sum full_amounts));
            LogInfo (TextNum "Total amount from annotated holdings table: {:.2f}"
                             (numpy_sum (kept (threshold args) amount groups
                                              annotated_amounts)))]
        ++ written (full_table args) filt
        ++ [LogInfo (TextNum "Total: {:.2f}" (numpy_sum amount));
            Print (head aggtable headsize)],
        Ok tt)
  /\ headsize <= List.length (rows aggtable).
Proof.
  intros Ht Hg Ha1 Ha3 Ha2 Hgr Hb Hoa Hof filt headsize.
  destruct (array_number_at _ _ _ Ha2) as (i & Hi & Hx).
  destruct (filter_above_threshold aggtable amount (columns annotable) i Ha3
              (rows annotable) groups annotated_amounts Hgr Hb Hx)
    as [Hf Hk].
  assert (Hfilt : Table.filter annotable (above_threshold args aggtable)
                  = Ok filt).
  { unfold Table.filter. now rewrite Hf. }
  assert (Hfa : array filt "amount"
                = Ok (kept (threshold args) amount groups annotated_amounts)).
  { apply (number_at_array filt "amount" i); assumption. }
  split; [exact Hfilt|]. split.
  - unfold report. rewrite Hg. cbn [lift bind].
    rewrite (write_table_opens _ aggtable Hoa). rewrite Ht, Hfilt.
    cbn [lift bind emit ret app read_local]. rewrite Ha1.
    cbn [lift bind emit ret app read_local]. rewrite Hfa.
    cbn [lift bind emit ret app read_local].
    rewrite (write_table_opens _ filt Hof). rewrite Ha3.
    cbn [lift bind emit ret app]. reflexivity.
  - unfold headsize, headsize_of.
    rewrite <- (array_length _ _ _ Ha3), <- (cumsum_length amount n_zero).
    apply filter_length_le.
Qed.

End Report.

Lemma report_with_threshold_witness :
  Table.filter
    {| columns := ["ticker"; "amount"; "group"];
       rows := [ [VStr "AAA"; VNum 500%float; VInt 0];
                 [VStr "BBB"; VNum 50%float; VInt 1];
                 [VStr "CCC"; VNum 10%float; VInt 2] ] |}
    (above_threshold shorts_args threshold_table)
  = Ok {| columns := ["ticker"; "amount"; "group"];
          rows := [ [VStr "AAA"; VNum 500%float; VInt 0] ] |}
  /\ report rowwise_group n_sum writable shorts_args threshold_table
     = ([LogInfo (TextNum "Total amount from full holdings table: {:.2f}"
                          560%float);
         LogInfo (TextNum "Total amount from annotated holdings table: {:.2f}"
                          500%float);
         WriteCsv "full.csv"
                  {| columns := ["ticker"; "amount"; "group"];
                     rows := [ [VStr "AAA"; VNum 500%float; VInt 0] ] |};
         LogInfo (TextNum "Total: {:.2f}" 560%float);
         Print {| columns := ["ticker"; "amount"];
                  rows := [ [VStr "AAA"; VNum 500%float] ] |}],
        Ok tt)
  /\ 1 <= 3.
Proof.
  destruct (report_with_threshold rowwise_group n_sum writable shorts_args
              threshold_table threshold_table
              {| columns := ["ticker"; "amount"; "group"];
                 rows := [ [VStr "AAA"; VNum 500%float; VInt 0];
                           [VStr "BBB"; VNum 50%float; VInt 1];
                           [VStr "CCC"; VNum 10%float; VInt 2] ] |}
              [500%float; 50%float; 10%float] [500%float; 50%float; 10%float]
              [500%float; 50%float; 10%float] [0; 1; 2])
    as (Hfilter & Hreport & Hsize).
  - reflexivity.
  - reflexivity.
  - reflexivity.
  - reflexivity.
  - reflexivity.
  - reflexivity.
  - repeat constructor.
  - intros p E. discriminate E.
  - intros p E _. reflexivity.
  - split; [exact Hfilter|]. split; [exact Hreport | exact Hsize].
Defined.

(** ** portfolio.py: the amounts of a position in exact arithmetic *)

(** X16.  In exact arithmetic the amounts of a position add up to the sum
    of its disclosed fractions times quantity times price: a disclosure
    whose fractions add up to one accounts for the whole value of the
    position, and one whose fractions add up to less leaves the rest of
    the value out of the combined table. *)
Theorem position_amounts_total
  (registry : string -> option (Downloader (num := Q))) (fs : filesystem)
  (args : Args (num := Q)) (row : Position (num := Q))
  (downloader : Downloader) (parser : string -> res (Table Q))
  (filename : string) (holdings : Table Q) (fractions_ : list Q) :
  n_lt (quantity row) n_zero && ignore_shorts args = false ->
  str_empty (issuer row) = false ->
  registry (issuer row) = Some downloader ->
  parse downloader = Some parser ->
  Database.getlatest fs {| Database.directory := dbdir args |} (ticker row)
  = Ok (Some filename) ->
  parser filename = Ok holdings ->
  wf_table holdings ->
  check_holdings holdings = Ok tt ->
  fractions holdings = Ok fractions_ ->
  exists t amounts,
    outcome (position_table registry fs args row) = Ok (Some t)
    /\ array t "amount" = Ok amounts
    /\ (n_sum amounts == n_sum fractions_ * (quantity row * price row))%Q.
Proof.
  intros Hs Hi Hr Hp Hl Hparse Hwf Hok Hf.
  destruct (check_holdings_accepts holdings Hok) as (Hfr & Has & He & Ha).
  pose proof (to_amounts_canonical row holdings fractions_
                Hwf Hfr Has He Ha Hf) as Hto.
  destruct (fractions_fraction_of holdings fractions_ Hf) as [Efs _].
  eexists. eexists. split; [|split].
  - unfold position_table, holdings_of.
    rewrite Hs, Hi, Hr, Hl. cbn [lift bind emit ret app].
    rewrite Hp, Hparse. cbn [lift bind emit ret app].
    rewrite Hok. cbn [lift bind emit ret app].
    rewrite Hto. reflexivity.
  - apply array_canonical_amount.
  - rewrite Efs, <- (map_map (fraction_of (columns holdings))
                             (fun f => n_mul f (n_mul (quantity row) (price row)))).
    unfold n_sum. cbn [n_add n_zero n_mul Q_Number].
    apply Qsum_scaled. ring.
Qed.

Lemma position_amounts_total_witness :
  exists t amounts,
    outcome (position_table exact_registry demo_fs exact_args exact_position)
    = Ok (Some t)
    /\ array t "amount" = Ok amounts
    /\ (n_sum amounts == n_sum [(1 # 2)%Q; (1 # 4)%Q; (1 # 4)%Q] * (3 * 100))%Q.
Proof.
  apply (position_amounts_total exact_registry demo_fs exact_args
           exact_position
           {| parse := Some (fun _ => Ok exact_holdings_Q) |}
           (fun _ => Ok exact_holdings_Q)
           "/db/VTI/2019/03/07/b.csv" exact_holdings_Q);
    try reflexivity.
  repeat constructor.
Defined.

(** ** portfolio.py: what [add_missing_columns] keeps *)

(** X17.  On a table whose rows have one cell per column,
    [add_missing_columns] gives a table whose rows have one cell per
    column again, and every column the table had holds the same values as
    before, row by row. *)
Theorem add_missing_columns_keeps_values {num : Type} (t : Table num) :
  wf_table t ->
  exists t',
    add_missing_columns t = Ok t'
    /\ wf_table t'
    /\ List.length (rows t') = List.length (rows t)
    /\ forall c, In c (columns t) -> values t' c = values t c.
Proof.
  intros Hwf. unfold add_missing_columns.
  rewrite (add_columns_spec IDCOLUMNS IDCOLUMNS_NoDup t).
  eexists. split; [reflexivity|].
  pose proof (extended_wf t IDCOLUMNS Hwf) as Hwf'.
  split; [exact Hwf'|]. split; [cbn [rows]; apply length_map|].
  intros c Hc.
  rewrite (values_column_cells _ c Hwf')
    by (cbn [columns]; apply in_or_app; now left).
  rewrite (values_column_cells t c Hwf Hc).
  now rewrite (column_cells_extended t _ _ c Hwf Hc).
Qed.

Lemma add_missing_columns_keeps_values_witness :
  exists t',
    add_missing_columns disclosed_holdings = Ok t'
    /\ wf_table t'
    /\ List.length (rows t') = List.length (rows disclosed_holdings)
    /\ forall c, In c (columns disclosed_holdings) ->
                 values t' c = values disclosed_holdings c.
Proof.
  apply (add_missing_columns_keeps_values disclosed_holdings).
  repeat constructor.
Defined.
